(** * WinDo: due-task scanner and alert player

    A shallow embedding of the timer effect of [src/App.tsx] (the one-second
    scan that marks due tasks as notified) and of the [AudioService] class of
    [src/services/audioService.ts] (the alert player), with the properties of
    the specification proved or refuted against them. *)

From Stdlib Require Import ZArith QArith Ascii String.
From stdpp Require Import gmap strings list fin_maps.

Local Open Scope Z_scope.

(** ** Data model ([src/types.ts]) *)

Inductive Priority := high | medium | low.

(** [notified] is an optional property; [createdAt] is not declared in
    [types.ts] but is written by [App.tsx] (lines 30, 188, 330). *)
Record Task := mkTask {
  id : string;
  title : string;
  time : string;
  date : string;
  priority : Priority;
  completed : bool;
  notified : option bool;
  createdAt : option Z
}.

Inductive SoundMode := bell | tts | custom.
Inductive Theme := light | dark.

(** [volume] is a fraction between 0 and 1 and is only ever passed through;
    [audioDuration] is a whole number of seconds ([parseInt] in the settings
    dialog). *)
Record AppSettings := mkSettings {
  theme : Theme;
  autoComplete : bool;
  soundMode : SoundMode;
  customSoundData : option string;
  customSoundName : option string;
  volume : Q;
  audioDuration : Z;
  audioLoop : bool;
  voiceURI : option string
}.

Definition DEFAULT_SETTINGS : AppSettings :=
  {| theme := light; autoComplete := false; soundMode := bell;
     customSoundData := None; customSoundName := None;
     volume := 8 # 10; audioDuration := 30; audioLoop := true;
     voiceURI := None |}.

(** JavaScript truthiness of the optional values the code tests. *)
Definition truthyBool (o : option bool) : bool :=
  match o with Some true => true | _ => false end.

Definition truthyString (o : option string) : bool :=
  match o with Some (String _ _) => true | _ => false end.

(** ** Formatting the wall clock ([App.tsx] lines 133-137) *)

(** The fields of [new Date()] the tick reads, in local time. [getMonth] is
    zero based. *)
Record LocalTime := mkLocalTime {
  getFullYear : Z;
  getMonth : Z;
  getDate : Z;
  getHours : Z;
  getMinutes : Z;
  getSeconds : Z
}.

Definition digitChar (d : Z) : ascii := ascii_of_N (Z.to_N (48 + d)).

(** Decimal digits of a non-negative integer, most significant first. The
    fuel is the number of binary digits, which bounds the number of decimal
    ones. *)
Fixpoint digits (fuel : nat) (n : Z) (acc : string) : string :=
  match fuel with
  | O => acc
  | S fuel' =>
      let acc' := String (digitChar (n mod 10)) acc in
      if n / 10 =? 0 then acc' else digits fuel' (n / 10) acc'
  end.

(** [String(n)] for an integer [n]. *)
Definition numberToString (n : Z) : string :=
  if n <? 0
  then String "-"%char (digits (S (Z.to_nat (Z.log2 (- n)))) (- n) "")
  else digits (S (Z.to_nat (Z.log2 n))) n "".

Fixpoint repeatChar (k : nat) (c : ascii) : string :=
  match k with O => "" | S k' => String c (repeatChar k' c) end.

(** [s.padStart(targetLength, fill)] with a one-character filler. *)
Definition padStart (targetLength : nat) (fill : ascii) (s : string) : string :=
  repeatChar (targetLength - String.length s) fill +:+ s.

(** [now.getFullYear() + '-' + String(now.getMonth() + 1).padStart(2, '0')
     + '-' + String(now.getDate()).padStart(2, '0')] *)
Definition currentDate (now : LocalTime) : string :=
  numberToString (getFullYear now) +:+ "-" +:+
  padStart 2 "0" (numberToString (getMonth now + 1)) +:+ "-" +:+
  padStart 2 "0" (numberToString (getDate now)).

(** [now.toLocaleTimeString('en-GB', { hour: '2-digit', minute: '2-digit' })]:
    the 24-hour clock, two digits each, separated by a colon. *)
Definition currentTime (now : LocalTime) : string :=
  padStart 2 "0" (numberToString (getHours now)) +:+ ":" +:+
  padStart 2 "0" (numberToString (getMinutes now)).

(** A clock reading whose year prints with four digits. *)
Definition validClock (now : LocalTime) : Prop :=
  1000 <= getFullYear now <= 9999 /\ 0 <= getMonth now <= 11 /\
  1 <= getDate now <= 31 /\ 0 <= getHours now <= 23 /\
  0 <= getMinutes now <= 59.

(** ** Parsing [YYYY-MM-DD] and [HH:mm] *)

Definition digitValue (c : ascii) : option Z :=
  let n := Z.of_N (N_of_ascii c) in
  if (48 <=? n) && (n <=? 57) then Some (n - 48) else None.

Definition twoDigits (a b : ascii) : option Z :=
  match digitValue a, digitValue b with
  | Some x, Some y => Some (10 * x + y)
  | _, _ => None
  end.

Definition fourDigits (a b c d : ascii) : option Z :=
  match twoDigits a b, twoDigits c d with
  | Some x, Some y => Some (100 * x + y)
  | _, _ => None
  end.

(** The date as (year, month 1-12, day 1-31), or [None] when the text is not
    of the form [YYYY-MM-DD]. *)
Definition parseDate (s : string) : option (Z * Z * Z) :=
  match s with
  | String y1 (String y2 (String y3 (String y4 (String "-"%char
      (String m1 (String m2 (String "-"%char
        (String d1 (String d2 EmptyString))))))))) =>
      match fourDigits y1 y2 y3 y4, twoDigits m1 m2, twoDigits d1 d2 with
      | Some y, Some m, Some d =>
          if (1 <=? m) && (m <=? 12) && (1 <=? d) && (d <=? 31)
          then Some (y, m, d) else None
      | _, _, _ => None
      end
  | _ => None
  end.

(** The time as (hour, minute), or [None] when the text is not [HH:mm]. *)
Definition parseTime (s : string) : option (Z * Z) :=
  match s with
  | String h1 (String h2 (String ":"%char (String m1 (String m2 EmptyString)))) =>
      match twoDigits h1 h2, twoDigits m1 m2 with
      | Some h, Some m =>
          if (h <=? 23) && (m <=? 59) then Some (h, m) else None
      | _, _ => None
      end
  | _ => None
  end.

Definition malformed (t : Task) : Prop :=
  parseDate (date t) = None \/ parseTime (time t) = None.

(** ** JavaScript control flow: state, exceptions, effects

    A computation reads and writes a store, and either returns or throws;
    what it wrote before throwing stays written. *)

Inductive JsError :=
| ReferenceError (name : string)
| TypeError (message : string)
| EncodingError.

Inductive Outcome (A : Type) :=
| Returned (a : A)
| Thrown (e : JsError).
Arguments Returned {A} a.
Arguments Thrown {A} e.

Definition Js (St A : Type) : Type := St -> Outcome A * St.

#[export] Instance js_ret {St} : MRet (Js St) :=
  fun A (a : A) st => (Returned a, st).

#[export] Instance js_bind {St} : MBind (Js St) :=
  fun A B (k : A -> Js St B) (m : Js St A) st =>
    match m st with
    | (Returned a, st') => k a st'
    | (Thrown e, st') => (Thrown e, st')
    end.

Definition throw {St A} (e : JsError) : Js St A := fun st => (Thrown e, st).

Definition tryCatch {St A} (body : Js St A) (handler : JsError -> Js St A)
    : Js St A :=
  fun st =>
    match body st with
    | (Returned a, st') => (Returned a, st')
    | (Thrown e, st') => handler e st'
    end.

Definition gets {St A} (f : St -> A) : Js St A := fun st => (Returned (f st), st).

Definition modify {St} (f : St -> St) : Js St unit := fun st => (Returned tt, f st).

(** ** The platform

    What the browser offers, fixed for a run: the [Notification] global with
    its permission (absent on some platforms, which the mount effect at
    [App.tsx] line 172 tests for), ['speechSynthesis' in window], the
    [AudioContext] constructor with the state a new context starts in
    (absent: the constructor call throws), and the voices of
    [speechSynthesis.getVoices()] by their [voiceURI]. *)

Inductive Permission := default | granted | denied.
Inductive ContextState := running | suspended.

Record Platform := mkPlatform {
  Notification : option Permission;
  speechSynthesis : bool;
  AudioContext : option ContextState;
  getVoices : list string
}.

(** ** The scan tick ([App.tsx] lines 131-168) *)

Module Scanner.

(** What the map callback does to the outside world. The [onEnd] closure
    handed to [playNotification] is always [() => setIsAlarmRinging(false)]. *)
Inductive Effect :=
| SetIsAlarmRinging (ringing : bool)
| PlayNotification (settings : AppSettings) (taskTitle : string)
| NewNotification (text : string).

(** The variables the callback closes over and writes: the [hasChanges]
    flag, and the effects performed so far, each tagged with the index of
    the element whose callback performed it. What was written stays written
    when the callback throws. *)
Record Frame := mkFrame {
  hasChanges : bool;
  performed : list (nat * Effect)
}.

Definition Tick (A : Type) : Type := Js Frame A.

Definition perform (index : nat) (e : Effect) : Tick unit :=
  modify (fun fr => {| hasChanges := hasChanges fr;
                       performed := performed fr ++ [(index, e)] |}).

Definition setHasChanges : Tick unit :=
  modify (fun fr => {| hasChanges := true; performed := performed fr |}).

(** Reading [Notification.permission] (line 150, unguarded). *)
Definition readPermission (env : Platform) : Tick Permission :=
  match Notification env with
  | Some p => mret p
  | None => throw (ReferenceError "Notification")
  end.

Definition isGranted (p : Permission) : bool :=
  match p with granted => true | _ => false end.

Section Tick.

Variable env : Platform.
Variable settings : AppSettings.
Variable now : LocalTime.

(** The condition of line 143. *)
Definition isDue (task : Task) : bool :=
  negb (completed task) && negb (truthyBool (notified task)) &&
  (date task =? currentDate now)%string &&
  (time task =? currentTime now)%string.

(** [{ ...task, notified: true, completed: settings.autoComplete ? true :
    task.completed }] *)
Definition markNotified (task : Task) : Task :=
  {| id := id task; title := title task; time := time task;
     date := date task; priority := priority task;
     completed := if autoComplete settings then true else completed task;
     notified := Some true;
     createdAt := createdAt task |}.

(** The callback given to [currentTasks.map]. *)
Definition visit (task : Task) (index : nat) : Tick Task :=
  if isDue task then
    perform index (SetIsAlarmRinging true) ;;
    perform index (PlayNotification settings (title task)) ;;
    p ← readPermission env ;
    (if isGranted p
     then perform index (NewNotification ("Task Due: " +:+ title task))
     else mret tt) ;;
    setHasChanges ;;
    mret (markNotified task)
  else mret task.

(** [Array.prototype.map], left to right, from [index] on. *)
Fixpoint arrayMap (f : Task -> nat -> Tick Task) (index : nat)
    (l : list Task) : Tick (list Task) :=
  match l with
  | [] => mret []
  | task :: rest =>
      task' ← f task index ;
      rest' ← arrayMap f (S index) rest ;
      mret (task' :: rest')
  end.

End Tick.

(** An array is a reference to its elements: two arrays with the same
    elements need not be the same array. *)
Record TaskArray := mkArray {
  ref : nat;
  elems : list Task
}.

(** The function given to [setTasks]: [fresh] is the reference the array built
    by [map] receives. *)
Definition updater (env : Platform) (settings : AppSettings) (now : LocalTime)
    (fresh : nat) (currentTasks : TaskArray)
    : Outcome TaskArray * list (nat * Effect) :=
  match arrayMap (visit env settings now) 0%nat (elems currentTasks)
          {| hasChanges := false; performed := [] |} with
  | (Returned updated, fr) =>
      (Returned (if hasChanges fr
                 then {| ref := fresh; elems := updated |}
                 else currentTasks),
       performed fr)
  | (Thrown e, fr) => (Thrown e, performed fr)
  end.

(** The application between ticks: the task collection, the next unused
    array reference, everything the ticks did so far, and whether a tick
    threw. An updater that returns is run once for each firing of the
    interval. Nothing in [App.tsx] catches an exception of the updater:
    React runs an updater that throws again, and when it still throws the
    component is unmounted and the scan ends. *)
Record Scan := mkScan {
  tasks : TaskArray;
  nextRef : nat;
  history : list (nat * Effect);
  crashed : bool
}.

(** How often React runs an updater that throws: when [setTasks] queues
    it, when the component renders, and when the render that threw is tried
    again. Each run performs what the callback does up to the throw. *)
Definition attempts : nat := 3.

(** One firing of the interval, with the settings of the effect that armed
    it. *)
Definition tick (env : Platform) (settings : AppSettings) (now : LocalTime)
    (st : Scan) : Scan :=
  if crashed st then st
  else
    match updater env settings now (nextRef st) (tasks st) with
    | (Returned arr, done) =>
        {| tasks := arr; nextRef := S (nextRef st);
           history := history st ++ done; crashed := false |}
    | (Thrown _, done) =>
        {| tasks := tasks st; nextRef := S (nextRef st);
           history := history st ++ concat (replicate attempts done);
           crashed := true |}
    end.

Definition ticks (env : Platform) (schedule : list (AppSettings * LocalTime))
    (st : Scan) : Scan :=
  foldl (fun st sn => tick env sn.1 sn.2 st) st schedule.

(** The task the callback returns for [task] when it returns. *)
Definition visited (settings : AppSettings) (now : LocalTime) (task : Task)
    : Task :=
  if isDue now task then markNotified settings task else task.

(** What the callback of a due task has done by the time it reads
    [Notification.permission]. *)
Definition announced (settings : AppSettings) (index : nat) (task : Task)
    : list (nat * Effect) :=
  [(index, SetIsAlarmRinging true);
   (index, PlayNotification settings (title task))].

Definition isAlertOf (index : nat) (entry : nat * Effect) : bool :=
  match entry with
  | (i, PlayNotification _ _) => Nat.eqb i index
  | _ => false
  end.

(** How often the alert was started for the task at [index]. *)
Definition alerts (index : nat) (done : list (nat * Effect)) : nat :=
  length (filter (fun e => isAlertOf index e = true) done).

(** A position whose alert cannot start any more: the scan has ended, or
    the task there carries [notified: true]. *)
Definition dormant (index : nat) (st : Scan) : Prop :=
  crashed st = true \/
  forall t, elems (tasks st) !! index = Some t -> notified t = Some true.

(** Minutes since local midnight. *)
Definition minuteOfDay (now : LocalTime) : Z :=
  60 * getHours now + getMinutes now.

End Scanner.

(** Concrete data: a task due at 09:00 on 5 March 2024, as in scenario A of
    the specification, and clock readings around it. *)
Module Scenario.

Definition desktop : Platform :=
  {| Notification := Some granted; speechSynthesis := true;
     AudioContext := Some running; getVoices := ["urn:voice:en-GB"] |}.

Definition standup : Task :=
  {| id := "7f1c"; title := "Standup"; time := "09:00"; date := "2024-03-05";
     priority := high; completed := false; notified := Some false;
     createdAt := Some 1709600000000 |}.

Definition lunch : Task :=
  {| id := "a02e"; title := "Lunch"; time := "12:30"; date := "2024-03-05";
     priority := medium; completed := false; notified := None;
     createdAt := None |}.

Definition garbled : Task :=
  {| id := "c9d4"; title := "Imported"; time := "9:00"; date := "05/03/2024";
     priority := low; completed := false; notified := None;
     createdAt := None |}.

Definition at0859 : LocalTime := mkLocalTime 2024 2 5 8 59 59.
Definition at0900 : LocalTime := mkLocalTime 2024 2 5 9 0 0.
Definition at0900' : LocalTime := mkLocalTime 2024 2 5 9 0 1.
Definition at0901 : LocalTime := mkLocalTime 2024 2 5 9 1 0.

Definition autoCompleting : AppSettings :=
  {| theme := light; autoComplete := true; soundMode := bell;
     customSoundData := None; customSoundName := None;
     volume := 8 # 10; audioDuration := 30; audioLoop := true;
     voiceURI := None |}.

Definition morning : Scanner.Scan :=
  {| Scanner.tasks := {| Scanner.ref := 0; Scanner.elems := [standup; lunch; garbled] |};
     Scanner.nextRef := 1; Scanner.history := []; Scanner.crashed := false |}.

End Scenario.

(** ** The alert player ([src/services/audioService.ts]) *)

Module Audio.

(** The closures the service hands to [setTimeout] and [setInterval]. *)
Inductive TimerAction :=
| CallStop
| RingBell (gain : Q)
| SpeakLoop (text : string) (gain : Q) (voice : option string).

Inductive TimerKind := Timeout | Interval.

(** A pending timer; [delay] is in milliseconds. *)
Record Timer := mkTimer {
  kind : TimerKind;
  delay : Z;
  action : TimerAction
}.

(** The closures assigned to [utterance.onend]: the one of [speakLoop]
    (line 195) and the one of the single utterance (line 202). *)
Inductive EndHandler :=
| RearmSpeakLoop (text : string) (gain : Q) (voice : option string)
| NaturalEnd.

Record Utterance := mkUtterance {
  text : string;
  loudness : Q;
  rate : Z;
  voice : option string;
  onend : option EndHandler
}.

(** A started audio node: the oscillator of [playBellSound], which is told
    at creation to stop 0.6 s later, or the buffer source of [playCustom]. A
    decoded buffer is identified by the payload it was decoded from. *)
Inductive Node :=
| Oscillator
| BufferSource (buffer : string) (loop : bool).

Record Source := mkSource {
  node : Node;
  gain : Q;
  playing : bool
}.

(** An [async] function parked at an [await]: [playNotification] at line 177,
    or [playCustom] at lines 107-109 (the three awaits there touch no field
    of the service in between and are taken as one). *)
Inductive Awaited :=
| Resume (settings : AppSettings) (taskTitle : string)
| Decode (base64Data : string) (gain : Q) (loop : bool).

(** The private fields of the class. Timer handles are positive integers,
    hence truthy; an [onEnd] closure is identified by a number its caller
    chose. *)
Record AudioService := mkService {
  audioContext : option ContextState;
  customAudioBuffer : option string;
  currentSource : option nat;
  stopTimeout : option positive;
  loopInterval : option positive;
  onPlaybackEnd : option nat
}.

(** The browser side: pending timers, started audio nodes, the speech
    queue, parked [async] functions, the [onEnd] closures called so far (in
    order), and the promise rejections nobody handled. *)
Record Window := mkWindow {
  timers : gmap positive Timer;
  nextTimer : positive;
  sources : gmap nat Source;
  nextSource : nat;
  utterances : list Utterance;
  awaiting : gmap nat Awaited;
  nextAwait : nat;
  called : list nat;
  unhandled : list JsError
}.

Record World := mkWorld {
  this : AudioService;
  window : Window
}.

Definition initial : World :=
  {| this := {| audioContext := None; customAudioBuffer := None;
                currentSource := None; stopTimeout := None;
                loopInterval := None; onPlaybackEnd := None |};
     window := {| timers := ∅; nextTimer := 1%positive; sources := ∅;
                  nextSource := 0%nat; utterances := []; awaiting := ∅;
                  nextAwait := 0%nat; called := []; unhandled := [] |} |}.

(** *** Assignments to single fields *)

Definition onThis (f : AudioService -> AudioService) (w : World) : World :=
  {| this := f (this w); window := window w |}.

Definition onWindow (f : Window -> Window) (w : World) : World :=
  {| this := this w; window := f (window w) |}.

Definition setAudioContext (v : option ContextState) (s : AudioService) :=
  {| audioContext := v; customAudioBuffer := customAudioBuffer s;
     currentSource := currentSource s; stopTimeout := stopTimeout s;
     loopInterval := loopInterval s; onPlaybackEnd := onPlaybackEnd s |}.

Definition setCustomAudioBuffer (v : option string) (s : AudioService) :=
  {| audioContext := audioContext s; customAudioBuffer := v;
     currentSource := currentSource s; stopTimeout := stopTimeout s;
     loopInterval := loopInterval s; onPlaybackEnd := onPlaybackEnd s |}.

Definition setCurrentSource (v : option nat) (s : AudioService) :=
  {| audioContext := audioContext s; customAudioBuffer := customAudioBuffer s;
     currentSource := v; stopTimeout := stopTimeout s;
     loopInterval := loopInterval s; onPlaybackEnd := onPlaybackEnd s |}.

Definition setStopTimeout (v : option positive) (s : AudioService) :=
  {| audioContext := audioContext s; customAudioBuffer := customAudioBuffer s;
     currentSource := currentSource s; stopTimeout := v;
     loopInterval := loopInterval s; onPlaybackEnd := onPlaybackEnd s |}.

Definition setLoopInterval (v : option positive) (s : AudioService) :=
  {| audioContext := audioContext s; customAudioBuffer := customAudioBuffer s;
     currentSource := currentSource s; stopTimeout := stopTimeout s;
     loopInterval := v; onPlaybackEnd := onPlaybackEnd s |}.

Definition setOnPlaybackEnd (v : option nat) (s : AudioService) :=
  {| audioContext := audioContext s; customAudioBuffer := customAudioBuffer s;
     currentSource := currentSource s; stopTimeout := stopTimeout s;
     loopInterval := loopInterval s; onPlaybackEnd := v |}.

Definition setTimers (v : gmap positive Timer) (n : positive) (b : Window) :=
  {| timers := v; nextTimer := n; sources := sources b;
     nextSource := nextSource b; utterances := utterances b;
     awaiting := awaiting b; nextAwait := nextAwait b; called := called b;
     unhandled := unhandled b |}.

Definition setSources (v : gmap nat Source) (n : nat) (b : Window) :=
  {| timers := timers b; nextTimer := nextTimer b; sources := v;
     nextSource := n; utterances := utterances b;
     awaiting := awaiting b; nextAwait := nextAwait b; called := called b;
     unhandled := unhandled b |}.

Definition setUtterances (v : list Utterance) (b : Window) :=
  {| timers := timers b; nextTimer := nextTimer b; sources := sources b;
     nextSource := nextSource b; utterances := v;
     awaiting := awaiting b; nextAwait := nextAwait b; called := called b;
     unhandled := unhandled b |}.

Definition setAwaiting (v : gmap nat Awaited) (n : nat) (b : Window) :=
  {| timers := timers b; nextTimer := nextTimer b; sources := sources b;
     nextSource := nextSource b; utterances := utterances b;
     awaiting := v; nextAwait := n; called := called b;
     unhandled := unhandled b |}.

Definition setCalled (v : list nat) (b : Window) :=
  {| timers := timers b; nextTimer := nextTimer b; sources := sources b;
     nextSource := nextSource b; utterances := utterances b;
     awaiting := awaiting b; nextAwait := nextAwait b; called := v;
     unhandled := unhandled b |}.

Definition setUnhandled (v : list JsError) (b : Window) :=
  {| timers := timers b; nextTimer := nextTimer b; sources := sources b;
     nextSource := nextSource b; utterances := utterances b;
     awaiting := awaiting b; nextAwait := nextAwait b; called := called b;
     unhandled := v |}.

(** *** Browser primitives *)

(** [window.setTimeout] / [window.setInterval]: a fresh handle. *)
Definition setTimer (k : TimerKind) (ms : Z) (a : TimerAction)
    : Js World positive :=
  fun w =>
    let h := nextTimer (window w) in
    (Returned h,
     onWindow (setTimers (<[h := mkTimer k ms a]> (timers (window w)))
                 (Pos.succ h)) w).

(** [window.clearTimeout] / [window.clearInterval]; both clear either kind. *)
Definition clearTimer (h : positive) : Js World unit :=
  modify (fun w =>
    onWindow (setTimers (delete h (timers (window w)))
                (nextTimer (window w))) w).

(** Creating a node, connecting it to the destination and [start()]ing it. *)
Definition startNode (n : Node) (g : Q) : Js World nat :=
  fun w =>
    let i := nextSource (window w) in
    (Returned i,
     onWindow (setSources (<[i := mkSource n g true]> (sources (window w)))
                 (S i)) w).

(** [node.stop()]: the node goes silent; stopping one that has ended is not
    an error. *)
Definition stopNode (i : nat) : Js World unit :=
  modify (fun w =>
    onWindow (setSources
                (alter (fun s => mkSource (node s) (gain s) false) i
                   (sources (window w)))
                (nextSource (window w))) w).

(** [speechSynthesis.cancel()] empties the queue. A cancelled utterance is
    reported through its [error] event, for which the service installs no
    handler; its [onend] is not run. *)
Definition cancel : Js World unit :=
  modify (onWindow (setUtterances [])).

Definition speak (u : Utterance) : Js World unit :=
  modify (fun w => onWindow (setUtterances (utterances (window w) ++ [u])) w).

(** Calling an [onEnd] closure. *)
Definition call (cb : nat) : Js World unit :=
  modify (fun w => onWindow (setCalled (called (window w) ++ [cb])) w).

(** Parking the running [async] function at an [await]. *)
Definition await (a : Awaited) : Js World unit :=
  modify (fun w =>
    let k := nextAwait (window w) in
    onWindow (setAwaiting (<[k := a]> (awaiting (window w))) (S k)) w).

(** An [async] function never throws to its caller: an exception rejects the
    promise it returned, which no caller in this repository handles. *)
Definition async (body : Js World unit) : Js World unit :=
  tryCatch body (fun e =>
    modify (fun w => onWindow (setUnhandled (unhandled (window w) ++ [e])) w)).

Section Service.

Variable env : Platform.

(** Lines 15-20. *)
Definition getContext : Js World unit :=
  ctx ← gets (fun w => audioContext (this w));
  match ctx with
  | Some _ => mret tt
  | None =>
      match AudioContext env with
      | Some st => modify (onThis (setAudioContext (Some st)))
      | None => throw (TypeError "AudioContext is not a constructor")
      end
  end.

(** Lines 23-43. The oscillator is scheduled to stop by itself. *)
Definition playBellSound (volume : Q) : Js World Z :=
  getContext ;;
  osc ← startNode Oscillator volume;
  modify (onThis (setCurrentSource (Some osc))) ;;
  mret 600.

(** [voices.find(v => v.voiceURI === voiceURI)] behind [if (voiceURI)]. *)
Definition selectVoice (voiceURI : option string) : option string :=
  match voiceURI with
  | Some uri =>
      if truthyString voiceURI && bool_decide (uri ∈ getVoices env)
      then Some uri else None
  | None => None
  end.

(** Lines 76-100. *)
Definition speakText (text : string) (volume : Q) (voiceURI : option string)
    (onEnd : option EndHandler) : Js World unit :=
  if speechSynthesis env then
    cancel ;;
    speak {| text := text; loudness := volume; rate := 1;
             voice := selectVoice voiceURI; onend := onEnd |}
  else mret tt.

(** Lines 112-125, with the buffer that was read from the cache. *)
Definition playBuffer (volume : Q) (loop : bool) : Js World unit :=
  cached ← gets (fun w => customAudioBuffer (this w));
  match cached with
  | Some buffer =>
      source ← startNode (BufferSource buffer loop) volume;
      modify (onThis (setCurrentSource (Some source)))
  | None => mret tt
  end.

(** The handler of lines 126-130. *)
Definition fallback (volume : Q) (e : JsError) : Js World unit :=
  playBellSound volume ;; mret tt.

(** Lines 102-131, up to the first [await]. *)
Definition playCustom (base64Data : string) (volume : Q) (loop : bool)
    : Js World unit :=
  tryCatch
    (getContext ;;
     cached ← gets (fun w => customAudioBuffer (this w));
     match cached with
     | None => await (Decode base64Data volume loop)
     | Some _ => playBuffer volume loop
     end)
    (fallback volume).

(** Lines 107-131 from the point where the awaited decoding settles:
    [decoded] is the buffer, or [None] when fetching or decoding failed. *)
Definition playCustomResumed (decoded : option string) (volume : Q)
    (loop : bool) : Js World unit :=
  tryCatch
    (match decoded with
     | Some buffer =>
         modify (onThis (setCustomAudioBuffer (Some buffer))) ;;
         playBuffer volume loop
     | None => throw EncodingError
     end)
    (fallback volume).

(** Line 133. *)
Definition clearCustomCache : Js World unit :=
  modify (onThis (setCustomAudioBuffer None)).

(** Lines 137-168. *)
Definition stop : Js World unit :=
  source ← gets (fun w => currentSource (this w));
  match source with
  | Some i =>
      tryCatch (stopNode i) (fun _ => mret tt) ;;
      modify (onThis (setCurrentSource None))
  | None => mret tt
  end ;;
  (if speechSynthesis env then cancel else mret tt) ;;
  t ← gets (fun w => stopTimeout (this w));
  match t with
  | Some h => clearTimer h ;; modify (onThis (setStopTimeout None))
  | None => mret tt
  end ;;
  l ← gets (fun w => loopInterval (this w));
  match l with
  | Some h => clearTimer h ;; modify (onThis (setLoopInterval None))
  | None => mret tt
  end ;;
  cb ← gets (fun w => onPlaybackEnd (this w));
  match cb with
  | Some f => call f ;; modify (onThis (setOnPlaybackEnd None))
  | None => mret tt
  end.

(** The bell branch, lines 212-223. *)
Definition playBell (volume : Q) (audioLoop : bool) : Js World unit :=
  if audioLoop then
    playBellSound volume ;;
    h ← setTimer Interval 1000 (RingBell volume);
    modify (onThis (setLoopInterval (Some h)))
  else
    playBellSound volume ;; mret tt.

(** Lines 180-223: [playNotification] after its [await]. *)
Definition playback (settings : AppSettings) (taskTitle : string)
    : Js World unit :=
  (if 0 <? audioDuration settings then
     h ← setTimer Timeout (audioDuration settings * 1000) CallStop;
     modify (onThis (setStopTimeout (Some h)))
   else mret tt) ;;
  match soundMode settings, customSoundData settings with
  | tts, _ =>
      let text := "Task due: " +:+ taskTitle in
      if audioLoop settings then
        speakText text (volume settings) (voiceURI settings)
          (Some (RearmSpeakLoop text (volume settings) (voiceURI settings)))
      else
        speakText text (volume settings) (voiceURI settings) (Some NaturalEnd)
  | custom, Some (String c data) =>
      playCustom (String c data) (volume settings) (audioLoop settings)
  | _, _ => playBell (volume settings) (audioLoop settings)
  end.

(** Lines 170-224. *)
Definition playNotification (settings : AppSettings) (taskTitle : string)
    (onEnd : option nat) : Js World unit :=
  async
    (stop ;;
     modify (onThis (setOnPlaybackEnd onEnd)) ;;
     ctx ← gets (fun w => audioContext (this w));
     match ctx with
     | Some suspended => await (Resume settings taskTitle)
     | _ => playback settings taskTitle
     end).

(** Running a closure the service registered. *)
Definition runTimer (a : TimerAction) : Js World unit :=
  match a with
  | CallStop => stop
  | RingBell volume => playBellSound volume ;; mret tt
  | SpeakLoop text volume voiceURI =>
      speakText text volume voiceURI
        (Some (RearmSpeakLoop text volume voiceURI))
  end.

Definition runEndHandler (h : EndHandler) : Js World unit :=
  match h with
  | RearmSpeakLoop text volume voiceURI =>
      t ← setTimer Timeout 1000 (SpeakLoop text volume voiceURI);
      modify (onThis (setLoopInterval (Some t)))
  | NaturalEnd =>
      cb ← gets (fun w => onPlaybackEnd (this w));
      match cb with
      | Some f => call f
      | None => mret tt
      end
  end.

(** *** The event loop *)

(** What can happen to the player: its public methods are called, a
    timer fires, the utterance at the head of the queue ends, a node plays
    to its end, an awaited promise settles, or the browser suspends or
    resumes the audio context on its own. *)
Inductive Event :=
| PlayNotification (settings : AppSettings) (taskTitle : string)
    (onEnd : option nat)
| Stop
| ClearCustomCache
| TimerFires (h : positive)
| UtteranceEnds
| SourceEnds (i : nat)
| Resumed (k : nat)
| Decoded (k : nat) (ok : bool)
| StateChanges (state : ContextState).

(** An exception that reaches the event loop is reported there. *)
Definition task (m : Js World unit) (w : World) : World :=
  match m w with
  | (Returned _, w') => w'
  | (Thrown e, w') =>
      onWindow (setUnhandled (unhandled (window w') ++ [e])) w'
  end.

Definition endsByItself (s : Source) : bool :=
  match node s with
  | Oscillator => true
  | BufferSource _ loop => negb loop
  end.

Definition step (w : World) (e : Event) : World :=
  match e with
  | PlayNotification settings taskTitle onEnd =>
      task (playNotification settings taskTitle onEnd) w
  | Stop => task stop w
  | ClearCustomCache => task clearCustomCache w
  | TimerFires h =>
      match timers (window w) !! h with
      | Some t =>
          task ((match kind t with
                 | Timeout => clearTimer h
                 | Interval => mret tt
                 end) ;; runTimer (action t)) w
      | None => w
      end
  | UtteranceEnds =>
      match utterances (window w) with
      | u :: queue =>
          task (modify (onWindow (setUtterances queue)) ;;
                match onend u with
                | Some h => runEndHandler h
                | None => mret tt
                end) w
      | [] => w
      end
  | SourceEnds i =>
      match sources (window w) !! i with
      | Some s => if endsByItself s then task (stopNode i) w else w
      | None => w
      end
  | Resumed k =>
      match awaiting (window w) !! k with
      | Some (Resume settings taskTitle) =>
          task (modify (fun w =>
                  onWindow (setAwaiting (delete k (awaiting (window w)))
                              (nextAwait (window w))) w) ;;
                modify (onThis (setAudioContext (Some running))) ;;
                async (playback settings taskTitle)) w
      | _ => w
      end
  | Decoded k ok =>
      match awaiting (window w) !! k with
      | Some (Decode base64Data volume loop) =>
          task (modify (fun w =>
                  onWindow (setAwaiting (delete k (awaiting (window w)))
                              (nextAwait (window w))) w) ;;
                async (playCustomResumed
                         (if ok then Some base64Data else None)
                         volume loop)) w
      | _ => w
      end
  | StateChanges state =>
      match audioContext (this w) with
      | Some _ => onThis (setAudioContext (Some state)) w
      | None => w
      end
  end.

Definition run (w : World) (trace : list Event) : World :=
  foldl step w trace.

End Service.

(** *** Observations *)

Definition isBuffer (s : Source) : bool :=
  match node s with BufferSource _ _ => true | Oscillator => false end.

(** The buffer sources that are sounding. *)
Definition playingBuffers (w : World) : gmap nat Source :=
  filter (fun entry => playing entry.2 = true /\ isBuffer entry.2 = true)
    (sources (window w)).

(** The pending timers that keep a bell loop ([RingBell]) or a speech chain
    ([SpeakLoop]) going. *)
Definition isLoopTimer (t : Timer) : bool :=
  match action t with CallStop => false | _ => true end.

Definition loopTimers (w : World) : gmap positive Timer :=
  filter (fun entry => isLoopTimer entry.2 = true) (timers (window w)).

(** How often the closure [cb] was called. *)
Definition calls (cb : nat) (w : World) : nat :=
  length (filter (fun c => c = cb) (called (window w))).

(** What a spoken alert puts into the speech queue. *)
Definition phrase (env : Platform) (text : string) (vol : Q)
    (voiceURI : option string) (onEnd : EndHandler) : Utterance :=
  {| text := text; loudness := vol; rate := 1;
     voice := selectVoice env voiceURI; onend := Some onEnd |}.

(** *** The state [stop()] leaves, written out *)

Definition forget (h : option positive) (m : gmap positive Timer)
    : gmap positive Timer :=
  match h with Some k => delete k m | None => m end.

Definition silenced (i : option nat) (m : gmap nat Source) : gmap nat Source :=
  match i with
  | Some k => alter (fun s => mkSource (node s) (gain s) false) k m
  | None => m
  end.

Definition stopped (env : Platform) (w : World) : World :=
  {| this :=
       {| audioContext := audioContext (this w);
          customAudioBuffer := customAudioBuffer (this w);
          currentSource := None; stopTimeout := None;
          loopInterval := None; onPlaybackEnd := None |};
     window :=
       {| timers := forget (loopInterval (this w))
                      (forget (stopTimeout (this w)) (timers (window w)));
          nextTimer := nextTimer (window w);
          sources := silenced (currentSource (this w)) (sources (window w));
          nextSource := nextSource (window w);
          utterances :=
            if speechSynthesis env then [] else utterances (window w);
          awaiting := awaiting (window w);
          nextAwait := nextAwait (window w);
          called := match onPlaybackEnd (this w) with
                    | Some f => called (window w) ++ [f]
                    | None => called (window w)
                    end;
          unhandled := unhandled (window w) |} |}.

(** *** One session at a time *)

Definition noBuffers (w : World) : Prop :=
  forall i s, sources (window w) !! i = Some s -> playing s = true ->
    isBuffer s = false.

Definition noLoopTimers (w : World) : Prop :=
  forall h t, timers (window w) !! h = Some t -> isLoopTimer t = false.

(** Nothing is left that keeps an alert sounding: no timer, no utterance
    spoken or queued, no buffer source playing. What may remain is the tail
    of a bell tone, which its oscillator ends by itself. *)
Definition silent (w : World) : Prop :=
  timers (window w) = ∅ /\ utterances (window w) = [] /\ noBuffers w.

(** How the service arms each of its closures: the bell repeats on an
    interval, the ceiling and the next utterance are one-shot. *)
Definition kindOf (a : TimerAction) : TimerKind :=
  match a with RingBell _ => Interval | _ => Timeout end.

(** The player holds at most one session, and holds all of it: every pending
    timer and every playing buffer source is the one recorded in the fields,
    and of an utterance, a loop timer, a playing buffer source and a parked
    [async] function at most one kind is present, once. *)
Record orderly (env : Platform) (w : World) : Prop := mkOrderly {
  timers_tracked : forall h t, timers (window w) !! h = Some t ->
    if isLoopTimer t then loopInterval (this w) = Some h
    else stopTimeout (this w) = Some h;
  timers_kind : forall h t, timers (window w) !! h = Some t ->
    kind t = kindOf (action t);
  buffers_tracked : forall i s, sources (window w) !! i = Some s ->
    playing s = true -> isBuffer s = true -> currentSource (this w) = Some i;
  speech_supported :
    speechSynthesis env = false -> utterances (window w) = [];
  speech_single : (length (utterances (window w)) <= 1)%nat;
  speech_alone : utterances (window w) <> [] ->
    noLoopTimers w /\ noBuffers w /\ awaiting (window w) = ∅;
  loop_alone : forall h t, timers (window w) !! h = Some t ->
    isLoopTimer t = true -> noBuffers w /\ awaiting (window w) = ∅;
  await_alone : forall k a, awaiting (window w) !! k = Some a ->
    awaiting (window w) = {[k := a]} /\ noBuffers w /\
    match a with
    | Resume _ _ => timers (window w) = ∅
    | Decode _ _ _ => True
    end
}.

(** While [playCustom] is parked the audio context exists. *)
Definition contextReady (w : World) : Prop :=
  forall k base64Data volume loop,
    awaiting (window w) !! k = Some (Decode base64Data volume loop) ->
    is_Some (audioContext (this w)).

(** No ceiling timer is pending. *)
Definition noCeiling (w : World) : Prop :=
  forall h t, timers (window w) !! h = Some t -> action t <> CallStop.

(** No session is under way and none is on its way: the player is silent
    and no start is parked at an [await]. *)
Definition atRest (w : World) : Prop :=
  silent w /\ awaiting (window w) = ∅.

(** A looping buffer source that plays and that no field of the service
    records: it is not what [currentSource] holds, so neither [stop()] nor
    a later start reaches it. *)
Definition orphaned (i : nat) (w : World) : Prop :=
  (exists buffer g, sources (window w) !! i =
     Some {| node := BufferSource buffer true; gain := g;
             playing := true |}) /\
  currentSource (this w) <> Some i /\ (i < nextSource (window w))%nat.

Definition isPlayNotification (e : Event) : bool :=
  match e with PlayNotification _ _ _ => true | _ => false end.

Definition isStop (e : Event) : bool :=
  match e with Stop => true | _ => false end.

(** A trace in which [playNotification] is only called while no earlier
    call is parked at an [await]. *)
Fixpoint spaced (env : Platform) (w : World) (trace : list Event) : Prop :=
  match trace with
  | [] => True
  | e :: rest =>
      (isPlayNotification e = true -> awaiting (window w) = ∅) /\
      spaced env (step env w e) rest
  end.

End Audio.

(** Settings for the three sound modes, on top of the defaults (bell,
    looping, 30 s ceiling). *)
Module Sounds.

Definition speakOnce : AppSettings :=
  {| theme := light; autoComplete := false; soundMode := tts;
     customSoundData := None; customSoundName := None;
     volume := 8 # 10; audioDuration := 30; audioLoop := false;
     voiceURI := None |}.

Definition speakRepeatedly : AppSettings :=
  {| theme := light; autoComplete := false; soundMode := tts;
     customSoundData := None; customSoundName := None;
     volume := 8 # 10; audioDuration := 30; audioLoop := true;
     voiceURI := Some "urn:voice:en-GB" |}.

Definition ownSound : AppSettings :=
  {| theme := light; autoComplete := false; soundMode := custom;
     customSoundData := Some "data:audio/mpeg;base64,SUQzBAAAAAAA";
     customSoundName := Some "gong.mp3";
     volume := 8 # 10; audioDuration := 30; audioLoop := true;
     voiceURI := None |}.

Definition briefBell : AppSettings :=
  {| theme := light; autoComplete := false; soundMode := bell;
     customSoundData := None; customSoundName := None;
     volume := 8 # 10; audioDuration := 3; audioLoop := true;
     voiceURI := None |}.

Definition uncapped : AppSettings :=
  {| theme := light; autoComplete := false; soundMode := bell;
     customSoundData := None; customSoundName := None;
     volume := 8 # 10; audioDuration := 0; audioLoop := true;
     voiceURI := None |}.

End Sounds.

(** ** Texts

    A text is a sequence of code units below 256; the functions below are
    the methods of [String.prototype] the application calls, on such
    texts. *)

Module Text.

Definition codeUnit (c : ascii) : N := N_of_ascii c.

(** The white space and line terminators [trim] strips: tab, line feed,
    vertical tab, form feed, carriage return, space, no-break space. *)
Definition isWhiteSpace (c : ascii) : bool :=
  let n := codeUnit c in
  ((9 <=? n) && (n <=? 13) || (n =? 32) || (n =? 160))%N.

Fixpoint trimStart (s : string) : string :=
  match s with
  | String c rest => if isWhiteSpace c then trimStart rest else s
  | EmptyString => EmptyString
  end.

Fixpoint revOnto (s acc : string) : string :=
  match s with
  | String c rest => revOnto rest (String c acc)
  | EmptyString => acc
  end.

Definition reverse (s : string) : string := revOnto s "".

Definition trimEnd (s : string) : string := reverse (trimStart (reverse s)).

(** [s.trim()] *)
Definition trim (s : string) : string := trimEnd (trimStart s).

(** [s.toLowerCase()]: the letters A-Z and the accented capitals other than
    the multiplication sign move up by 32. *)
Definition lowerChar (c : ascii) : ascii :=
  let n := codeUnit c in
  if ((65 <=? n) && (n <=? 90) ||
      (192 <=? n) && (n <=? 222) && negb (n =? 215))%N
  then ascii_of_N (n + 32) else c.

Fixpoint toLowerCase (s : string) : string :=
  match s with
  | String c rest => String (lowerChar c) (toLowerCase rest)
  | EmptyString => EmptyString
  end.

(** [s.includes(needle)] *)
Fixpoint includes (needle s : string) : bool :=
  String.prefix needle s ||
  match s with
  | String _ rest => includes needle rest
  | EmptyString => false
  end.

(** [s.split(sep)] for a separator of one code unit: never empty. *)
Fixpoint split (sep : ascii) (s : string) : list string :=
  match s with
  | EmptyString => [EmptyString]
  | String c rest =>
      if Ascii.eqb c sep then EmptyString :: split sep rest
      else match split sep rest with
           | piece :: pieces => String c piece :: pieces
           | [] => [String c EmptyString]
           end
  end.

(** [\d] *)
Definition isDigit (c : ascii) : bool :=
  let n := codeUnit c in ((48 <=? n) && (n <=? 57))%N.

(** [/^\d{1,2}:\d{2}$/.test(s)] *)
Definition matchesTime (s : string) : bool :=
  match s with
  | String h (String c (String m1 (String m2 EmptyString))) =>
      isDigit h && Ascii.eqb c ":" && isDigit m1 && isDigit m2
  | String h1 (String h2 (String c (String m1 (String m2 EmptyString)))) =>
      isDigit h1 && isDigit h2 && Ascii.eqb c ":" && isDigit m1 && isDigit m2
  | _ => false
  end.

(** [/^\d{4}-\d{2}-\d{2}$/.test(s)] *)
Definition matchesDate (s : string) : bool :=
  match s with
  | String y1 (String y2 (String y3 (String y4 (String c1
      (String m1 (String m2 (String c2
        (String d1 (String d2 EmptyString))))))))) =>
      isDigit y1 && isDigit y2 && isDigit y3 && isDigit y4 &&
      Ascii.eqb c1 "-" && isDigit m1 && isDigit m2 &&
      Ascii.eqb c2 "-" && isDigit d1 && isDigit d2
  | _ => false
  end.

(** Two digits, a colon, two digits. *)
Definition isPaddedTime (s : string) : bool :=
  match s with
  | String h1 (String h2 (String c (String m1 (String m2 EmptyString)))) =>
      isDigit h1 && isDigit h2 && Ascii.eqb c ":" && isDigit m1 && isDigit m2
  | _ => false
  end.

(** JavaScript truthiness of a text. *)
Definition truthy (s : string) : bool :=
  match s with EmptyString => false | String _ _ => true end.

End Text.

(** ** Importing tasks from CSV ([App.tsx] lines 281-345) *)

Module Csv.

Section Reader.

(** The identifiers [crypto.randomUUID()] hands out and the readings of
    [Date.now()], in the order they are drawn: one of each for every task
    the import builds. [today] is [getTodayDate()], read once. *)
Variable randomUUID : nat -> string.
Variable dateNow : nat -> Z.
Variable today : string.

(** [const [h, m] = time.split(':')] and the template that pads the hour; a
    missing element prints as [undefined]. *)
Definition formatTime (time : string) : string :=
  let pieces := Text.split ":" time in
  let h := nth 0 pieces "undefined" in
  let m := nth 1 pieces "undefined" in
  padStart 2 "0" h +:+ ":" +:+ m.

(** Lines 311-315. *)
Definition formatDate (dateInput : option string) : string :=
  match dateInput with
  | Some d => if Text.truthy d && Text.matchesDate d then d else today
  | None => today
  end.

(** Lines 317-321, on [parts[3]?.toLowerCase()]. *)
Definition validPriority (priorityInput : option string) : Priority :=
  match priorityInput with
  | Some p =>
      if (p =? "high")%string then high
      else if (p =? "low")%string then low
      else medium
  | None => medium
  end.

(** The body of the loop for line [i], with [k] tasks built so far: the task
    the line adds, if any. *)
Definition row (i k : nat) (rawLine : string) : option Task :=
  let line := Text.trim rawLine in
  if negb (Text.truthy line) then None
  else
    let parts := map Text.trim (Text.split "," line) in
    let title := nth 0 parts "" in
    let time := parts !! 1%nat in
    let dateInput := parts !! 2%nat in
    let priorityInput := Text.toLowerCase <$> parts !! 3%nat in
    match time with
    | Some time =>
        if Text.truthy title && Text.truthy time && Text.matchesTime time
        then Some {| id := randomUUID k; title := title;
                     time := formatTime time;
                     date := formatDate dateInput;
                     priority := validPriority priorityInput;
                     completed := false; notified := None;
                     createdAt := Some (dateNow k + Z.of_nat i) |}
        else None
    | None => None
    end.

(** The loop from line [i] on. *)
Fixpoint rows (i k : nat) (lines : list string) : list Task :=
  match lines with
  | [] => []
  | line :: rest =>
      match row i k line with
      | Some t => t :: rows (S i) (S k) rest
      | None => rows (S i) k rest
      end
  end.

(** The tasks the file adds: the first line is skipped when it contains
    [title] in any case. *)
Definition parse (text : string) : list Task :=
  let lines := Text.split "010" text in
  let startIndex :=
    if Text.includes "title" (Text.toLowerCase (nth 0 lines ""))
    then 1%nat else 0%nat in
  rows startIndex 0 (drop startIndex lines).

(** [reader.onload]: the new collection and the text of the alert box. *)
Definition handleImportCSV (text : string) (prev : list Task)
    : list Task * string :=
  let newTasks := parse text in
  if (0 <? length newTasks)%nat
  then (prev ++ newTasks,
        "Imported " +:+ numberToString (Z.of_nat (length newTasks)) +:+
        " tasks successfully.")
  else (prev,
        "No valid tasks found. Format: Title, Time (HH:mm), [Date (YYYY-MM-DD)], [Priority]").

End Reader.

(** The time of a clock reading as a user would type it in a row: the hour
    with or without its leading zero. *)
Definition clockText (padded : bool) (now : LocalTime) : string :=
  (if padded then padStart 2 "0" (numberToString (getHours now))
   else numberToString (getHours now)) +:+ ":" +:+
  padStart 2 "0" (numberToString (getMinutes now)).

(** What the import guarantees of a task it builds. *)
Record imported (today : string) (t : Task) : Prop := {
  imported_open : completed t = false;
  imported_fresh : notified t = None;
  imported_title : title t <> "";
  imported_time : Text.isPaddedTime (time t) = true;
  imported_date : date t = today \/ Text.matchesDate (date t) = true;
  imported_stamp : createdAt t <> None
}.

(** The template [downloadTemplate] offers (lines 266-270), as the browser
    saves it. *)
Definition template : string :=
  "Title,Time,Date,Priority" +:+ String "010" "" +:+
  "Buy Groceries,14:00,2023-12-25,medium" +:+ String "010" "" +:+
  "Team Meeting,09:30,2023-12-26,high" +:+ String "010" "" +:+
  "Walk Dog,18:00,,low".

End Csv.

(** ** The success sound ([audioService.ts] lines 45-74) *)

Module Success.

(** C5, E5, G5. *)
Definition notes : list Q := [52325 # 100; 65925 # 100; 78399 # 100]%Q.

Section Service.

Variable env : Platform.

(** The callback of [notes.forEach]: an oscillator is created, started and
    told when to stop, its gain rising to [volume * 0.2]; no field of the
    service records it. The pitch is not part of a [Source]. *)
Definition note (volume : Q) (freq : Q) (i : nat) : Js Audio.World unit :=
  Audio.startNode Audio.Oscillator (volume * (2 # 10))%Q ;; mret tt.

Fixpoint forEach {A} (f : A -> nat -> Js Audio.World unit) (i : nat)
    (l : list A) : Js Audio.World unit :=
  match l with
  | [] => mret tt
  | a :: rest => f a i ;; forEach f (S i) rest
  end.

Definition playSuccessSound (volume : Q) : Js Audio.World unit :=
  Audio.getContext env ;;
  forEach (note volume) 0%nat notes.

End Service.

End Success.

(** ** Where the player calls [onEnd] *)

Module Closures.

(** The events whose code reaches a call of [this.onPlaybackEnd]: the two
    public methods that stop (lines 164-167, 172), the ceiling timer (line
    185), and the end of an utterance that was spoken once (line 203). *)
Definition reaches (w : Audio.World) (e : Audio.Event) : bool :=
  match e with
  | Audio.Stop => true
  | Audio.PlayNotification _ _ _ => true
  | Audio.TimerFires h =>
      match Audio.timers (Audio.window w) !! h with
      | Some t =>
          match Audio.action t with Audio.CallStop => true | _ => false end
      | None => false
      end
  | Audio.UtteranceEnds =>
      match Audio.utterances (Audio.window w) with
      | u :: _ =>
          match Audio.onend u with
          | Some Audio.NaturalEnd => true
          | _ => false
          end
      | [] => false
      end
  | _ => false
  end.

(** The closure that is registered, as the list of calls it gets. *)
Definition registered (w : Audio.World) : list nat :=
  match Audio.onPlaybackEnd (Audio.this w) with
  | Some cb => [cb]
  | None => []
  end.

(** An alert that is spoken once: the only one whose utterance ends with a
    call of the closure. *)
Definition spokenOnce (settings : AppSettings) : bool :=
  match soundMode settings with
  | tts => negb (audioLoop settings)
  | _ => false
  end.

Definition startsSpokenOnce (e : Audio.Event) : bool :=
  match e with
  | Audio.PlayNotification settings _ _ => spokenOnce settings
  | _ => false
  end.


(** The closures the trace hands to [playNotification], in order. *)
Definition handed (trace : list Audio.Event) : list nat :=
  flat_map (fun e =>
    match e with
    | Audio.PlayNotification _ _ (Some cb) => [cb]
    | _ => []
    end) trace.

(** No alert that is spoken once is under way. *)
Definition looping (w : Audio.World) : Prop :=
  (forall u, u ∈ Audio.utterances (Audio.window w) ->
     Audio.onend u <> Some Audio.NaturalEnd) /\
  (forall k settings taskTitle,
     Audio.awaiting (Audio.window w) !! k =
       Some (Audio.Resume settings taskTitle) ->
     spokenOnce settings = false).

End Closures.

(** ** The application around the scan and the player ([App.tsx],
    [SettingsModal.tsx])

    The state of the components, and their event handlers as the functions
    they are. A handler sees the state of the latest render, and a render
    follows every event. *)

Module App.

(** The inputs of the header (lines 44-47). *)
Record Form := mkForm {
  newTaskTitle : string;
  newTaskTime : string;
  newTaskDate : string;
  newTaskPriority : Priority
}.

(** The closures given to the player as [onEnd]:
    [() => setIsAlarmRinging(false)] ([App.tsx] lines 146-148) and
    [() => setIsPreviewing(false)] ([SettingsModal.tsx] lines 55-57). *)
Definition alarmEnded : nat := 0%nat.
Definition previewEnded : nat := 1%nat.

Record State := mkState {
  scan : Scanner.Scan;
  settings : AppSettings;
  form : Form;
  taskToDelete : option string;
  isAlarmRinging : bool;
  isPreviewing : bool;
  player : Audio.World
}.

Definition setScan (v : Scanner.Scan) (st : State) : State :=
  {| scan := v; settings := settings st; form := form st;
     taskToDelete := taskToDelete st; isAlarmRinging := isAlarmRinging st;
     isPreviewing := isPreviewing st; player := player st |}.

Definition setSettings (v : AppSettings) (st : State) : State :=
  {| scan := scan st; settings := v; form := form st;
     taskToDelete := taskToDelete st; isAlarmRinging := isAlarmRinging st;
     isPreviewing := isPreviewing st; player := player st |}.

Definition setForm (v : Form) (st : State) : State :=
  {| scan := scan st; settings := settings st; form := v;
     taskToDelete := taskToDelete st; isAlarmRinging := isAlarmRinging st;
     isPreviewing := isPreviewing st; player := player st |}.

Definition setTaskToDelete (v : option string) (st : State) : State :=
  {| scan := scan st; settings := settings st; form := form st;
     taskToDelete := v; isAlarmRinging := isAlarmRinging st;
     isPreviewing := isPreviewing st; player := player st |}.

Definition setIsAlarmRinging (v : bool) (st : State) : State :=
  {| scan := scan st; settings := settings st; form := form st;
     taskToDelete := taskToDelete st; isAlarmRinging := v;
     isPreviewing := isPreviewing st; player := player st |}.

Definition setIsPreviewing (v : bool) (st : State) : State :=
  {| scan := scan st; settings := settings st; form := form st;
     taskToDelete := taskToDelete st; isAlarmRinging := isAlarmRinging st;
     isPreviewing := v; player := player st |}.

Definition setPlayer (v : Audio.World) (st : State) : State :=
  {| scan := scan st; settings := settings st; form := form st;
     taskToDelete := taskToDelete st; isAlarmRinging := isAlarmRinging st;
     isPreviewing := isPreviewing st; player := v |}.

(** The current collection, and [setTasks] with a new array. *)
Definition tasks (st : State) : list Task :=
  Scanner.elems (Scanner.tasks (scan st)).

Definition setTasks (l : list Task) (st : State) : State :=
  setScan {| Scanner.tasks :=
               {| Scanner.ref := Scanner.nextRef (scan st);
                  Scanner.elems := l |};
             Scanner.nextRef := S (Scanner.nextRef (scan st));
             Scanner.history := Scanner.history (scan st);
             Scanner.crashed := Scanner.crashed (scan st) |} st.

(** Lines 16-19. *)
Definition getTodayDate (now : LocalTime) : string :=
  numberToString (getFullYear now) +:+ "-" +:+
  padStart 2 "0" (numberToString (getMonth now + 1)) +:+ "-" +:+
  padStart 2 "0" (numberToString (getDate now)).

(** The first render: the stored tasks and settings, nothing ringing. *)
Definition initial (stored : list Task) (saved : AppSettings)
    (now : LocalTime) : State :=
  {| scan := {| Scanner.tasks := {| Scanner.ref := 0; Scanner.elems := stored |};
                Scanner.nextRef := 1; Scanner.history := [];
                Scanner.crashed := false |};
     settings := saved;
     form := {| newTaskTitle := ""; newTaskTime := "";
                newTaskDate := getTodayDate now;
                newTaskPriority := medium |};
     taskToDelete := None; isAlarmRinging := false; isPreviewing := false;
     player := Audio.initial |}.

(** *** Calling the player *)

(** An [onEnd] closure runs. *)
Definition notify (st : State) (cb : nat) : State :=
  if Nat.eqb cb alarmEnded then setIsAlarmRinging false st
  else if Nat.eqb cb previewEnded then setIsPreviewing false st
  else st.

(** The closures the player has called since it was [before]. *)
Definition deliver (before : Audio.World) (st : State) : State :=
  foldl notify st
    (drop (length (Audio.called (Audio.window before)))
       (Audio.called (Audio.window (player st)))).

(** A method of the player, called from a handler. *)
Definition liftPlayer {A} (m : Js Audio.World A) : Js State A :=
  fun st =>
    let r := m (player st) in
    (r.1, deliver (player st) (setPlayer r.2 st)).

(** Something happens to the player by itself. *)
Definition onPlayer (env : Platform) (e : Audio.Event) (st : State) : State :=
  deliver (player st) (setPlayer (Audio.step env (player st) e) st).

(** An exception that leaves a handler is reported by the browser. *)
Definition handle (m : Js State unit) (st : State) : State :=
  match m st with
  | (Returned _, st') => st'
  | (Thrown e, st') =>
      setPlayer
        (Audio.onWindow
           (Audio.setUnhandled
              (Audio.unhandled (Audio.window (player st')) ++ [e]))
           (player st')) st'
  end.

(** [Array.prototype.map] with a callback that may throw. *)
Fixpoint arrayMap {A B} (f : A -> Js State B) (l : list A)
    : Js State (list B) :=
  match l with
  | [] => mret []
  | a :: rest =>
      b ← f a ;
      rest' ← arrayMap f rest ;
      mret (b :: rest')
  end.

Section Handlers.

Variable env : Platform.

(** *** The tick (lines 131-168), with what its effects do *)

Definition interpret (st : State) (entry : nat * Scanner.Effect) : State :=
  match entry.2 with
  | Scanner.SetIsAlarmRinging ringing => setIsAlarmRinging ringing st
  | Scanner.PlayNotification settings taskTitle =>
      onPlayer env
        (Audio.PlayNotification settings taskTitle (Some alarmEnded)) st
  | Scanner.NewNotification _ => st
  end.

Definition tick (now : LocalTime) (st : State) : State :=
  let scanned := Scanner.tick env (settings st) now (scan st) in
  foldl interpret (setScan scanned st)
    (drop (length (Scanner.history (scan st))) (Scanner.history scanned)).

(** *** Handlers of [App.tsx] *)

(** Lines 178-199. *)
Definition submitNewTask (uuid : string) (now : LocalTime) (stamp : Z)
    (st : State) : State :=
  let f := form st in
  if negb (Text.truthy (Text.trim (newTaskTitle f))) ||
     negb (Text.truthy (newTaskTime f)) ||
     negb (Text.truthy (newTaskDate f))
  then st
  else
    let newTask :=
      {| id := uuid; title := newTaskTitle f; time := newTaskTime f;
         date := newTaskDate f; priority := newTaskPriority f;
         completed := false; notified := None; createdAt := Some stamp |} in
    setForm {| newTaskTitle := ""; newTaskTime := "";
               newTaskDate := getTodayDate now;
               newTaskPriority := medium |}
      (setTasks (tasks st ++ [newTask]) st).

(** Lines 213-216. *)
Definition stopAlarm : Js State unit :=
  liftPlayer (Audio.stop env) ;;
  modify (setIsAlarmRinging false).

(** The callback of [tasks.map] in [toggleTask]. *)
Definition toggle (volume : Q) (id' : string) (t : Task) : Js State Task :=
  if (id t =? id')%string then
    let newCompleted := negb (completed t) in
    (if newCompleted
     then liftPlayer (Success.playSuccessSound env volume)
     else mret tt) ;;
    mret {| id := id t; title := title t; time := time t; date := date t;
            priority := priority t; completed := newCompleted;
            notified := notified t; createdAt := createdAt t |}
  else mret t.

(** Lines 218-232. *)
Definition toggleTask (id' : string) : Js State unit :=
  ringing ← gets isAlarmRinging ;
  (if ringing : bool then stopAlarm else mret tt) ;;
  current ← gets tasks ;
  volume ← gets (fun st => volume (settings st)) ;
  updated ← arrayMap (toggle volume id') current ;
  modify (setTasks updated).

(** Lines 234-239. *)
Definition initiateDeleteTask (id' : string) : Js State unit :=
  ringing ← gets isAlarmRinging ;
  (if ringing : bool then stopAlarm else mret tt) ;;
  modify (setTaskToDelete (Some id')).

(** Lines 241-246. *)
Definition confirmDeleteTask (st : State) : State :=
  match taskToDelete st with
  | Some (String c rest) =>
      setTaskToDelete None
        (setTasks
           (filter (fun t => id t <> String c rest) (tasks st)) st)
  | _ => st
  end.

(** Lines 248-252. *)
Definition handleReorder (newOrder : list Task) (st : State) : State :=
  let completedTasks := filter (fun t => completed t = true) (tasks st) in
  setTasks (newOrder ++ completedTasks) st.

(** Lines 335-337: [setTasks(prev => [...prev, ...newTasks])] when the file
    gave any task. *)
Definition importCSV (randomUUID : nat -> string) (dateNow : nat -> Z)
    (now : LocalTime) (text : string) (st : State) : State :=
  let newTasks := Csv.parse randomUUID dateNow (getTodayDate now) text in
  if (0 <? length newTasks)%nat
  then setTasks (tasks st ++ newTasks) st
  else st.

(** *** Handlers of [SettingsModal.tsx] *)

(** Lines 49-59. *)
Definition togglePreview : Js State unit :=
  previewing ← gets isPreviewing ;
  if previewing : bool then
    liftPlayer (Audio.stop env) ;;
    modify (setIsPreviewing false)
  else
    modify (setIsPreviewing true) ;;
    current ← gets settings ;
    liftPlayer
      (Audio.playNotification env current "Test Notification"
         (Some previewEnded)).

(** Lines 41-47, up to [onClose()]. *)
Definition handleClose : Js State unit :=
  previewing ← gets isPreviewing ;
  if previewing : bool then
    liftPlayer (Audio.stop env) ;;
    modify (setIsPreviewing false)
  else mret tt.

(** Lines 89-127, the file read at once: a file above 3 MB is turned away;
    otherwise the decoded sound is dropped and the payload saved. *)
Definition handleFileChange (size : Z) (base64String name : string)
    : Js State unit :=
  if 3 * 1024 * 1024 <? size then mret tt
  else
    liftPlayer (Audio.clearCustomCache) ;;
    modify (fun st =>
      setSettings
        {| theme := theme (settings st);
           autoComplete := autoComplete (settings st);
           soundMode := soundMode (settings st);
           customSoundData := Some base64String;
           customSoundName := Some name;
           volume := volume (settings st);
           audioDuration := audioDuration (settings st);
           audioLoop := audioLoop (settings st);
           voiceURI := voiceURI (settings st) |} st).

(** *** What can happen to the application *)

Inductive Event :=
| Tick (now : LocalTime)
| EditForm (f : Form)
| SubmitNewTask (uuid : string) (now : LocalTime) (stamp : Z)
| StopAlarm
| ToggleTask (id' : string)
| InitiateDeleteTask (id' : string)
| CancelDelete
| ConfirmDeleteTask
| HandleReorder (newOrder : list Task)
| ImportCSV (randomUUID : nat -> string) (dateNow : nat -> Z)
    (now : LocalTime) (text : string)
| SaveSettings (newSettings : AppSettings)
| TogglePreview
| HandleClose
| HandleFileChange (size : Z) (base64String name : string)
| Browser (e : Audio.Event).

Definition step (st : State) (e : Event) : State :=
  match e with
  | Tick now => tick now st
  | EditForm f => setForm f st
  | SubmitNewTask uuid now stamp => submitNewTask uuid now stamp st
  | StopAlarm => handle stopAlarm st
  | ToggleTask id' => handle (toggleTask id') st
  | InitiateDeleteTask id' => handle (initiateDeleteTask id') st
  | CancelDelete => setTaskToDelete None st
  | ConfirmDeleteTask => confirmDeleteTask st
  | HandleReorder newOrder => handleReorder newOrder st
  | ImportCSV randomUUID dateNow now text =>
      importCSV randomUUID dateNow now text st
  | SaveSettings newSettings => setSettings newSettings st
  | TogglePreview => handle togglePreview st
  | HandleClose => handle handleClose st
  | HandleFileChange size base64String name =>
      handle (handleFileChange size base64String name) st
  | Browser e => onPlayer env e st
  end.

Definition run (st : State) (trace : list Event) : State :=
  foldl step st trace.

End Handlers.

(** *** Observations *)

(** The log of one run of the updater, written out: what the callback does
    for each due task, up to the first one at which it throws. *)
Fixpoint dueLog (permission : option Permission) (settings : AppSettings)
    (now : LocalTime) (index : nat) (l : list Task)
    : list (nat * Scanner.Effect) :=
  match l with
  | [] => []
  | t :: rest =>
      if Scanner.isDue now t then
        Scanner.announced settings index t ++
        match permission with
        | Some p =>
            (if Scanner.isGranted p
             then [(index,
                    Scanner.NewNotification ("Task Due: " +:+ title t))]
             else []) ++
            dueLog permission settings now (S index) rest
        | None => []
        end
      else dueLog permission settings now (S index) rest
  end.

(** The tasks whose alert one run of the updater starts: the due ones, or
    only the first of them where reading [Notification.permission] throws. *)
Definition reached (permission : option Permission) (now : LocalTime)
    (l : list Task) : list Task :=
  match permission with
  | Some _ => filter (fun t => Scanner.isDue now t = true) l
  | None => take 1 (filter (fun t => Scanner.isDue now t = true) l)
  end.

(** The tasks whose alert a tick starts, in the order of the calls: where
    the updater throws, the first due one once for each run. *)
Definition started (permission : option Permission) (now : LocalTime)
    (l : list Task) : list Task :=
  match permission with
  | Some _ => reached permission now l
  | None => concat (replicate Scanner.attempts (reached permission now l))
  end.

(** Lines 145-148 for one due task. *)
Definition ring (env : Platform) (settings : AppSettings) (st : State)
    (t : Task) : State :=
  onPlayer env
    (Audio.PlayNotification settings (title t) (Some alarmEnded))
    (setIsAlarmRinging true st).

(** A flag that is up has its closure registered with the player. *)
Definition backed (st : State) : Prop :=
  (isAlarmRinging st = true ->
   Audio.onPlaybackEnd (Audio.this (player st)) = Some alarmEnded) /\
  (isPreviewing st = true ->
   Audio.onPlaybackEnd (Audio.this (player st)) = Some previewEnded).

(** What [toggleTask] makes of a task. *)
Definition flipped (id' : string) (t : Task) : Task :=
  if (id t =? id')%string
  then {| id := id t; title := title t; time := time t; date := date t;
          priority := priority t; completed := negb (completed t);
          notified := notified t; createdAt := createdAt t |}
  else t.

(** The state after [if (isAlarmRinging) stopAlarm()]. *)
Definition quieted (env : Platform) (st : State) : State :=
  if isAlarmRinging st
  then setIsAlarmRinging false (onPlayer env Audio.Stop st)
  else st.

(** An audio context is there or can be made. *)
Definition audible (env : Platform) (w : Audio.World) : Prop :=
  is_Some (Audio.audioContext (Audio.this w)) \/ is_Some (AudioContext env).

(** The events that leave every task at its place in the collection. *)
Definition inPlace (e : Event) : bool :=
  match e with
  | SubmitNewTask _ _ _ | ConfirmDeleteTask | HandleReorder _
  | ImportCSV _ _ _ _ => false
  | _ => true
  end.

(** A computation of a handler under which a property of the state
    persists, also when it throws. *)
Definition preserves {A} (P : State -> Prop) (m : Js State A) : Prop :=
  forall st, P st -> P (m st).2.

End App.

(** ** Sorting by creation ([App.tsx] lines 362-364)

    [Array.prototype.sort] is stable, and with a comparator that is a
    difference of numbers its result is the one stable arrangement in which
    no element comes before one the comparator puts first. *)

Module Sorting.

(** [t.createdAt || 0] *)
Definition createdOrZero (t : Task) : Z :=
  match createdAt t with Some stamp => stamp | None => 0 end.

(** [(a, b) => (b.createdAt || 0) - (a.createdAt || 0)] *)
Definition byCreation (a b : Task) : Z := createdOrZero b - createdOrZero a.

Section Sort.

Variable compareFn : Task -> Task -> Z.

(** [x], which stood before every element of the sorted [l], goes behind
    the elements the comparator puts strictly first. *)
Fixpoint place (x : Task) (l : list Task) : list Task :=
  match l with
  | [] => [x]
  | y :: rest =>
      if 0 <? compareFn x y then y :: place x rest else x :: y :: rest
  end.

Definition sort (l : list Task) : list Task := foldr place [] l.

End Sort.

(** The case ['creation'] of [getSortedTasks]: newest first. *)
Definition sortedByCreation (taskList : list Task) : list Task :=
  sort byCreation taskList.

(** No task is followed, anywhere further down, by a newer one. *)
Fixpoint newestFirst (l : list Task) : Prop :=
  match l with
  | [] => True
  | a :: rest =>
      Forall (fun b => createdOrZero b <= createdOrZero a) rest /\
      newestFirst rest
  end.

End Sorting.

(** Concrete data for the application: platforms that lack something, a
    second task due with the standup, a task that has rung, a player that
    has sounded before. *)
Module Cases.

Definition noSpeech : Platform :=
  {| Notification := Some granted; speechSynthesis := false;
     AudioContext := Some running; getVoices := [] |}.

Definition noNotification : Platform :=
  {| Notification := None; speechSynthesis := true;
     AudioContext := Some running; getVoices := [] |}.

Definition noAudio : Platform :=
  {| Notification := Some granted; speechSynthesis := true;
     AudioContext := None; getVoices := [] |}.

Definition review : Task :=
  {| id := "b7e0"; title := "Review"; time := "09:00"; date := "2024-03-05";
     priority := low; completed := false; notified := None;
     createdAt := Some 1709600000500 |}.

Definition rung : Task :=
  {| id := "d115"; title := "Wake up"; time := "09:00"; date := "2024-03-05";
     priority := high; completed := true; notified := Some true;
     createdAt := Some 1709500000000 |}.

Definition otherSound : AppSettings :=
  {| theme := light; autoComplete := false; soundMode := custom;
     customSoundData := Some "data:audio/mpeg;base64,//uQxAAAAAAA";
     customSoundName := Some "chime.mp3";
     volume := 8 # 10; audioDuration := 30; audioLoop := true;
     voiceURI := None |}.

(** The player after a bell that was stopped: the audio context is there. *)
Definition warmed : Audio.World :=
  Audio.run Scenario.desktop Audio.initial
    [Audio.PlayNotification DEFAULT_SETTINGS "Standup" None; Audio.Stop].

Definition typed : App.Form :=
  {| App.newTaskTitle := " Call the bank"; App.newTaskTime := "09:00";
     App.newTaskDate := "2024-03-05"; App.newTaskPriority := high |}.

End Cases.

(** * Formatting and parsing the clock *)

Section Formatting.

Lemma digitValue_digitChar d :
  0 <= d <= 9 -> digitValue (digitChar d) = Some d.
Proof.
  intros H.
  assert (d = 0 \/ d = 1 \/ d = 2 \/ d = 3 \/ d = 4 \/ d = 5 \/ d = 6 \/
          d = 7 \/ d = 8 \/ d = 9) as Hd by lia.
  repeat destruct Hd as [-> | Hd]; try subst d; reflexivity.
Qed.

Lemma numberToString_1 n :
  0 <= n <= 9 -> numberToString n = String (digitChar n) "".
Proof.
  intros H. unfold numberToString.
  destruct (Z.ltb_spec n 0); [lia|]. cbn [digits].
  replace (n / 10) with 0 by (Z.to_euclidean_division_equations; lia).
  replace (n mod 10) with n by (Z.to_euclidean_division_equations; lia).
  reflexivity.
Qed.

Lemma numberToString_2 n :
  10 <= n <= 99 ->
  numberToString n =
    String (digitChar (n / 10)) (String (digitChar (n mod 10)) "").
Proof.
  intros H. unfold numberToString.
  destruct (Z.ltb_spec n 0); [lia|].
  assert (3 <= Z.log2 n) as Hl.
  { change 3 with (Z.log2 10). apply Z.log2_le_mono. lia. }
  destruct (Z.to_nat (Z.log2 n)) as [|f] eqn:E; [lia|]. cbn [digits].
  destruct (Z.eqb_spec (n / 10) 0) as [E0|_];
    [Z.to_euclidean_division_equations; lia|].
  replace (n / 10 / 10) with 0 by (Z.to_euclidean_division_equations; lia).
  replace ((n / 10) mod 10) with (n / 10)
    by (Z.to_euclidean_division_equations; lia).
  reflexivity.
Qed.

Lemma numberToString_4 n :
  1000 <= n <= 9999 ->
  numberToString n =
    String (digitChar (n / 1000))
      (String (digitChar (n / 100 mod 10))
         (String (digitChar (n / 10 mod 10))
            (String (digitChar (n mod 10)) ""))).
Proof.
  intros H. unfold numberToString.
  destruct (Z.ltb_spec n 0); [lia|].
  assert (9 <= Z.log2 n) as Hl.
  { change 9 with (Z.log2 1000). apply Z.log2_le_mono. lia. }
  destruct (Z.to_nat (Z.log2 n)) as [|[|[|f]]] eqn:E; try lia. cbn [digits].
  destruct (Z.eqb_spec (n / 10) 0) as [E0|_];
    [Z.to_euclidean_division_equations; lia|].
  destruct (Z.eqb_spec (n / 10 / 10) 0) as [E0|_];
    [Z.to_euclidean_division_equations; lia|].
  destruct (Z.eqb_spec (n / 10 / 10 / 10) 0) as [E0|_];
    [Z.to_euclidean_division_equations; lia|].
  replace (n / 10 / 10 / 10 / 10) with 0
    by (Z.to_euclidean_division_equations; lia).
  replace ((n / 10 / 10 / 10) mod 10) with (n / 1000)
    by (Z.to_euclidean_division_equations; lia).
  replace (n / 10 / 10) with (n / 100)
    by (Z.to_euclidean_division_equations; lia).
  reflexivity.
Qed.

(** Two-digit padding of a number below one hundred. *)
Lemma padStart_2 n :
  0 <= n <= 99 ->
  padStart 2 "0" (numberToString n) =
    String (digitChar (n / 10)) (String (digitChar (n mod 10)) "").
Proof.
  intros H. destruct (Z.le_gt_cases n 9).
  - rewrite numberToString_1 by lia.
    replace (n / 10) with 0 by (Z.to_euclidean_division_equations; lia).
    replace (n mod 10) with n by (Z.to_euclidean_division_equations; lia).
    reflexivity.
  - rewrite numberToString_2 by lia. reflexivity.
Qed.

Lemma twoDigits_digitChar n :
  0 <= n <= 99 ->
  twoDigits (digitChar (n / 10)) (digitChar (n mod 10)) = Some n.
Proof.
  intros H. unfold twoDigits.
  rewrite !digitValue_digitChar by (Z.to_euclidean_division_equations; lia).
  f_equal. Z.to_euclidean_division_equations; lia.
Qed.

Lemma fourDigits_digitChar n :
  1000 <= n <= 9999 ->
  fourDigits (digitChar (n / 1000)) (digitChar (n / 100 mod 10))
    (digitChar (n / 10 mod 10)) (digitChar (n mod 10)) = Some n.
Proof.
  intros H. unfold fourDigits, twoDigits.
  rewrite !digitValue_digitChar by (Z.to_euclidean_division_equations; lia).
  f_equal. Z.to_euclidean_division_equations; lia.
Qed.

(** The clock texts parse back to the clock reading. *)
Lemma parseTime_currentTime now :
  validClock now ->
  parseTime (currentTime now) = Some (getHours now, getMinutes now).
Proof.
  intros (_ & _ & _ & Hh & Hm). unfold currentTime.
  rewrite !padStart_2 by lia. cbv [String.append parseTime].
  rewrite !twoDigits_digitChar by lia.
  destruct (Z.leb_spec (getHours now) 23); [|lia].
  destruct (Z.leb_spec (getMinutes now) 59); [|lia]. reflexivity.
Qed.

Lemma parseDate_currentDate now :
  validClock now ->
  parseDate (currentDate now) =
    Some (getFullYear now, getMonth now + 1, getDate now).
Proof.
  intros (Hy & Hmo & Hd & _). unfold currentDate.
  rewrite numberToString_4, !padStart_2 by lia.
  cbv [String.append parseDate].
  rewrite fourDigits_digitChar, !twoDigits_digitChar by lia.
  destruct (Z.leb_spec 1 (getMonth now + 1)); [|lia].
  destruct (Z.leb_spec (getMonth now + 1) 12); [|lia].
  destruct (Z.leb_spec 1 (getDate now)); [|lia].
  destruct (Z.leb_spec (getDate now) 31); [|lia]. reflexivity.
Qed.

End Formatting.

(** * Properties of the scan tick *)

Section ScanFacts.

Import Scanner.

Variable env : Platform.
Variable settings : AppSettings.
Variable now : LocalTime.

Ltac js := unfold mbind, mret, js_bind, js_ret, modify, gets, throw; simpl.

Local Abbreviation visited := (visited settings now).
Local Abbreviation announced := (announced settings).

Lemma visit_skips task index fr :
  isDue now task = false ->
  visit env settings now task index fr = (Returned task, fr).
Proof. intros H. unfold visit. rewrite H. reflexivity. Qed.

Lemma visit_marks task index fr p :
  isDue now task = true -> Notification env = Some p ->
  visit env settings now task index fr =
    (Returned (markNotified settings task),
     {| hasChanges := true;
        performed := performed fr ++ announced index task ++
          (if isGranted p
           then [(index, NewNotification ("Task Due: " +:+ title task))]
           else []) |}).
Proof.
  intros Hd Hp. unfold visit, readPermission, perform, setHasChanges.
  rewrite Hd, Hp. js. destruct (isGranted p); js.
  - by rewrite <- !app_assoc.
  - by rewrite <- !app_assoc.
Qed.

Lemma visit_throws task index fr :
  isDue now task = true -> Notification env = None ->
  visit env settings now task index fr =
    (Thrown (ReferenceError "Notification"),
     {| hasChanges := hasChanges fr;
        performed := performed fr ++ announced index task |}).
Proof.
  intros Hd Hp. unfold visit, readPermission, perform, setHasChanges.
  rewrite Hd, Hp. js. by rewrite <- !app_assoc.
Qed.


Lemma alerts_app i (a b : list (nat * Effect)) :
  alerts i (a ++ b) = (alerts i a + alerts i b)%nat.
Proof. unfold alerts. by rewrite filter_app, length_app. Qed.

Lemma alerts_announced i j task :
  alerts i (announced j task) = if decide (j = i) then 1%nat else 0%nat.
Proof.
  unfold alerts, announced.
  rewrite filter_cons_False by (simpl; congruence).
  destruct (decide (j = i)) as [->|Hne].
  - rewrite filter_cons_True by (simpl; apply Nat.eqb_refl). done.
  - rewrite filter_cons_False; [done|]. simpl.
    rewrite (proj2 (Nat.eqb_neq j i)); congruence.
Qed.

Lemma alerts_granted i j p text :
  alerts i (if isGranted p then [(j, NewNotification text)] else []) = 0%nat.
Proof.
  destruct (isGranted p); [|done]. unfold alerts.
  rewrite filter_cons_False by (simpl; congruence). done.
Qed.

Lemma arrayMap_cons f k task rest (fr : Frame) :
  arrayMap f k (task :: rest) fr =
    match f task k fr with
    | (Returned task', fr1) =>
        match arrayMap f (S k) rest fr1 with
        | (Returned rest', fr2) => (Returned (task' :: rest'), fr2)
        | (Thrown e, fr2) => (Thrown e, fr2)
        end
    | (Thrown e, fr1) => (Thrown e, fr1)
    end.
Proof. reflexivity. Qed.

(** What one pass of [map] over [l], started at index [k], performs and
    returns. *)
Lemma arrayMap_visit l : forall k fr,
  exists done,
    performed (arrayMap (visit env settings now) k l fr).2
      = performed fr ++ done /\
    (forall i, (1 <= alerts i done)%nat ->
       alerts i done = 1%nat /\ (k <= i)%nat /\
       exists t, l !! (i - k)%nat = Some t /\ isDue now t = true) /\
    (forall i, (i < k)%nat -> alerts i done = 0%nat) /\
    match (arrayMap (visit env settings now) k l fr).1 with
    | Returned l' =>
        l' = map visited l /\
        hasChanges (arrayMap (visit env settings now) k l fr).2
          = hasChanges fr || existsb (isDue now) l /\
        (forall j t, l !! j = Some t -> isDue now t = true ->
           alerts (k + j) done = 1%nat)
    | Thrown _ =>
        Notification env = None /\ existsb (isDue now) l = true
    end.
Proof.
  induction l as [|task rest IH]; intros k fr.
  - exists []. simpl. rewrite app_nil_r, orb_false_r.
    split; [done|].
    split; [intros i Hi; unfold alerts in Hi; simpl in Hi; lia|].
    split; [done|]. split; [done|]. split; [done|].
    intros j t Ht. by rewrite lookup_nil in Ht.
  - rewrite !arrayMap_cons.
    destruct (isDue now task) eqn:Hd.
    + destruct (Notification env) as [p|] eqn:Hp.
      * rewrite (visit_marks _ _ _ p Hd Hp).
        match goal with |- context [arrayMap _ _ rest ?f] =>
          destruct (IH (S k) f) as (done & Hperf & Hone & Hlow & Hout);
          destruct (arrayMap (visit env settings now) (S k) rest f)
            as [[l'|e] fr'] end; simpl in *.
        -- exists (announced k task ++
             (if isGranted p
              then [(k, NewNotification ("Task Due: " +:+ title task))]
              else []) ++ done).
           rewrite Hperf, <- !app_assoc.
           split; [done|].
           assert (Hk : forall i, alerts i (announced k task ++
               (if isGranted p
                then [(k, NewNotification ("Task Due: " +:+ title task))]
                else []) ++ done)
               = ((if decide (k = i) then 1 else 0) + alerts i done)%nat).
           { intros i. by rewrite !alerts_app, alerts_announced, alerts_granted. }
           split; [|split; [|split; [|split]]].
           ++ intros i. rewrite Hk. destruct (decide (k = i)) as [->|Hne].
              ** rewrite (Hlow i) by lia. intros _. split; [done|].
                 split; [lia|]. exists task. by rewrite Nat.sub_diag.
              ** simpl. intros H1. destruct (Hone i H1) as (E & Hle & t & Ht & Hdt).
                 split; [done|]. split; [lia|]. exists t. split; [|done].
                 replace (i - k)%nat with (S (i - S k)) by lia. done.
           ++ intros i Hi. rewrite Hk, (Hlow i) by lia.
              destruct (decide (k = i)); [lia|done].
           ++ destruct Hout as (-> & _). simpl. f_equal.
           unfold Scanner.visited. by rewrite Hd.
           ++ destruct Hout as (_ & -> & _). simpl. rewrite Hd.
              by rewrite orb_true_r.
           ++ destruct Hout as (_ & _ & Hall). intros [|j] t Ht Hdt.
              ** rewrite Hk, Nat.add_0_r, (Hlow k) by lia.
                 destruct (decide (k = k)); [done|congruence].
              ** rewrite Hk. destruct (decide (k = (k + S j)%nat)); [lia|].
                 simpl. replace (k + S j)%nat with (S k + j)%nat by lia.
                 by apply (Hall j t).
        -- destruct Hout as (Hno & _). congruence.
      * rewrite (visit_throws _ _ _ Hd Hp). simpl.
        exists (announced k task). split; [done|].
        split; [|split; [|split; [done|simpl; by rewrite Hd]]].
        -- intros i. rewrite alerts_announced.
           destruct (decide (k = i)) as [->|]; [|lia].
           intros _. split; [done|]. split; [lia|].
           exists task. by rewrite Nat.sub_diag.
        -- intros i Hi. rewrite alerts_announced.
           destruct (decide (k = i)); [lia|done].
    + rewrite (visit_skips _ _ _ Hd).
      destruct (IH (S k) fr) as (done & Hperf & Hone & Hlow & Hout).
      destruct (arrayMap (visit env settings now) (S k) rest fr)
        as [[l'|e] fr']; simpl in *.
      * exists done. split; [done|]. split; [|split; [|split; [|split]]].
        -- intros i H1. destruct (Hone i H1) as (E & Hle & t & Ht & Hdt).
           split; [done|]. split; [lia|]. exists t. split; [|done].
           replace (i - k)%nat with (S (i - S k)) by lia. done.
        -- intros i Hi. apply Hlow. lia.
        -- destruct Hout as (-> & _). simpl. f_equal.
           unfold Scanner.visited. by rewrite Hd.
        -- destruct Hout as (_ & -> & _). simpl. by rewrite Hd.
        -- destruct Hout as (_ & _ & Hall). intros [|j] t Ht Hdt.
           ++ simpl in Ht. congruence.
           ++ replace (k + S j)%nat with (S k + j)%nat by lia.
              by apply (Hall j t).
      * exists done. split; [done|].
        split; [|split; [|destruct Hout as [Hn He]; split; [done|];
                          simpl; rewrite He; by rewrite orb_true_r]].
        -- intros i H1. destruct (Hone i H1) as (E & Hle & t & Ht & Hdt).
           split; [done|]. split; [lia|]. exists t. split; [|done].
           replace (i - k)%nat with (S (i - S k)) by lia. done.
        -- intros i Hi. apply Hlow. lia.
Qed.

(** Every effect of a pass carries the index of a due task. *)
Lemma arrayMap_entries l : forall k fr,
  exists done,
    performed (arrayMap (visit env settings now) k l fr).2
      = performed fr ++ done /\
    forall i e, (i, e) ∈ done ->
      (k <= i)%nat /\
      exists t, l !! (i - k)%nat = Some t /\ isDue now t = true.
Proof.
  induction l as [|task rest IH]; intros k fr.
  - exists []. simpl. rewrite app_nil_r. split; [done|].
    intros i e Hin. by apply elem_of_nil in Hin.
  - rewrite arrayMap_cons.
    assert (Hshift : forall done : list (nat * Effect),
      (forall i e, (i, e) ∈ done ->
         (S k <= i)%nat /\
         exists t, rest !! (i - S k)%nat = Some t /\ isDue now t = true) ->
      forall i e, (i, e) ∈ done ->
         (k <= i)%nat /\
         exists t, (task :: rest) !! (i - k)%nat = Some t /\
                   isDue now t = true).
    { intros done H i e Hin. destruct (H i e Hin) as (Hle & t & Ht & Hdt).
      split; [lia|]. exists t. split; [|done].
      replace (i - k)%nat with (S (i - S k)) by lia. done. }
    assert (Hhere : forall (extra : list (nat * Effect)) i e,
      isDue now task = true ->
      (forall e', (i, e') ∈ extra -> i = k) ->
      (i, e) ∈ extra ->
      (k <= i)%nat /\
      exists t, (task :: rest) !! (i - k)%nat = Some t /\
                isDue now t = true).
    { intros extra i e Hd Hx Hin. rewrite (Hx e Hin).
      split; [lia|]. exists task. by rewrite Nat.sub_diag. }
    destruct (isDue now task) eqn:Hd.
    + destruct (Notification env) as [p|] eqn:Hp.
      * rewrite (visit_marks _ _ _ p Hd Hp).
        match goal with |- context [arrayMap _ _ rest ?f] =>
          destruct (IH (S k) f) as (done & Hperf & Hent);
          destruct (arrayMap (visit env settings now) (S k) rest f)
            as [[l'|e] fr'] end; simpl in *.
        all: exists ((announced k task ++
             (if isGranted p
              then [(k, NewNotification ("Task Due: " +:+ title task))]
              else [])) ++ done).
        all: split; [rewrite Hperf; simpl; by rewrite <- !app_assoc|].
        all: intros i e0 Hin; apply elem_of_app in Hin as [Hin|Hin];
          [|by apply (Hshift done Hent i e0)].
        all: apply (Hhere _ i e0 eq_refl) in Hin; [done|].
        all: intros e' He'; apply elem_of_app in He' as [He'|He'].
        all: try (unfold Scanner.announced in He';
                  repeat (apply elem_of_cons in He' as [He'|He']);
                  try (by apply elem_of_nil in He'); congruence).
        all: destruct (isGranted p);
          [apply list_elem_of_singleton in He'; congruence
          |by apply elem_of_nil in He'].
      * rewrite (visit_throws _ _ _ Hd Hp). simpl.
        exists (announced k task). split; [done|].
        intros i e0 Hin. apply (Hhere _ i e0 eq_refl) in Hin; [done|].
        intros e' He'. unfold Scanner.announced in He'.
        repeat (apply elem_of_cons in He' as [He'|He']);
          try (by apply elem_of_nil in He'); congruence.
    + rewrite (visit_skips _ _ _ Hd).
      destruct (IH (S k) fr) as (done & Hperf & Hent).
      destruct (arrayMap (visit env settings now) (S k) rest fr)
        as [[l'|e] fr']; simpl in *.
      all: exists done; split; [done|]; by apply Hshift.
Qed.

Lemma map_visited_none l :
  existsb (isDue now) l = false -> map visited l = l.
Proof.
  induction l as [|t l IH]; [done|]. simpl.
  intros [Ht Hl]%orb_false_iff. rewrite IH by done.
  unfold Scanner.visited. by rewrite Ht.
Qed.

Lemma existsb_isDue_lookup l :
  existsb (isDue now) l = true ->
  exists j t, l !! j = Some t /\ isDue now t = true.
Proof.
  induction l as [|t l IH]; [done|]. simpl.
  intros [Ht|Hl]%orb_true_iff.
  - by exists 0%nat, t.
  - destruct (IH Hl) as (j & t' & Hj & Hd). by exists (S j), t'.
Qed.

Lemma lookup_isDue_existsb l j t :
  l !! j = Some t -> isDue now t = true -> existsb (isDue now) l = true.
Proof.
  intros Hj Hd. apply existsb_exists. exists t. split; [|done].
  apply list_elem_of_In. by apply list_elem_of_lookup_2 with j.
Qed.

(** One call of the updater. *)
Lemma updater_spec fresh arr :
  let r := updater env settings now fresh arr in
  (forall i e, (i, e) ∈ r.2 ->
     exists t, elems arr !! i = Some t /\ isDue now t = true) /\
  (forall i, (alerts i r.2 <= 1)%nat) /\
  match r.1 with
  | Returned arr' =>
      arr' = (if existsb (isDue now) (elems arr)
              then {| ref := fresh; elems := map visited (elems arr) |}
              else arr) /\
      elems arr' = map visited (elems arr) /\
      (forall j t, elems arr !! j = Some t -> isDue now t = true ->
         alerts j r.2 = 1%nat)
  | Thrown _ =>
      Notification env = None /\ existsb (isDue now) (elems arr) = true
  end.
Proof.
  unfold updater.
  destruct (arrayMap_visit (elems arr) 0%nat
              {| hasChanges := false; performed := [] |})
    as (done & Hperf & Hone & _ & Hout).
  destruct (arrayMap_entries (elems arr) 0%nat
              {| hasChanges := false; performed := [] |})
    as (done' & Hperf' & Hent).
  assert (done' = done) as -> by (simpl in *; congruence).
  destruct (arrayMap (visit env settings now) 0%nat (elems arr)
              {| hasChanges := false; performed := [] |})
    as [[l'|e] fr']; simpl in *; subst.
  - split; [|split; [|split; [|split]]].
    + intros i e Hin. destruct (Hent i e Hin) as (_ & t & Ht & Hd).
      exists t. by rewrite Nat.sub_0_r in Ht.
    + intros i.
      destruct (Nat.le_gt_cases 1 (alerts i (performed fr'))) as [H1|H1];
        [destruct (Hone i H1); lia|lia].
    + destruct Hout as (-> & -> & _).
      destruct (existsb (isDue now) (elems arr)); done.
    + destruct Hout as (-> & -> & _).
      destruct (existsb (isDue now) (elems arr)) eqn:E; [done|].
      by rewrite map_visited_none.
    + by destruct Hout as (_ & _ & Hall).
  - split; [|split; [|done]].
    + intros i e0 Hin. destruct (Hent i e0 Hin) as (_ & t & Ht & Hd).
      exists t. by rewrite Nat.sub_0_r in Ht.
    + intros i.
      destruct (Nat.le_gt_cases 1 (alerts i (performed fr'))) as [H1|H1];
        [destruct (Hone i H1); lia|lia].
Qed.

(** With nothing due the updater hands back the array it was given and
    performs nothing. *)
Lemma updater_idle fresh arr :
  existsb (isDue now) (elems arr) = false ->
  updater env settings now fresh arr = (Returned arr, []).
Proof.
  intros Hnone. pose proof (updater_spec fresh arr) as (Hent & _ & Hout).
  simpl in *.
  destruct (updater env settings now fresh arr) as [[arr'|e] done];
    simpl in *.
  - destruct Hout as (-> & _). rewrite Hnone. f_equal.
    destruct done as [|[i e] done]; [done|].
    destruct (Hent i e) as (t & Ht & Hd); [by left|].
    by rewrite (lookup_isDue_existsb _ _ _ Ht Hd) in Hnone.
  - destruct Hout as (_ & Hsome). congruence.
Qed.

(** The updater returns whenever the [Notification] global exists. *)
Lemma updater_returns fresh arr p :
  Notification env = Some p ->
  exists arr', (updater env settings now fresh arr).1 = Returned arr'.
Proof.
  intros Hp. pose proof (updater_spec fresh arr) as (_ & _ & Hout).
  simpl in *.
  destruct (updater env settings now fresh arr) as [[arr'|e] done];
    simpl in *; [by exists arr'|].
  destruct Hout as (Hn & _). congruence.
Qed.

Lemma isDue_unnotified t :
  isDue now t = true ->
  completed t = false /\ notified t <> Some true /\
  date t = currentDate now /\ time t = currentTime now.
Proof.
  unfold isDue. rewrite !andb_true_iff, !negb_true_iff.
  intros [[[Hc Hn] Hd] Ht].
  apply String.eqb_eq in Hd. apply String.eqb_eq in Ht.
  repeat split; try done. intros E. by rewrite E in Hn.
Qed.

Lemma unnotified_isDue t :
  completed t = false -> notified t <> Some true ->
  date t = currentDate now -> time t = currentTime now ->
  isDue now t = true.
Proof.
  intros Hc Hn Hd Ht. unfold isDue.
  rewrite Hc, Hd, Ht, !String.eqb_refl.
  by destruct (notified t) as [[]|].
Qed.

End ScanFacts.

Section Ticks.

Import Scanner.

Variable env : Platform.

Lemma alerts_pos i (l : list (nat * Effect)) :
  (1 <= alerts i l)%nat -> exists e, (i, e) ∈ l.
Proof.
  unfold alerts. intros H.
  destruct (filter (fun e => isAlertOf i e = true) l) as [|[j e] rest] eqn:E;
    [simpl in H; lia|].
  assert ((j, e) ∈ filter (fun e => isAlertOf i e = true) l) as Hin
    by (rewrite E; by left).
  apply list_elem_of_filter in Hin as [Hp Hin].
  destruct e; simpl in Hp; try done.
  apply Nat.eqb_eq in Hp as ->. eauto.
Qed.

Lemma isDue_not_notified now t :
  notified t = Some true -> isDue now t = false.
Proof.
  intros H. unfold isDue. rewrite H. simpl.
  by rewrite andb_false_r.
Qed.

(** One tick, seen from position [i]. *)
Lemma tick_at settings now st i :
  crashed st = false ->
  let st' := tick env settings now st in
  match elems (tasks st) !! i with
  | Some t =>
      if isDue now t then
        (crashed st' = false /\
         alerts i (history st') = S (alerts i (history st)) /\
         elems (tasks st') !! i = Some (markNotified settings t)) \/
        (crashed st' = true /\ Notification env = None /\
         (alerts i (history st') <= alerts i (history st) + attempts)%nat)
      else
        alerts i (history st') = alerts i (history st) /\
        elems (tasks st') !! i = Some t
  | None =>
      alerts i (history st') = alerts i (history st) /\
      elems (tasks st') !! i = None
  end.
Proof.
  intros Hc. simpl. unfold tick. rewrite Hc.
  pose proof (updater_spec env settings now (nextRef st) (tasks st))
    as (Hent & Hone & Hout). simpl in *.
  destruct (updater env settings now (nextRef st) (tasks st))
    as [[arr'|e] done]; simpl in *.
  - destruct Hout as (_ & Helems & Hall). rewrite Helems, list_lookup_fmap.
    destruct (elems (tasks st) !! i) as [t|] eqn:Ht; simpl.
    + unfold visited. destruct (isDue now t) eqn:Hd.
      * left. rewrite alerts_app, (Hall i t Ht Hd).
        split; [done|]. split; [lia|done].
      * rewrite alerts_app. split; [|done].
        destruct (Nat.le_gt_cases 1 (alerts i done)) as [H1|H1]; [|lia].
        destruct (alerts_pos i done H1) as (e & He).
        destruct (Hent i e He) as (t' & Ht' & Hd'). congruence.
    + rewrite alerts_app. split; [|done].
      destruct (Nat.le_gt_cases 1 (alerts i done)) as [H1|H1]; [|lia].
      destruct (alerts_pos i done H1) as (e & He).
      destruct (Hent i e He) as (t' & Ht' & Hd'). congruence.
  - destruct Hout as (Hnone & _). unfold attempts. simpl.
    rewrite ?alerts_app. change (alerts i []) with 0%nat.
    destruct (elems (tasks st) !! i) as [t|] eqn:Ht; simpl.
    + destruct (isDue now t) eqn:Hd.
      * right. split; [done|]. split; [done|].
        specialize (Hone i). lia.
      * split; [|done].
        destruct (Nat.le_gt_cases 1 (alerts i done)) as [H1|H1]; [|lia].
        destruct (alerts_pos i done H1) as (e0 & He).
        destruct (Hent i e0 He) as (t' & Ht' & Hd'). congruence.
    + split; [|done].
      destruct (Nat.le_gt_cases 1 (alerts i done)) as [H1|H1]; [|lia].
      destruct (alerts_pos i done H1) as (e0 & He).
      destruct (Hent i e0 He) as (t' & Ht' & Hd'). congruence.
Qed.

Lemma tick_crashed settings now st :
  crashed st = true -> tick env settings now st = st.
Proof. intros H. unfold tick. by rewrite H. Qed.

Lemma ticks_crashed schedule st :
  crashed st = true -> ticks env schedule st = st.
Proof.
  revert st. induction schedule as [|[s n] schedule IH]; intros st H; [done|].
  unfold ticks in *. simpl. rewrite tick_crashed by done. by apply IH.
Qed.

(** A dormant position stays dormant, keeps its task and starts no
    alert. *)
Lemma tick_dormant settings now st i :
  dormant i st ->
  dormant i (tick env settings now st) /\
  alerts i (history (tick env settings now st)) = alerts i (history st) /\
  elems (tasks (tick env settings now st)) !! i = elems (tasks st) !! i.
Proof.
  intros Hd. destruct (crashed st) eqn:Hc.
  - rewrite tick_crashed by done. done.
  - destruct Hd as [Hd|Hd]; [congruence|].
    pose proof (tick_at settings now st i Hc) as H. simpl in H.
    destruct (elems (tasks st) !! i) as [t|] eqn:Ht.
    + rewrite (isDue_not_notified now t (Hd t eq_refl)) in H.
      destruct H as [Ha He]. split; [|done].
      right. intros t' Ht'. rewrite He in Ht'.
      injection Ht' as <-. by apply Hd.
    + destruct H as [Ha He]. split; [|by rewrite He].
      right. intros t' Ht'. congruence.
Qed.

Lemma ticks_dormant schedule st i :
  dormant i st ->
  alerts i (history (ticks env schedule st)) = alerts i (history st) /\
  elems (tasks (ticks env schedule st)) !! i = elems (tasks st) !! i.
Proof.
  revert st. induction schedule as [|[s n] schedule IH]; intros st Hd; [done|].
  destruct (tick_dormant s n st i Hd) as (Hd' & Ha & He).
  destruct (IH _ Hd') as [Ha' He']. unfold ticks in *. simpl in *.
  split; congruence.
Qed.

Lemma ticks_at_most_once schedule st i :
  is_Some (Notification env) ->
  (alerts i (history (ticks env schedule st))
     <= S (alerts i (history st)))%nat.
Proof.
  intros [p Hp]. revert st. induction schedule as [|[s n] schedule IH]; intros st;
    [simpl; lia|].
  change (ticks env ((s, n) :: schedule) st)
    with (ticks env schedule (tick env s n st)).
  destruct (crashed st) eqn:Hc.
  { rewrite tick_crashed, ticks_crashed by done. lia. }
  pose proof (tick_at s n st i Hc) as H. simpl in H.
  destruct (elems (tasks st) !! i) as [t|] eqn:Ht.
  - destruct (isDue n t) eqn:Hd.
    + destruct H as [(Hc' & Ha & He)|(Hc' & Hnone & Ha)]; [|congruence].
      destruct (ticks_dormant schedule (tick env s n st) i) as [Ha' _].
      { right. intros t' Ht'. rewrite He in Ht'. by injection Ht' as <-. }
      lia.
    + destruct H as [Ha _]. specialize (IH (tick env s n st)). lia.
  - destruct H as [Ha _]. specialize (IH (tick env s n st)). lia.
Qed.

End Ticks.

(** * The scanner against the specification *)

Section ScannerClaims.

Import Scanner.

(** Scenario A of the specification, run: the tick at 09:00 notifies the
    task and builds a new array; a second tick in the same minute and the
    tick at 09:01 start nothing and hand back the same array. *)
Example scenario_A :
  let st := ticks Scenario.desktop
              [(DEFAULT_SETTINGS, Scenario.at0900);
               (DEFAULT_SETTINGS, Scenario.at0900');
               (DEFAULT_SETTINGS, Scenario.at0901)] Scenario.morning in
  alerts 0 (history st) = 1%nat /\
  notified <$> elems (tasks st) !! 0%nat = Some (Some true) /\
  completed <$> elems (tasks st) !! 0%nat = Some false /\
  ref (tasks st) = 1%nat /\
  elems (tasks st) !! 1%nat = Some Scenario.lunch.
Proof. vm_compute. done. Qed.

(** Scenario B: with [autoComplete] the same match also completes the
    task. *)
Example scenario_B :
  let st := tick Scenario.desktop Scenario.autoCompleting Scenario.at0900
              Scenario.morning in
  notified <$> elems (tasks st) !! 0%nat = Some (Some true) /\
  completed <$> elems (tasks st) !! 0%nat = Some true.
Proof. vm_compute. done. Qed.

(** Where the [Notification] global exists, the alert of a task is started
    at most once across any number of ticks. A tick starts it, and sets
    [notified], only for a task that is neither completed nor notified, and
    a tick that completes leaves that task notified; a task that carries
    [notified = true] is never matched by any later tick, whatever the
    clock shows, and stays as it is. *)
Lemma alert_once_where_Notification_exists env schedule st i :
  is_Some (Notification env) ->
  (alerts i (history (ticks env schedule st))
     <= S (alerts i (history st)))%nat /\
  (forall settings now,
     alerts i (history (tick env settings now st))
       <> alerts i (history st) ->
     exists t, elems (tasks st) !! i = Some t /\
       completed t = false /\ notified t <> Some true /\
       exists t', elems (tasks (tick env settings now st)) !! i = Some t' /\
         notified t' = Some true) /\
  (forall settings now t t',
     elems (tasks st) !! i = Some t ->
     elems (tasks (tick env settings now st)) !! i = Some t' ->
     notified t <> Some true -> notified t' = Some true ->
     completed t = false /\
     alerts i (history (tick env settings now st))
       = S (alerts i (history st))) /\
  (forall t, elems (tasks st) !! i = Some t -> notified t = Some true ->
     alerts i (history (ticks env schedule st)) = alerts i (history st) /\
     elems (tasks (ticks env schedule st)) !! i = Some t).
Proof.
  intros Hsome.
  split; [by apply ticks_at_most_once|]. split; [|split].
  - intros settings now Hne.
    destruct (crashed st) eqn:Hc; [by rewrite tick_crashed in Hne|].
    pose proof (tick_at env settings now st i Hc) as H. simpl in H.
    destruct (elems (tasks st) !! i) as [t|] eqn:Ht;
      [|by destruct H as [Ha _]].
    destruct (isDue now t) eqn:Hd; [|by destruct H as [Ha _]].
    exists t. destruct (isDue_unnotified now t Hd) as (Hct & Hnt & _).
    repeat split; try done.
    destruct H as [(_ & _ & He)|(_ & Hnone & _)].
    + by exists (markNotified settings t).
    + destruct Hsome as [p Hp]. congruence.
  - intros settings now t t' Ht Ht' Hn Hn'.
    destruct (crashed st) eqn:Hc.
    { rewrite tick_crashed in Ht' by done. congruence. }
    pose proof (tick_at env settings now st i Hc) as H. simpl in H.
    rewrite Ht in H. destruct (isDue now t) eqn:Hd.
    + destruct (isDue_unnotified now t Hd) as (Hct & _).
      split; [done|].
      destruct H as [(_ & Ha & _)|(_ & Hnone & _)]; [done|].
      destruct Hsome as [p Hp]. congruence.
    + destruct H as [_ He]. congruence.
  - intros t Ht Hn.
    destruct (ticks_dormant env schedule st i) as [Ha He].
    { right. intros t' Ht'. congruence. }
    split; [done|congruence].
Qed.

(** C1, at the failing input. On a platform without the [Notification]
    global (which the mount effect at line 172 tests for and the tick at
    line 150 does not) the tick at 09:00 starts the alert of the standup
    and throws at the read of [Notification.permission]; React runs the
    updater again, and again: the alert of the one task is started three
    times in the one tick, and the task is left without the notified mark.
    On a platform that has the global the same tick starts it once and
    marks the task. *)
Theorem alert_fires_thrice_without_Notification :
  let st := tick Cases.noNotification DEFAULT_SETTINGS Scenario.at0900
              Scenario.morning in
  let st1 := tick Scenario.desktop DEFAULT_SETTINGS Scenario.at0900
               Scenario.morning in
  alerts 0 (history st) = 3%nat /\
  crashed st = true /\
  elems (tasks st) !! 0%nat = Some Scenario.standup /\
  notified Scenario.standup = Some false /\
  alerts 0 (history st1) = 1%nat /\
  notified <$> elems (tasks st1) !! 0%nat = Some (Some true).
Proof. vm_compute. done. Qed.

Lemma currentTime_minuteOfDay now due :
  validClock now -> validClock due ->
  currentTime now = currentTime due ->
  getHours now = getHours due /\ getMinutes now = getMinutes due.
Proof.
  intros Hn Hd E. apply (f_equal parseTime) in E.
  rewrite !parseTime_currentTime in E by done. by injection E.
Qed.

Lemma currentDate_inj now due :
  validClock now -> validClock due ->
  currentDate now = currentDate due ->
  getFullYear now = getFullYear due /\ getMonth now = getMonth due /\
  getDate now = getDate due.
Proof.
  intros Hn Hd E. apply (f_equal parseDate) in E.
  rewrite !parseDate_currentDate in E by done.
  injection E as Hy Hm Hday. repeat split; [done|lia|done].
Qed.

(** C3. A task is matched exactly when it is neither completed nor
    notified and its date and time are the texts of the current date and
    minute; a tick does something for a task only then. For a task set
    for the date and minute of a clock reading [due], a tick that matches
    it shows the same year, month, day, hour and minute, and no tick whose
    minute of the day is one later or one earlier matches it. *)
Theorem due_only_at_exact_minute env settings now fresh arr i :
  validClock now ->
  (forall t, isDue now t = true <->
     completed t = false /\ notified t <> Some true /\
     date t = currentDate now /\ time t = currentTime now) /\
  (forall e, (i, e) ∈ (updater env settings now fresh arr).2 ->
     exists t, elems arr !! i = Some t /\
       date t = currentDate now /\ time t = currentTime now) /\
  (forall t due,
     validClock due ->
     date t = currentDate due -> time t = currentTime due ->
     (isDue now t = true ->
      getFullYear now = getFullYear due /\ getMonth now = getMonth due /\
      getDate now = getDate due /\ getHours now = getHours due /\
      getMinutes now = getMinutes due) /\
     ((minuteOfDay now - minuteOfDay due) mod 1440 = 1 \/
      (minuteOfDay due - minuteOfDay now) mod 1440 = 1 ->
      isDue now t = false /\
      (elems arr !! i = Some t ->
       forall e, (i, e) ∉ (updater env settings now fresh arr).2))).
Proof.
  intros Hv. split; [|split].
  - intros t. split; [apply isDue_unnotified|].
    intros (Hc & Hn & Hd & Ht). by apply unnotified_isDue.
  - intros e He.
    destruct (updater_spec env settings now fresh arr) as (Hent & _).
    destruct (Hent i e He) as (t & Ht & Hd). exists t.
    destruct (isDue_unnotified now t Hd) as (_ & _ & Hdate & Htime). done.
  - intros t due Hvd Hdate Htime.
    assert (isDue now t = true ->
            currentDate now = currentDate due /\
            currentTime now = currentTime due) as Hsame.
    { intros Hd.
      destruct (isDue_unnotified now t Hd) as (_ & _ & Hdate' & Htime').
      split; congruence. }
    split.
    + intros Hd. destruct (Hsame Hd) as [Ed Et].
      destruct (currentDate_inj now due Hv Hvd Ed) as (? & ? & ?).
      destruct (currentTime_minuteOfDay now due Hv Hvd Et) as (? & ?). done.
    + intros Hoff.
      assert (isDue now t = false) as Hnot.
      { destruct (isDue now t) eqn:Hd; [|done].
        destruct (Hsame eq_refl) as [_ Et].
        destruct (currentTime_minuteOfDay now due Hv Hvd Et) as (Eh & Em).
        unfold minuteOfDay in Hoff. rewrite Eh, Em in Hoff.
        rewrite Z.sub_diag in Hoff. by destruct Hoff. }
      split; [done|]. intros Ht e He.
      destruct (updater_spec env settings now fresh arr) as (Hent & _).
      destruct (Hent i e He) as (t' & Ht' & Hd). congruence.
Qed.

Lemma due_only_at_exact_minute_witness :
  isDue Scenario.at0900 Scenario.standup = true /\
  isDue Scenario.at0859 Scenario.standup = false /\
  isDue Scenario.at0901 Scenario.standup = false.
Proof.
  assert (validClock Scenario.at0900) as V0 by (vm_compute; intuition discriminate).
  assert (validClock Scenario.at0859) as V1 by (vm_compute; intuition discriminate).
  assert (validClock Scenario.at0901) as V2 by (vm_compute; intuition discriminate).
  split; [|split].
  - apply (due_only_at_exact_minute Scenario.desktop DEFAULT_SETTINGS
             Scenario.at0900 1%nat (tasks Scenario.morning) 0%nat V0).
    repeat split; try reflexivity. discriminate.
  - apply (due_only_at_exact_minute Scenario.desktop DEFAULT_SETTINGS
             Scenario.at0859 1%nat (tasks Scenario.morning) 0%nat V1)
      with (due := Scenario.at0900); try reflexivity; [exact V0|].
    right. reflexivity.
  - apply (due_only_at_exact_minute Scenario.desktop DEFAULT_SETTINGS
             Scenario.at0901 1%nat (tasks Scenario.morning) 0%nat V2)
      with (due := Scenario.at0900); try reflexivity; [exact V0|].
    left. reflexivity.
Defined.

Lemma malformed_not_due now t :
  validClock now -> malformed t -> isDue now t = false.
Proof.
  intros Hv Hm. destruct (isDue now t) eqn:Hd; [|done].
  destruct (isDue_unnotified now t Hd) as (_ & _ & Hdate & Htime).
  destruct Hm as [Hm|Hm].
  - by rewrite Hdate, parseDate_currentDate in Hm.
  - by rewrite Htime, parseTime_currentTime in Hm.
Qed.

(** C8. A task whose date or time does not parse is never matched by a
    tick on a valid clock: its callback returns it as it is, throws
    nothing and performs nothing; in the array a completed tick returns,
    it is unchanged at its position; and when the tick throws, it is
    because another task, whose date and time parse, is due where the
    [Notification] global is missing. Where that global exists every tick
    completes. *)
Theorem malformed_task_is_skipped env settings now fresh arr i t :
  validClock now -> elems arr !! i = Some t -> malformed t ->
  isDue now t = false /\
  (forall fr, visit env settings now t i fr = (Returned t, fr)) /\
  (forall e, (i, e) ∉ (updater env settings now fresh arr).2) /\
  match (updater env settings now fresh arr).1 with
  | Returned arr' => elems arr' !! i = Some t
  | Thrown _ =>
      Notification env = None /\
      exists j t', j <> i /\ elems arr !! j = Some t' /\
        isDue now t' = true /\ ~ malformed t'
  end /\
  (forall p, Notification env = Some p ->
     exists arr', (updater env settings now fresh arr).1 = Returned arr').
Proof.
  intros Hv Ht Hm.
  pose proof (malformed_not_due now t Hv Hm) as Hnot.
  split; [done|]. split; [intros fr; by apply visit_skips|].
  pose proof (updater_spec env settings now fresh arr) as (Hent & _ & Hout).
  simpl in *. split; [|split].
  - intros e He. destruct (Hent i e He) as (t' & Ht' & Hd). congruence.
  - destruct (updater env settings now fresh arr) as [[arr'|e] done];
      simpl in *.
    + destruct Hout as (_ & -> & _). rewrite list_lookup_fmap, Ht. simpl.
      unfold visited. by rewrite Hnot.
    + destruct Hout as (Hnone & Hsome). split; [done|].
      destruct (existsb_isDue_lookup now _ Hsome) as (j & t' & Hj & Hd).
      exists j, t'. repeat split; try done.
      * intros ->. congruence.
      * intros Hm'. by rewrite (malformed_not_due now t' Hv Hm') in Hd.
  - intros p Hp. by apply updater_returns with p.
Qed.

Lemma malformed_task_is_skipped_witness :
  isDue Scenario.at0900 Scenario.garbled = false /\
  forall e, (2%nat, e) ∉
    (updater Scenario.desktop DEFAULT_SETTINGS Scenario.at0900 1%nat
       (tasks Scenario.morning)).2.
Proof.
  assert (validClock Scenario.at0900) as V0 by (vm_compute; intuition discriminate).
  destruct (malformed_task_is_skipped Scenario.desktop DEFAULT_SETTINGS
              Scenario.at0900 1%nat (tasks Scenario.morning) 2%nat
              Scenario.garbled V0 eq_refl)
    as (H1 & _ & H2 & _).
  - left. reflexivity.
  - split; assumption.
Defined.



(** C10. With no task due the updater returns the very array it was
    given and performs nothing. When it returns after a match, the array
    is a new one of the same length, every position holds a task with the
    same id, title, time, date, priority and creation stamp as before, and
    a task that was not due is unchanged. *)
Theorem tick_changes_only_matched_flags env settings now fresh arr :
  (existsb (isDue now) (elems arr) = false ->
   updater env settings now fresh arr = (Returned arr, [])) /\
  (forall arr',
     (updater env settings now fresh arr).1 = Returned arr' ->
     length (elems arr') = length (elems arr) /\
     (existsb (isDue now) (elems arr) = true -> ref arr' = fresh) /\
     forall j t, elems arr !! j = Some t ->
       exists t', elems arr' !! j = Some t' /\
         id t' = id t /\ title t' = title t /\ time t' = time t /\
         date t' = date t /\ priority t' = priority t /\
         createdAt t' = createdAt t /\
         (isDue now t = false -> t' = t)).
Proof.
  split; [apply updater_idle|].
  intros arr' Hret.
  pose proof (updater_spec env settings now fresh arr) as (_ & _ & Hout).
  simpl in *. rewrite Hret in Hout. destruct Hout as (Harr & He & _).
  split; [by rewrite He, length_map|]. split.
  - intros Hsome. by rewrite Harr, Hsome.
  - intros j t Ht. exists (visited settings now t).
    rewrite He, list_lookup_fmap, Ht. simpl. unfold visited.
    destruct (isDue now t); repeat split; done.
Qed.

Lemma tick_changes_only_matched_flags_witness :
  updater Scenario.desktop DEFAULT_SETTINGS Scenario.at0859 1%nat
    (tasks Scenario.morning) = (Returned (tasks Scenario.morning), []) /\
  forall arr',
    (updater Scenario.desktop DEFAULT_SETTINGS Scenario.at0900 1%nat
       (tasks Scenario.morning)).1 = Returned arr' ->
    length (elems arr') = 3%nat.
Proof.
  split.
  - apply (tick_changes_only_matched_flags Scenario.desktop
             DEFAULT_SETTINGS Scenario.at0859 1%nat (tasks Scenario.morning)).
    reflexivity.
  - intros arr' H.
    apply (tick_changes_only_matched_flags Scenario.desktop
             DEFAULT_SETTINGS Scenario.at0900 1%nat (tasks Scenario.morning))
      in H as (H & _).
    exact H.
Defined.

End ScannerClaims.

(** * Properties of the alert player *)

Import Audio.

(** Case analysis on lookups in maps built by insertion and deletion. *)
Ltac map_cases :=
  repeat match goal with
  | H : ∅ !! _ = Some _ |- _ => by rewrite lookup_empty in H
  | H : {[ _ := _ ]} !! _ = Some _ |- _ =>
      apply lookup_singleton_Some in H as [? ?]
  | H : <[_:=_]> _ !! _ = Some _ |- _ =>
      apply lookup_insert_Some in H as [[? ?]|[? H]]
  | H : delete _ _ !! _ = Some _ |- _ =>
      apply lookup_delete_Some in H as [? H]
  end.

(** A playing buffer source contradicts a hypothesis that there is none. *)
Ltac use_noBuffers :=
  match goal with
  | Hb : forall i s, ?so !! i = Some s -> playing s = true -> isBuffer s = false,
    H : ?so !! _ = Some ?s, Hp : playing ?s = true |- _ =>
      pose proof (Hb _ _ H Hp); congruence
  end.

Ltac splits := repeat match goal with |- _ /\ _ => split end.

Ltac close :=
  try done; try lia; try congruence; try use_noBuffers;
  try (exfalso; use_noBuffers);
  try match goal with
      | Ht : forall h t, _ !! h = Some t -> if isLoopTimer t then _ else _
        |- if isLoopTimer _ then _ else _ => by apply Ht
      | Hk : forall h t, _ !! h = Some t -> kind t = kindOf (action t)
        |- kind _ = kindOf _ => by eapply Hk
      end;
  eauto.

(** The clauses of [orderly] for a state that has been computed. *)
Ltac clauses :=
  constructor; unfold noBuffers, noLoopTimers; simpl;
  intros; splits; intros; map_cases; simplify_eq/=; close.

Ltac orderly_clauses :=
  constructor; unfold noBuffers, noLoopTimers; simpl;
  repeat split; intros; map_cases; simplify_eq/=;
  try done; try lia; try congruence; try use_noBuffers; eauto.

Section AudioFacts.

Variable env : Platform.

Lemma stop_stopped w : stop env w = (Returned tt, stopped env w).
Proof.
  destruct w as [[ctx buf src st li cb] [tm nt so ns ut aw na ca un]].
  unfold stop, stopped.
  destruct src, st, li, cb, (speechSynthesis env); reflexivity.
Qed.

Lemma lookup_forget o (m : gmap positive Timer) h t :
  forget o m !! h = Some t -> m !! h = Some t /\ o <> Some h.
Proof.
  destruct o as [k|]; simpl; [|done].
  rewrite lookup_delete_Some. intros [Hne Hm]. split; [done|congruence].
Qed.

Lemma lookup_silenced o (m : gmap nat Source) i s :
  silenced o m !! i = Some s -> playing s = true ->
  m !! i = Some s /\ o <> Some i.
Proof.
  destruct o as [k|]; simpl; [|done].
  destruct (decide (k = i)) as [->|Hne].
  - rewrite lookup_alter_eq. destruct (m !! i); simpl; [|done].
    intros [= <-]. done.
  - rewrite lookup_alter_ne by done. intros Hm _. split; [done|congruence].
Qed.

(** Whatever was recorded is gone after [stop()]. *)
Lemma stopped_silent w : orderly env w -> silent (stopped env w).
Proof.
  intros [Ht _ Hb Hs _ _ _ _]. unfold silent, stopped, noBuffers. simpl.
  split; [|split].
  - apply map_empty. intros h.
    destruct (forget _ _ !! h) as [t|] eqn:E; [|done].
    apply lookup_forget in E as [E Hli]. apply lookup_forget in E as [E Hst].
    specialize (Ht h t E). by destruct (isLoopTimer t).
  - destruct (speechSynthesis env); [done|by apply Hs].
  - intros i s Hi Hp. destruct (isBuffer s) eqn:Hbuf; [|done].
    apply lookup_silenced in Hi as [Hi Hne]; [|done].
    by specialize (Hb i s Hi Hp Hbuf).
Qed.

Lemma silent_noLoopTimers w : silent w -> noLoopTimers w.
Proof. intros (Ht & _) h t Hh. by rewrite Ht, lookup_empty in Hh. Qed.

(** A silent player with the given parked functions is orderly. *)
Lemma silent_orderly w :
  silent w ->
  (forall k a, awaiting (window w) !! k = Some a ->
     awaiting (window w) = {[k := a]}) ->
  orderly env w.
Proof.
  intros (Ht & Hu & Hb) Haw. constructor.
  - intros h t Hh. by rewrite Ht, lookup_empty in Hh.
  - intros h t Hh. by rewrite Ht, lookup_empty in Hh.
  - intros i s Hi Hp Hbuf. by rewrite (Hb i s Hi Hp) in Hbuf.
  - done.
  - rewrite Hu. simpl. lia.
  - by rewrite Hu.
  - intros h t Hh. by rewrite Ht, lookup_empty in Hh.
  - intros k a Hk. split; [by apply Haw|]. split; [done|].
    by destruct a.
Qed.

Lemma stopped_orderly w : orderly env w -> orderly env (stopped env w).
Proof.
  intros Ho. apply silent_orderly; [by apply stopped_silent|].
  intros k a Hk. by apply (await_alone _ _ Ho).
Qed.


Lemma playback_orderly settings taskTitle w :
  silent w -> awaiting (window w) = ∅ ->
  orderly env (task (async (playback env settings taskTitle)) w).
Proof.
  destruct w as [[ctx buf src st li cb] [tm nt so ns ut aw na ca un]].
  destruct settings as [th ac sm data name vol dur loop voice].
  unfold silent, noBuffers. simpl. intros (-> & -> & Hb) ->.
  unfold task, async, playback, tryCatch. simpl.
  unfold mbind, js_bind, mret, js_ret, modify, setTimer. simpl.
  destruct (0 <? dur); simpl.
  all: destruct sm; [| |destruct data as [[|c d]|]]; simpl.
  all: unfold playBell, speakText, playCustom, playBuffer, fallback,
         playBellSound, getContext, startNode, cancel, speak, await, throw,
         tryCatch, gets, mbind, js_bind, mret, js_ret, modify, setTimer;
       simpl.
  all: lazymatch goal with
       | |- context [speechSynthesis env] =>
           destruct loop, (speechSynthesis env) eqn:Hsp
       | |- context [Decode] =>
           destruct ctx as [c0|], (AudioContext env) as [c1|], buf as [b|]
       | |- _ =>
           destruct loop, ctx as [c0|], (AudioContext env) as [c1|]
       end; simpl.
  all: orderly_clauses.
Qed.


Lemma playNotification_unfold settings taskTitle onEnd w :
  task (playNotification env settings taskTitle onEnd) w =
    let w1 := onThis (setOnPlaybackEnd onEnd) (stopped env w) in
    match audioContext (this w) with
    | Some suspended => (await (Resume settings taskTitle) w1).2
    | _ => task (async (playback env settings taskTitle)) w1
    end.
Proof.
  unfold playNotification, task, async, tryCatch.
  unfold mbind, js_bind at 1. rewrite stop_stopped.
  unfold mbind, js_bind, modify, gets. simpl.
  destruct (audioContext (this w)) as [[]|]; reflexivity.
Qed.

Lemma clearTimer_orderly w h :
  orderly env w -> orderly env (clearTimer h w).2.
Proof.
  destruct w as [[ctx buf src st li cb] [tm nt so ns ut aw na ca un]].
  intros [Ht Hk Hb Hs H1 Hsa Hla Haw].
  unfold noBuffers, noLoopTimers in *. simpl in *.
  constructor; unfold noBuffers, noLoopTimers; simpl; try done.
  - intros h0 t [_ H]%lookup_delete_Some. by apply Ht.
  - intros h0 t [_ H]%lookup_delete_Some. by apply Hk in H.
  - intros Hne. destruct (Hsa Hne) as (Hn & Hnb & ->). splits; try done.
    intros h0 t [_ H]%lookup_delete_Some. by apply (Hn h0).
  - intros h0 t [_ H]%lookup_delete_Some. by apply (Hla h0).
  - intros k a Hka. destruct (Haw k a Hka) as (-> & Hnb & Hr).
    splits; try done. destruct a; [|done]. rewrite Hr. apply delete_empty.
Qed.

Lemma timerFires_orderly w h :
  orderly env w -> orderly env (step env w (TimerFires h)).
Proof.
  intros Ho. simpl. destruct (timers (window w) !! h) as [t|] eqn:Hh; [|done].
  destruct t as [k d [|vol|text vol voice]]; simpl.
  - (* the ceiling *)
    unfold task, mbind, js_bind.
    destruct k; simpl.
    + rewrite stop_stopped. apply stopped_orderly. by apply clearTimer_orderly.
    + rewrite stop_stopped. by apply stopped_orderly.
  - (* the bell rings again *)
    destruct w as [[ctx buf src st li cb] [tm nt so ns ut aw na ca un]].
    destruct Ho as [Ht Hk Hb Hs H1 Hsa Hla Haw].
    unfold noBuffers, noLoopTimers in *. simpl in *.
    unfold task, playBellSound, getContext, startNode, clearTimer, throw,
      gets, mbind, js_bind, mret, js_ret, modify; simpl.
    pose proof (Hla _ _ Hh eq_refl) as [Hnb ->].
    pose proof (Hk _ _ Hh) as Hkind. simpl in Hkind. subst k.
    assert (ut = []) as ->.
    { destruct ut; [done|]. destruct Hsa as [Hn _]; [done|].
      by specialize (Hn _ _ Hh). }
    destruct ctx as [c0|], (AudioContext env) as [c1|]; simpl.
    all: clauses.
  - (* the phrase is spoken again *)
    destruct w as [[ctx buf src st li cb] [tm nt so ns ut aw na ca un]].
    destruct Ho as [Ht Hk Hb Hs H1 Hsa Hla Haw].
    unfold noBuffers, noLoopTimers in *. simpl in *.
    unfold task, speakText, cancel, speak, clearTimer, throw,
      gets, mbind, js_bind, mret, js_ret, modify; simpl.
    pose proof (Hla _ _ Hh eq_refl) as [Hnb ->].
    pose proof (Hk _ _ Hh) as Hkind. simpl in Hkind. subst k.
    pose proof (Ht _ _ Hh) as Hli. simpl in Hli. subst li.
    destruct (speechSynthesis env) eqn:Hsp; simpl.
    + clauses.
      match goal with
      | H : tm !! ?x = Some ?t |- isLoopTimer ?t = false =>
          specialize (Ht _ _ H); destruct (isLoopTimer t); [congruence|done]
      end.
    + rewrite (Hs eq_refl) in *. clauses.
Qed.


Lemma utteranceEnds_orderly w :
  orderly env w -> orderly env (step env w UtteranceEnds).
Proof.
  intros Ho. simpl.
  destruct w as [[ctx buf src st li cb] [tm nt so ns ut aw na ca un]].
  destruct Ho as [Ht Hk Hb Hs H1 Hsa Hla Haw].
  unfold noBuffers, noLoopTimers in *. simpl in *.
  destruct ut as [|u queue]; [by constructor|].
  destruct queue; [|simpl in H1; lia].
  destruct Hsa as (Hn & Hnb & ->); [done|].
  unfold task, runEndHandler, setTimer, call, gets, mbind, js_bind, mret,
    js_ret, modify; simpl.
  destruct (onend u) as [[text vol voice|]|]; [|destruct cb|]; simpl.
  all: clauses.
  all: match goal with
       | H : _ !! ?x = Some ?t |- _ =>
           pose proof (Hn _ _ H) as Hloop; pose proof (Ht _ _ H) as Htr;
           rewrite Hloop in *; done
       end.
Qed.

Lemma sourceEnds_orderly w i :
  orderly env w -> orderly env (step env w (SourceEnds i)).
Proof.
  intros Ho. simpl.
  destruct (sources (window w) !! i) as [s|] eqn:Hi; [|done].
  destruct (endsByItself s); [|done].
  destruct w as [[ctx buf src st li cb] [tm nt so ns ut aw na ca un]].
  destruct Ho as [Ht Hk Hb Hs H1 Hsa Hla Haw].
  unfold noBuffers, noLoopTimers in *. simpl in *.
  assert (Hal : forall j s', alter (fun s => mkSource (node s) (gain s) false) i so
                  !! j = Some s' -> playing s' = true -> so !! j = Some s').
  { intros j s' Hj Hp. destruct (decide (i = j)) as [->|Hne].
    - rewrite lookup_alter_eq in Hj. destruct (so !! j); simplify_eq/=.
    - by rewrite lookup_alter_ne in Hj. }
  constructor; unfold noBuffers, noLoopTimers; simpl; try done.
  - intros j s' Hj Hp. apply Hb; [by apply Hal|done].
  - intros Hne. destruct (Hsa Hne) as (Hn & Hnb & ->). splits; try done.
    intros j s' Hj Hp. apply (Hnb j); [by apply Hal|done].
  - intros h t Hh Hl. destruct (Hla h t Hh Hl) as [Hnb ->]. split; [|done].
    intros j s' Hj Hp. apply (Hnb j); [by apply Hal|done].
  - intros k a Hka. destruct (Haw k a Hka) as (-> & Hnb & Hr).
    splits; try done.
    intros j s' Hj Hp. apply (Hnb j); [by apply Hal|done].
Qed.

Lemma await_utterances w k a :
  orderly env w -> awaiting (window w) !! k = Some a ->
  utterances (window w) = [] /\ noLoopTimers w.
Proof.
  intros Ho Hk. split.
  - destruct (utterances (window w)) eqn:E; [done|].
    destruct (speech_alone _ _ Ho) as (_ & _ & Hnone); [by rewrite E|].
    by rewrite Hnone, lookup_empty in Hk.
  - intros h t Hh. destruct (isLoopTimer t) eqn:E; [|done].
    destruct (loop_alone _ _ Ho h t Hh E) as [_ Hnone].
    by rewrite Hnone, lookup_empty in Hk.
Qed.

Lemma resumed_orderly w k :
  orderly env w -> orderly env (step env w (Resumed k)).
Proof.
  intros Ho. simpl.
  destruct (awaiting (window w) !! k) as [[settings taskTitle|]|] eqn:Hk;
    try done.
  destruct (await_alone _ _ Ho k _ Hk) as (Haw & Hnb & Hnone).
  destruct (await_utterances w k _ Ho Hk) as [Hut _].
  unfold task at 1, mbind, js_bind, modify. simpl.
  match goal with |- orderly _ (let (_, _) := async _ ?w1 in _) =>
    change (orderly env (task (async (playback env settings taskTitle)) w1))
  end.
  apply playback_orderly.
  - by repeat split.
  - simpl. rewrite Haw. apply delete_singleton_eq.
Qed.


Lemma decoded_orderly w k ok :
  orderly env w -> orderly env (step env w (Decoded k ok)).
Proof.
  intros Ho. simpl.
  destruct (awaiting (window w) !! k) as [[|base64Data vol loop]|] eqn:Hk;
    try done.
  destruct (await_alone _ _ Ho k _ Hk) as (Haw & Hnb & _).
  destruct (await_utterances w k _ Ho Hk) as [Hut Hnl].
  destruct w as [[ctx buf src st li cb] [tm nt so ns ut aw na ca un]].
  destruct Ho as [Ht Hkd Hb Hs H1 Hsa Hla _].
  unfold noBuffers, noLoopTimers in *. simpl in *. subst ut aw.
  unfold task, async, tryCatch, playCustomResumed, playBuffer, fallback,
    playBellSound, getContext, startNode, throw, tryCatch, gets, mbind,
    js_bind, mret, js_ret, modify; simpl.
  rewrite delete_singleton_eq.
  destruct ok, ctx as [c0|], (AudioContext env) as [c1|]; simpl.
  all: clauses.
  all: match goal with
       | H : _ !! ?x = Some ?t, E : isLoopTimer ?t = true |- _ =>
           by rewrite (Hnl _ _ H) in E
       end.
Qed.

Lemma playNotification_orderly w settings taskTitle onEnd :
  orderly env w -> awaiting (window w) = ∅ ->
  orderly env (step env w (PlayNotification settings taskTitle onEnd)).
Proof.
  intros Ho Hnone. simpl. rewrite playNotification_unfold. simpl.
  pose proof (stopped_silent w Ho) as (Htm & Hut & Hnb).
  assert (silent (onThis (setOnPlaybackEnd onEnd) (stopped env w))) as Hsil
    by done.
  destruct (audioContext (this w)) as [[]|].
  - by apply playback_orderly.
  - apply silent_orderly.
    + destruct Hsil as (Ht & Hu & Hb). by repeat split.
    + simpl. rewrite Hnone. intros k a. rewrite insert_empty.
      by intros [<- <-]%lookup_singleton_Some.
  - by apply playback_orderly.
Qed.

Lemma clearCustomCache_orderly w :
  orderly env w -> orderly env (step env w ClearCustomCache).
Proof. intros [Ht Hk Hb Hs H1 Hsa Hla Haw]. by constructor. Qed.

Lemma initial_orderly : orderly env initial.
Proof. apply silent_orderly; [done|]. intros k a Hk. done. Qed.

(** Every event keeps the player orderly, provided [playNotification] is
    not called while an earlier call is parked at an [await]. *)
Lemma step_orderly w e :
  orderly env w ->
  (isPlayNotification e = true -> awaiting (window w) = ∅) ->
  orderly env (step env w e).
Proof.
  intros Ho Hplay. destruct e.
  - apply playNotification_orderly; [done|]. by apply Hplay.
  - simpl. unfold task. rewrite stop_stopped. by apply stopped_orderly.
  - by apply clearCustomCache_orderly.
  - by apply timerFires_orderly.
  - by apply utteranceEnds_orderly.
  - by apply sourceEnds_orderly.
  - by apply resumed_orderly.
  - by apply decoded_orderly.
  - simpl. destruct (audioContext (this w)); [|done].
    destruct Ho as [Ht Hk Hb Hs H1 Hsa Hla Haw]. by constructor.
Qed.

(** Starts that do not overtake each other keep the player orderly: from the
    initial state on there is then never more than one session. *)
Lemma spaced_orderly trace : forall w,
  orderly env w -> spaced env w trace -> orderly env (run env w trace).
Proof.
  induction trace as [|e trace IH]; intros w Ho Hs; [done|].
  destruct Hs as [He Hrest]. simpl. apply IH; [|done].
  by apply step_orderly.
Qed.

(** What being orderly means for the three things that sound: at most one
    buffer source plays, at most one loop timer is pending, at most one
    utterance is queued, and no two of these kinds are present together. *)
Lemma orderly_one_session w :
  orderly env w ->
  (forall i j si sj,
     playingBuffers w !! i = Some si -> playingBuffers w !! j = Some sj ->
     i = j) /\
  (forall h k th tk,
     loopTimers w !! h = Some th -> loopTimers w !! k = Some tk -> h = k) /\
  (length (utterances (window w)) <= 1)%nat /\
  (size (playingBuffers w) = 0 \/ size (loopTimers w) = 0)%nat /\
  (size (playingBuffers w) = 0%nat \/ utterances (window w) = []) /\
  (size (loopTimers w) = 0%nat \/ utterances (window w) = []).
Proof.
  intros Ho. unfold playingBuffers, loopTimers.
  assert (Hbuf : forall i s,
    filter (fun e : nat * Source => playing e.2 = true /\ isBuffer e.2 = true)
      (sources (window w)) !! i = Some s ->
    sources (window w) !! i = Some s /\ playing s = true /\ isBuffer s = true).
  { intros i s H. apply map_lookup_filter_Some in H as [H [? ?]]. done. }
  assert (Hloop : forall h t,
    filter (fun e : positive * Timer => isLoopTimer e.2 = true)
      (timers (window w)) !! h = Some t ->
    timers (window w) !! h = Some t /\ isLoopTimer t = true).
  { intros h t H. apply map_lookup_filter_Some in H as [H ?]. done. }
  assert (Hsome : forall (K : Type) `{Countable K} (A : Type) (m : gmap K A),
    size m = 0%nat \/ exists k a, m !! k = Some a).
  { intros K ? ? A m. destruct (decide (m = ∅)) as [->|Hne].
    - left. apply map_size_empty.
    - right. apply map_choose in Hne as (k & a & Hk). eauto. }
  split; [|split; [|split; [|split; [|split]]]].
  - intros i j si sj [Hi [Hpi Hbi]]%Hbuf [Hj [Hpj Hbj]]%Hbuf.
    pose proof (buffers_tracked _ _ Ho i si Hi Hpi Hbi).
    pose proof (buffers_tracked _ _ Ho j sj Hj Hpj Hbj). congruence.
  - intros h k th tk [Hh Hlh]%Hloop [Hk Hlk]%Hloop.
    pose proof (timers_tracked _ _ Ho h th Hh) as H1.
    pose proof (timers_tracked _ _ Ho k tk Hk) as H2.
    rewrite Hlh in H1. rewrite Hlk in H2. congruence.
  - apply (speech_single _ _ Ho).
  - destruct (Hsome _ _ _ _ (filter
        (fun e : nat * Source => playing e.2 = true /\ isBuffer e.2 = true)
        (sources (window w)))) as [E|(i & s & [Hi [Hp Hb]]%Hbuf)]; [by left|].
    right. destruct (Hsome _ _ _ _ (filter
        (fun e : positive * Timer => isLoopTimer e.2 = true)
        (timers (window w)))) as [E|(h & t & [Hh Hl]%Hloop)]; [done|].
    destruct (loop_alone _ _ Ho h t Hh Hl) as [Hnb _].
    rewrite (Hnb i s Hi Hp) in Hb. done.
  - destruct (utterances (window w)) eqn:E; [by right|]. left.
    destruct (speech_alone _ _ Ho) as (_ & Hnb & _); [by rewrite E|].
    destruct (Hsome _ _ _ _ (filter
        (fun e : nat * Source => playing e.2 = true /\ isBuffer e.2 = true)
        (sources (window w)))) as [E'|(i & s & [Hi [Hp Hb]]%Hbuf)]; [done|].
    rewrite (Hnb i s Hi Hp) in Hb. done.
  - destruct (utterances (window w)) eqn:E; [by right|]. left.
    destruct (speech_alone _ _ Ho) as (Hnl & _ & _); [by rewrite E|].
    destruct (Hsome _ _ _ _ (filter
        (fun e : positive * Timer => isLoopTimer e.2 = true)
        (timers (window w)))) as [E'|(h & t & [Hh Hl]%Hloop)]; [done|].
    rewrite (Hnl h t Hh) in Hl. done.
Qed.

Lemma run_orderly trace : forall w,
  orderly env w ->
  Forall (fun e => isPlayNotification e = false) trace ->
  orderly env (run env w trace).
Proof.
  induction trace as [|e trace IH]; intros w Ho Hf; [done|].
  inversion Hf as [|? ? He Hrest]; subst. simpl. apply IH; [|done].
  apply step_orderly; [done|]. congruence.
Qed.

End AudioFacts.

Section ContextReady.

Variable env : Platform.

Ltac ready :=
  unfold contextReady; simpl; intros; map_cases; simplify_eq/=;
  try done; eauto.

Lemma playback_contextReady settings taskTitle w :
  contextReady w ->
  contextReady (task (async (playback env settings taskTitle)) w).
Proof.
  destruct w as [[ctx buf src st li cb] [tm nt so ns ut aw na ca un]].
  destruct settings as [th ac sm data name vol dur loop voice].
  unfold contextReady. simpl. intros Hr.
  unfold task, async, playback, tryCatch. simpl.
  unfold mbind, js_bind, mret, js_ret, modify, setTimer. simpl.
  destruct (0 <? dur); simpl.
  all: destruct sm; [| |destruct data as [[|c d]|]]; simpl.
  all: unfold playBell, speakText, playCustom, playBuffer, fallback,
         playBellSound, getContext, startNode, cancel, speak, await, throw,
         tryCatch, gets, mbind, js_bind, mret, js_ret, modify, setTimer;
       simpl.
  all: try (destruct loop, ctx as [c0|], (AudioContext env) as [c1|]; simpl;
            by ready).
  all: try (destruct loop, (speechSynthesis env); simpl; by ready).
  all: destruct ctx as [c0|], (AudioContext env) as [c1|], buf as [b|]; simpl;
    ready.
Qed.


Lemma step_contextReady w e :
  contextReady w -> contextReady (step env w e).
Proof.
  intros Hr. destruct e as [settings taskTitle onEnd| | |h| |i|k|k ok|state].
  - simpl. rewrite playNotification_unfold. simpl.
    assert (contextReady (onThis (setOnPlaybackEnd onEnd) (stopped env w)))
      as Hr1 by done.
    destruct (audioContext (this w)) as [[]|] eqn:E.
    + by apply playback_contextReady.
    + revert Hr1. unfold contextReady. simpl. intros Hr1 k' d v l Hk.
      apply lookup_insert_Some in Hk as [[_ ?]|[_ Hk]]; [done|].
      by apply (Hr1 k' d v l).
    + by apply playback_contextReady.
  - simpl. unfold task. by rewrite stop_stopped.
  - done.
  - simpl. destruct (timers (window w) !! h) as [[kd d [|vol|text vol voice]]|];
      [| | |done]; simpl.
    + unfold task, mbind, js_bind. destruct kd; simpl; by rewrite stop_stopped.
    + destruct w as [[ctx buf src st li cb] [tm nt so ns ut aw na ca un]].
      unfold task, playBellSound, getContext, startNode, clearTimer, throw,
        gets, mbind, js_bind, mret, js_ret, modify; simpl.
      destruct kd, ctx as [c0|], (AudioContext env) as [c1|]; simpl; ready.
    + destruct w as [[ctx buf src st li cb] [tm nt so ns ut aw na ca un]].
      unfold task, speakText, cancel, speak, clearTimer, throw,
        gets, mbind, js_bind, mret, js_ret, modify; simpl.
      destruct kd, (speechSynthesis env); simpl; ready.
  - simpl. destruct w as [[ctx buf src st li cb] [tm nt so ns ut aw na ca un]].
    simpl. destruct ut as [|u queue]; [done|].
    unfold task, runEndHandler, setTimer, call, gets, mbind, js_bind, mret,
      js_ret, modify; simpl.
    destruct (onend u) as [[text vol voice|]|]; [|destruct cb|]; simpl; ready.
  - simpl. destruct (sources (window w) !! i) as [s|]; [|done].
    by destruct (endsByItself s).
  - simpl.
    destruct (awaiting (window w) !! k) as [[settings taskTitle|]|] eqn:Hk;
      try done.
    unfold task at 1, mbind, js_bind, modify. simpl.
    match goal with |- contextReady (let (_, _) := async _ ?w1 in _) =>
      change (contextReady (task (async (playback env settings taskTitle)) w1))
    end.
    apply playback_contextReady. unfold contextReady. simpl.
    intros k' d v l [_ Hk']%lookup_delete_Some. eauto.
  - simpl.
    destruct (awaiting (window w) !! k) as [[|base64Data vol loop]|] eqn:Hk;
      try done.
    destruct (Hr _ _ _ _ Hk) as [c0 Hc].
    destruct w as [[ctx buf src st li cb] [tm nt so ns ut aw na ca un]].
    simpl in *. subst ctx.
    unfold task, async, tryCatch, playCustomResumed, playBuffer, fallback,
      playBellSound, getContext, startNode, throw, tryCatch, gets, mbind,
      js_bind, mret, js_ret, modify; simpl.
    destruct ok; simpl; ready.
  - simpl. destruct (audioContext (this w)) eqn:E; [|done].
    intros k d v l Hk. simpl. eauto.
Qed.

Lemma run_contextReady trace : forall w,
  contextReady w -> contextReady (run env w trace).
Proof.
  induction trace as [|e trace IH]; intros w Hr; [done|].
  simpl. apply IH. by apply step_contextReady.
Qed.

Lemma initial_contextReady : contextReady initial.
Proof. intros k d v l Hk. done. Qed.

End ContextReady.

(** * The alert player against the specification *)

Section PlayerClaims.

Import Sounds.

(** Scenario C of the specification: a looping bell with a ceiling of three
    seconds rings again on each firing of the interval; when the ceiling
    fires nothing is left pending and [onEnd] has been called once. *)
Example scenario_C :
  let w := run Scenario.desktop initial
             [PlayNotification briefBell "Standup" (Some 1%nat);
              TimerFires 2; SourceEnds 0; TimerFires 2; SourceEnds 1;
              TimerFires 1] in
  timers (window w) = ∅ /\ currentSource (this w) = None /\
  size (sources (window w)) = 3%nat /\ calls 1 w = 1%nat.
Proof. vm_compute. done. Qed.

(** Scenario D: two starts in quick succession with different modes, none
    of them parked; the session left is the one of the second call, and
    each [onEnd] is called once by the time it is stopped. *)
Example scenario_D :
  let w := run Scenario.desktop initial
             [PlayNotification DEFAULT_SETTINGS "Standup" (Some 1%nat);
              PlayNotification speakOnce "Lunch" (Some 2%nat)] in
  size (loopTimers w) = 0%nat /\ size (playingBuffers w) = 0%nat /\
  text <$> utterances (window w) = ["Task due: Lunch"] /\
  calls 1 w = 1%nat /\ calls 2 w = 0%nat /\
  calls 1 (step Scenario.desktop w Stop) = 1%nat /\
  calls 2 (step Scenario.desktop w Stop) = 1%nat.
Proof. vm_compute. done. Qed.

(** [stop()] calls the registered closure once and forgets it, so further
    calls of [stop()] call nothing. *)
Lemma stop_calls_onEnd_once env w cb :
  onPlaybackEnd (this w) = Some cb ->
  called (window (step env w Stop)) = called (window w) ++ [cb] /\
  onPlaybackEnd (this (step env w Stop)) = None /\
  forall n, called (window (run env (step env w Stop) (replicate n Stop)))
            = called (window w) ++ [cb].
Proof.
  intros Hcb. simpl. unfold task. rewrite stop_stopped. simpl. rewrite Hcb.
  split; [done|]. split; [done|].
  assert (forall n w', onPlaybackEnd (this w') = None ->
            called (window (run env w' (replicate n Stop)))
              = called (window w')) as Hrep.
  { induction n as [|n IH]; intros w' Hnone; [done|].
    simpl. unfold task. rewrite stop_stopped. rewrite IH by done.
    simpl. by rewrite Hnone. }
  intros n. rewrite Hrep by done. simpl. by rewrite Hcb.
Qed.

(** C2, at the failing input. A single spoken alert ends by itself and
    calls its [onEnd] closure (line 203) without forgetting it; the next
    [stop()], whether from the user or from the ceiling timer armed for the
    same session, calls it again. *)
Theorem onEnd_called_twice_after_natural_end :
  let session := [PlayNotification speakOnce "Standup" (Some 7%nat);
                  UtteranceEnds] in
  calls 7 (run Scenario.desktop initial session) = 1%nat /\
  calls 7 (run Scenario.desktop initial (session ++ [Stop])) = 2%nat /\
  calls 7 (run Scenario.desktop initial (session ++ [TimerFires 1]))
    = 2%nat.
Proof. vm_compute. done. Qed.

(** C4, at the failing input. Two alerts with the custom sound are started
    one after the other before the payload is decoded (two tasks due in the
    same tick, nothing cached yet): both calls park at the [await] of
    [playCustom], and when the decodings settle two looping buffer sources
    play at once. Only the later one is recorded; [stop()] leaves the other
    one playing with no handle left to stop it. *)
Theorem two_buffer_sources_after_overlapping_starts :
  let w := run Scenario.desktop initial
             [PlayNotification ownSound "Standup" (Some 1%nat);
              PlayNotification ownSound "Lunch" (Some 2%nat);
              Decoded 0 true; Decoded 1 true] in
  size (playingBuffers w) = 2%nat /\
  currentSource (this w) = Some 1%nat /\
  size (playingBuffers (step Scenario.desktop w Stop)) = 1%nat /\
  currentSource (this (step Scenario.desktop w Stop)) = None /\
  timers (window (step Scenario.desktop w Stop)) = ∅.
Proof. vm_compute. done. Qed.


(** C7, as stated, at a concrete input: when the utterance of a looping
    spoken alert completes, nothing is spoken; a one-shot timer of 1000 ms
    is pending instead. *)
Lemma phrase_not_respoken_immediately :
  let w := run Scenario.desktop initial
             [PlayNotification speakRepeatedly "Standup" (Some 7%nat);
              UtteranceEnds] in
  utterances (window w) = [] /\
  timers (window w) !! 2%positive =
    Some {| kind := Timeout; delay := 1000;
            action := SpeakLoop "Task due: Standup" (8 # 10)
                        (Some "urn:voice:en-GB") |}.
Proof. vm_compute. done. Qed.

(** C7, amended. Where speech synthesis exists, a spoken alert queues the
    phrase "Task due: " followed by the title. With [audioLoop], the end of
    each utterance arms a one-shot timer of 1000 ms, recorded in
    [loopInterval], and no interval; when that timer fires the same phrase
    is spoken again with the same handler, and [stop()] clears the pending
    timer and the queue. Without [audioLoop], the end of the utterance calls
    the registered [onEnd] closure. *)
Theorem speech_loop_rearms_after_pause env w :
  speechSynthesis env = true ->
  (forall settings taskTitle onEnd,
     soundMode settings = tts ->
     audioContext (this w) <> Some suspended ->
     let w1 := step env w (PlayNotification settings taskTitle onEnd) in
     let text := "Task due: " +:+ taskTitle in
     utterances (window w1) =
       [phrase env text (volume settings) (voiceURI settings)
          (if audioLoop settings
           then RearmSpeakLoop text (volume settings) (voiceURI settings)
           else NaturalEnd)] /\
     onPlaybackEnd (this w1) = onEnd) /\
  (forall u queue text vol voiceURI,
     utterances (window w) = u :: queue ->
     onend u = Some (RearmSpeakLoop text vol voiceURI) ->
     let h := nextTimer (window w) in
     let w1 := step env w UtteranceEnds in
     utterances (window w1) = queue /\
     called (window w1) = called (window w) /\
     loopInterval (this w1) = Some h /\
     timers (window w1) =
       <[h := {| kind := Timeout; delay := 1000;
                 action := SpeakLoop text vol voiceURI |}]>
         (timers (window w)) /\
     (let w2 := step env w1 (TimerFires h) in
      utterances (window w2) =
        [phrase env text vol voiceURI (RearmSpeakLoop text vol voiceURI)] /\
      timers (window w2) !! h = None) /\
     (let w3 := step env w1 Stop in
      utterances (window w3) = [] /\ timers (window w3) !! h = None)) /\
  (forall u queue cb,
     utterances (window w) = u :: queue ->
     onend u = Some NaturalEnd ->
     onPlaybackEnd (this w) = Some cb ->
     let w1 := step env w UtteranceEnds in
     utterances (window w1) = queue /\
     called (window w1) = called (window w) ++ [cb]).
Proof.
  intros Hsp. split; [|split].
  - intros settings taskTitle onEnd Hmode Hctx. simpl.
    rewrite playNotification_unfold. simpl.
    destruct w as [[ctx buf src st li cb] [tm nt so ns ut aw na ca un]].
    destruct settings as [th ac sm data name vol dur loop voice].
    simpl in *. subst sm.
    unfold task, async, playback, tryCatch, speakText, cancel, speak, setTimer,
      mbind, js_bind, mret, js_ret, modify. simpl. rewrite Hsp.
    destruct ctx as [[]|]; try done.
    all: destruct (0 <? dur), loop; simpl; done.
  - intros u queue text vol voiceURI Hq Hend.
    destruct w as [[ctx buf src st li cb] [tm nt so ns ut aw na ca un]].
    simpl in *. subst ut. rewrite Hend.
    unfold task, runEndHandler, setTimer, mbind, js_bind, mret, js_ret,
      modify. simpl. rewrite lookup_insert_eq. simpl.
    unfold task, speakText, cancel, speak, clearTimer, stop, stopNode, call,
      gets, tryCatch, mbind, js_bind, mret, js_ret, modify.
    simpl. rewrite Hsp. simpl.
    repeat split; try done.
    + by rewrite lookup_delete_eq.
    + destruct src, st, cb; simpl; done.
    + destruct src, st, cb; simpl; try by rewrite lookup_delete_eq.
      all: rewrite lookup_delete_eq; done.
  - intros u queue cb Hq Hend Hcb.
    destruct w as [[ctx buf src st li cb'] [tm nt so ns ut aw na ca un]].
    simpl in *. subst ut cb'. rewrite Hend.
    unfold task, runEndHandler, call, gets, mbind, js_bind, mret, js_ret,
      modify. simpl. done.
Qed.


Lemma speech_loop_rearms_after_pause_witness :
  let w1 := step Scenario.desktop initial
              (PlayNotification speakRepeatedly "Standup" (Some 7%nat)) in
  utterances (window w1) =
    [phrase Scenario.desktop "Task due: Standup" (8 # 10)
       (Some "urn:voice:en-GB")
       (RearmSpeakLoop "Task due: Standup" (8 # 10)
          (Some "urn:voice:en-GB"))] /\
  onPlaybackEnd (this w1) = Some 7%nat.
Proof.
  destruct (speech_loop_rearms_after_pause Scenario.desktop initial eq_refl)
    as (Hstart & _).
  apply (Hstart speakRepeatedly "Standup" (Some 7%nat)).
  - reflexivity.
  - discriminate.
Defined.

(** C6. In every state the player can reach, [playNotification] returns to
    its caller without throwing. Started in custom mode with a payload and no
    cached buffer, on a context that can be had and is not suspended, it
    rejects nothing and parks [playCustom] at the decoding. Whenever such a
    decoding then fails, nothing is thrown or rejected either, and a bell
    oscillator is started at the configured volume and recorded as the
    current source. *)
Theorem decode_failure_falls_back_to_bell env trace :
  let w := run env initial trace in
  (forall settings taskTitle onEnd,
     exists w1, playNotification env settings taskTitle onEnd w
                = (Returned tt, w1)) /\
  (forall settings taskTitle onEnd c data,
     soundMode settings = custom ->
     customSoundData settings = Some (String c data) ->
     customAudioBuffer (this w) = None ->
     audioContext (this w) <> Some suspended ->
     is_Some (audioContext (this w)) \/ is_Some (AudioContext env) ->
     let w1 := step env w (PlayNotification settings taskTitle onEnd) in
     unhandled (window w1) = unhandled (window w) /\
     awaiting (window w1) !! nextAwait (window w) =
       Some (Decode (String c data) (volume settings) (audioLoop settings))) /\
  (forall k base64Data vol loop,
     awaiting (window w) !! k = Some (Decode base64Data vol loop) ->
     let w' := step env w (Decoded k false) in
     unhandled (window w') = unhandled (window w) /\
     currentSource (this w') = Some (nextSource (window w)) /\
     sources (window w') !! nextSource (window w) =
       Some {| node := Oscillator; gain := vol; playing := true |} /\
     awaiting (window w') !! k = None).
Proof.
  intros w. split; [|split].
  - intros settings taskTitle onEnd. unfold playNotification, async, tryCatch.
    match goal with |- context [match ?m w with _ => _ end] =>
      destruct (m w) as [[[]|e] w1] end; eauto.
  - intros settings taskTitle onEnd c data Hmode Hdata Hbuf Hctx Hcan. simpl.
    rewrite playNotification_unfold. simpl. clearbody w.
    destruct w as [[ctx buf src st li cb] [tm nt so ns ut aw na ca un]].
    destruct settings as [th ac sm sd name vol dur loop voice].
    simpl in *. subst sm sd buf.
    unfold task, async, playback, playCustom, getContext, await, tryCatch,
      setTimer, throw, gets, mbind, js_bind, mret, js_ret, modify. simpl.
    destruct ctx as [[]|]; try done.
    + destruct (0 <? dur); simpl; by rewrite lookup_insert_eq.
    + destruct Hcan as [[? ?]|[c1 Hc1]]; [done|]. rewrite Hc1.
      destruct (0 <? dur); simpl; by rewrite lookup_insert_eq.
  - intros k base64Data vol loop Hk.
    pose proof (run_contextReady env trace initial initial_contextReady)
      as Hready.
    change (contextReady w) in Hready. clearbody w.
    destruct (Hready _ _ _ _ Hk) as [c0 Hc0]. simpl. rewrite Hk.
    destruct w as [[ctx buf src st li cb] [tm nt so ns ut aw na ca un]].
    simpl in *. subst ctx.
    unfold task, async, tryCatch, playCustomResumed, fallback, playBellSound,
      getContext, startNode, throw, gets, mbind, js_bind, mret, js_ret,
      modify. simpl.
    rewrite lookup_insert_eq, lookup_delete_eq. done.
Qed.

Lemma decode_failure_falls_back_to_bell_witness :
  let w := run Scenario.desktop initial
             [PlayNotification ownSound "Standup" (Some 1%nat)] in
  let w' := step Scenario.desktop w (Decoded 0 false) in
  unhandled (window w') = [] /\
  sources (window w') !! 0%nat =
    Some {| node := Oscillator; gain := 8 # 10; playing := true |}.
Proof.
  destruct (decode_failure_falls_back_to_bell Scenario.desktop
              [PlayNotification ownSound "Standup" (Some 1%nat)])
    as (_ & _ & H).
  destruct (H 0%nat "data:audio/mpeg;base64,SUQzBAAAAAAA" (8 # 10) true
              eq_refl) as (H1 & _ & H3 & _).
  split; [exact H1|exact H3].
Defined.


Lemma playback_arms env settings taskTitle w :
  0 < audioDuration settings ->
  let w1 := task (async (playback env settings taskTitle)) w in
  stopTimeout (this w1) = Some (nextTimer (window w)) /\
  timers (window w1) !! nextTimer (window w) =
    Some {| kind := Timeout; delay := audioDuration settings * 1000;
            action := CallStop |}.
Proof.
  destruct w as [[ctx buf src st li cb] [tm nt so ns ut aw na ca un]].
  destruct settings as [th ac sm data name vol dur loop voice].
  simpl. intros Hdur.
  unfold task, async, playback, tryCatch. simpl.
  unfold mbind, js_bind, mret, js_ret, modify, setTimer. simpl.
  destruct (Z.ltb_spec 0 dur); [|lia]. simpl.
  destruct sm; [| |destruct data as [[|c d]|]]; simpl.
  all: unfold playBell, speakText, playCustom, playBuffer, fallback,
         playBellSound, getContext, startNode, cancel, speak, await, throw,
         tryCatch, gets, mbind, js_bind, mret, js_ret, modify, setTimer;
       simpl.
  all: try (destruct loop, ctx as [c0|], (AudioContext env) as [c1|]; simpl;
            rewrite ?lookup_insert_eq,
              ?(lookup_insert_ne _ (Pos.succ nt) nt) by lia;
            by rewrite ?lookup_insert_eq).
  all: try (destruct loop, (speechSynthesis env); simpl;
            by rewrite lookup_insert_eq).
  all: destruct ctx as [c0|], (AudioContext env) as [c1|], buf as [b|]; simpl;
    by rewrite lookup_insert_eq.
Qed.

Lemma playback_unarmed env settings taskTitle w :
  audioDuration settings <= 0 ->
  let w1 := task (async (playback env settings taskTitle)) w in
  stopTimeout (this w1) = stopTimeout (this w) /\
  (forall h t, timers (window w1) !! h = Some t -> action t = CallStop ->
     timers (window w) !! h = Some t).
Proof.
  destruct w as [[ctx buf src st li cb] [tm nt so ns ut aw na ca un]].
  destruct settings as [th ac sm data name vol dur loop voice].
  simpl. intros Hdur.
  unfold task, async, playback, tryCatch. simpl.
  unfold mbind, js_bind, mret, js_ret, modify, setTimer. simpl.
  destruct (Z.ltb_spec 0 dur); [lia|]. simpl.
  destruct sm; [| |destruct data as [[|c d]|]]; simpl.
  all: unfold playBell, speakText, playCustom, playBuffer, fallback,
         playBellSound, getContext, startNode, cancel, speak, await, throw,
         tryCatch, gets, mbind, js_bind, mret, js_ret, modify, setTimer;
       simpl.
  all: lazymatch goal with
       | |- context [speechSynthesis ?e] =>
           destruct loop, (speechSynthesis e)
       | |- context [Decode] =>
           destruct ctx as [c0|], (AudioContext env) as [c1|], buf as [b|]
       | |- _ =>
           destruct loop, ctx as [c0|], (AudioContext env) as [c1|]
       end; simpl.
  all: split; [done|]; intros h' t' Hh' Ha; map_cases; simplify_eq/=; done.
Qed.

(** Firing a ceiling timer of an orderly player leaves it silent. *)
Lemma ceiling_silent env w h t :
  orderly env w -> timers (window w) !! h = Some t -> action t = CallStop ->
  silent (step env w (TimerFires h)).
Proof.
  intros Ho Hh Ha. simpl. rewrite Hh, Ha. unfold task, mbind, js_bind.
  destruct (kind t); simpl; rewrite stop_stopped.
  - apply stopped_silent. by apply clearTimer_orderly.
  - by apply stopped_silent.
Qed.

(** The state in which a call of [playNotification] has reached its
    dispatch on [soundMode] is the one [playback] leaves, run from a state
    without ceiling handle and with the timer counter of the call. *)
Lemma dispatched_playback env w settings taskTitle onEnd :
  let w1 := step env w (PlayNotification settings taskTitle onEnd) in
  exists w0,
    match audioContext (this w) with
    | Some suspended => step env w1 (Resumed (nextAwait (window w)))
    | _ => w1
    end = task (async (playback env settings taskTitle)) w0 /\
    nextTimer (window w0) = nextTimer (window w) /\
    stopTimeout (this w0) = None /\
    timers (window w0) = timers (window (stopped env w)).
Proof.
  simpl. rewrite playNotification_unfold. simpl.
  destruct (audioContext (this w)) as [[]|] eqn:Hctx.
  - eexists. split; [reflexivity|]. done.
  - simpl. rewrite lookup_insert_eq.
    unfold task at 1, mbind, js_bind, modify. simpl.
    eexists. split; [reflexivity|]. done.
  - eexists. split; [reflexivity|]. done.
Qed.

(** How the ceiling is armed, and what it stops. Take the state in which a
    call of [playNotification] has reached its dispatch: right after the
    call, or, where the context was suspended, after the awaited
    [resume()]. With [audioDuration > 0] a one-shot timer of that many
    seconds whose closure calls [stop()] is pending there and recorded in
    [stopTimeout]. With [audioDuration <= 0] [stopTimeout] is empty and the
    call armed no ceiling: a ceiling timer pending there was pending before
    the call, and there is none when the player was orderly. After a call
    on an orderly player with nothing parked, whatever happens short of
    another start, a ceiling timer that fires leaves no timer, no utterance
    and no buffer source playing. A decoding that is still parked when the
    ceiling fires is not stopped by it, and starts its source afterwards. *)
Lemma ceiling_arms_and_stops env w settings taskTitle onEnd :
  let w1 := step env w (PlayNotification settings taskTitle onEnd) in
  let dispatched :=
    match audioContext (this w) with
    | Some suspended => step env w1 (Resumed (nextAwait (window w)))
    | _ => w1
    end in
  (0 < audioDuration settings ->
   stopTimeout (this dispatched) = Some (nextTimer (window w)) /\
   timers (window dispatched) !! nextTimer (window w) =
     Some {| kind := Timeout; delay := audioDuration settings * 1000;
             action := CallStop |}) /\
  (audioDuration settings <= 0 ->
   stopTimeout (this dispatched) = None /\
   (forall h t, timers (window dispatched) !! h = Some t ->
      action t = CallStop -> timers (window w) !! h = Some t) /\
   (orderly env w -> noCeiling dispatched)) /\
  (orderly env w -> awaiting (window w) = ∅ ->
   forall trace h t,
     Forall (fun e => isPlayNotification e = false) trace ->
     let w2 := run env w1 trace in
     timers (window w2) !! h = Some t -> action t = CallStop ->
     silent (step env w2 (TimerFires h))).
Proof.
  intros w1 dispatched.
  destruct (dispatched_playback env w settings taskTitle onEnd)
    as (w0 & Hd & Hnt & Hst & Htm).
  change (dispatched = task (async (playback env settings taskTitle)) w0)
    in Hd.
  split; [|split].
  - intros Hdur. rewrite Hd, <- Hnt. by apply playback_arms.
  - intros Hdur. rewrite Hd.
    destruct (playback_unarmed env settings taskTitle w0 Hdur) as [E Hold].
    split; [congruence|]. split.
    + intros h t Hh Ha. specialize (Hold h t Hh Ha). rewrite Htm in Hold.
      simpl in Hold. apply lookup_forget in Hold as [Hold _].
      by apply lookup_forget in Hold as [Hold _].
    + intros Ho h t Hh Ha. specialize (Hold h t Hh Ha). rewrite Htm in Hold.
      destruct (stopped_silent env w Ho) as (Hnone & _).
      by rewrite Hnone, lookup_empty in Hold.
  - intros Ho Hnone trace h t Hf w2 Hh Ha.
    apply ceiling_silent with t; [|done|done].
    apply run_orderly; [|done]. by apply step_orderly.
Qed.

Lemma ceiling_arms_and_stops_example :
  let w1 := step Scenario.desktop initial
              (PlayNotification DEFAULT_SETTINGS "Standup" (Some 1%nat)) in
  timers (window w1) !! 1%positive =
    Some {| kind := Timeout; delay := 30000; action := CallStop |} /\
  silent (step Scenario.desktop
            (run Scenario.desktop w1 [TimerFires 2; SourceEnds 0; TimerFires 2])
            (TimerFires 1)) /\
  stopTimeout (this (step Scenario.desktop initial
                       (PlayNotification uncapped "Standup" (Some 1%nat))))
    = None.
Proof.
  destruct (ceiling_arms_and_stops Scenario.desktop initial DEFAULT_SETTINGS
              "Standup" (Some 1%nat)) as (Harm & _ & Hsil).
  destruct (ceiling_arms_and_stops Scenario.desktop initial uncapped
              "Standup" (Some 1%nat)) as (_ & Hoff & _).
  split; [|split].
  - apply Harm. reflexivity.
  - apply (Hsil (initial_orderly Scenario.desktop) eq_refl
             [TimerFires 2; SourceEnds 0; TimerFires 2] 1%positive
             {| kind := Timeout; delay := 30000; action := CallStop |}).
    + repeat constructor.
    + reflexivity.
    + reflexivity.
  - apply Hoff. discriminate.
Defined.

End PlayerClaims.

(** * Texts *)

Section TextFacts.

Import Text.

Lemma append_cons c s t : String c s +:+ t = String c (s +:+ t).
Proof. reflexivity. Qed.

Lemma append_assoc s t u : (s +:+ t) +:+ u = s +:+ (t +:+ u).
Proof. induction s as [|c s IH]; [done|]. by rewrite !append_cons, IH. Qed.

Lemma append_length s t :
  String.length (s +:+ t) = (String.length s + String.length t)%nat.
Proof. induction s as [|c s IH]; [done|]. rewrite append_cons. simpl. by rewrite IH. Qed.

Lemma revOnto_app s t acc : revOnto (s +:+ t) acc = revOnto t (revOnto s acc).
Proof. revert acc. induction s as [|c s IH]; intros acc; [done|].
  rewrite append_cons. simpl. apply IH.
Qed.

Lemma revOnto_acc s acc : revOnto s acc = reverse s +:+ acc.
Proof.
  unfold reverse. revert acc. induction s as [|c s IH]; intros acc; [done|].
  simpl. rewrite IH, (IH (String c "")).
  by rewrite append_assoc.
Qed.

Lemma reverse_app s t : reverse (s +:+ t) = reverse t +:+ reverse s.
Proof. unfold reverse at 1. by rewrite revOnto_app, revOnto_acc. Qed.

Lemma reverse_involutive s : reverse (reverse s) = s.
Proof.
  induction s as [|c s IH]; [done|].
  change (String c s) with (String c "" +:+ s) at 1.
  rewrite reverse_app, reverse_app. by rewrite IH.
Qed.

Lemma reverse_length s : String.length (reverse s) = String.length s.
Proof.
  induction s as [|c s IH]; [done|].
  change (String c s) with (String c "" +:+ s) at 1.
  rewrite reverse_app, append_length, IH. simpl. lia.
Qed.

Lemma trimStart_length s :
  trimStart s = s \/ (String.length (trimStart s) < String.length s)%nat.
Proof.
  induction s as [|c s IH]; [by left|]. simpl.
  destruct (isWhiteSpace c); [|by left]. right. destruct IH as [->|IH]; lia.
Qed.

Lemma trimEnd_length s : (String.length (trimEnd s) <= String.length s)%nat.
Proof.
  unfold trimEnd. rewrite reverse_length.
  destruct (trimStart_length (reverse s)) as [->|H];
    rewrite <- (reverse_length s); lia.
Qed.

(** A text that [trim] leaves alone starts with no white space. *)
Lemma trim_fixed_start s : trim s = s -> trimStart s = s.
Proof.
  unfold trim. intros H. destruct (trimStart_length s) as [E|E]; [done|].
  pose proof (trimEnd_length (trimStart s)) as L. rewrite H in L. lia.
Qed.

Lemma trim_fixed_end s : trim s = s -> trimEnd s = s.
Proof. intros H. pose proof (trim_fixed_start s H) as E. unfold trim in H. by rewrite E in H. Qed.

Lemma trimStart_app s t :
  s <> "" -> trimStart s = s -> trimStart (s +:+ t) = s +:+ t.
Proof.
  destruct s as [|c s]; [done|]. rewrite append_cons. simpl. intros _ H.
  destruct (isWhiteSpace c) eqn:E; [|done].
  exfalso. destruct (trimStart_length s) as [E'|E'].
  - rewrite E' in H. apply (f_equal String.length) in H. simpl in H. lia.
  - apply (f_equal String.length) in H. simpl in H. lia.
Qed.

Lemma reverse_nonempty s : s <> "" -> reverse s <> "".
Proof.
  intros H E. apply (f_equal String.length) in E.
  rewrite reverse_length in E. destruct s; [done|]. simpl in E. lia.
Qed.

Lemma trimEnd_app s t :
  t <> "" -> trimEnd t = t -> trimEnd (s +:+ t) = s +:+ t.
Proof.
  intros Hne H. unfold trimEnd in *. rewrite reverse_app.
  rewrite trimStart_app.
  - by rewrite <- reverse_app, reverse_involutive.
  - by apply reverse_nonempty.
  - apply (f_equal reverse) in H. by rewrite reverse_involutive in H.
Qed.

(** [trim] leaves a text alone that begins and ends with texts it leaves
    alone. *)
Lemma trim_app s m t :
  s <> "" -> trim s = s -> t <> "" -> trim t = t ->
  trim (s +:+ m +:+ t) = s +:+ m +:+ t.
Proof.
  intros Hs Es Ht Et. unfold trim.
  rewrite trimStart_app; [|done|by apply trim_fixed_start].
  rewrite <- append_assoc. apply trimEnd_app; [done|].
  by apply trim_fixed_end.
Qed.

Lemma split_cons sep s : exists piece pieces, split sep s = piece :: pieces.
Proof.
  induction s as [|c s (p & ps & IH)]; simpl; [eauto|].
  destruct (Ascii.eqb c sep); [eauto|]. rewrite IH. eauto.
Qed.

Lemma includes_char_cons sep c s :
  includes (String sep "") (String c s) = false ->
  Ascii.eqb c sep = false /\ includes (String sep "") s = false.
Proof.
  simpl. intros [Hc Hs]%orb_false_iff. split; [|done].
  destruct (Ascii.eqb_spec c sep) as [->|N]; [|done].
  destruct (ascii_dec sep sep); [|done]. by destruct s.
Qed.

(** A text without the separator is its own single piece. *)
Lemma split_none sep s :
  includes (String sep "") s = false -> split sep s = [s].
Proof.
  induction s as [|c s IH]; [done|].
  intros [Hc Hs]%includes_char_cons. simpl. by rewrite Hc, IH.
Qed.

Lemma split_app sep s t :
  includes (String sep "") s = false ->
  split sep (s +:+ String sep t) = s :: split sep t.
Proof.
  induction s as [|c s IH].
  - intros _. simpl. by rewrite Ascii.eqb_refl.
  - intros [Hc Hs]%includes_char_cons. rewrite append_cons. simpl.
    by rewrite Hc, IH.
Qed.

End TextFacts.

(** * Importing tasks *)

Section CsvFacts.

Import Text Csv Scanner.

Variable randomUUID : nat -> string.
Variable dateNow : nat -> Z.
Variable today : string.

#[local] Abbreviation row := (Csv.row randomUUID dateNow today).
#[local] Abbreviation rows := (Csv.rows randomUUID dateNow today).
#[local] Abbreviation parse := (Csv.parse randomUUID dateNow today).
#[local] Abbreviation handleImportCSV := (Csv.handleImportCSV randomUUID dateNow today).

Lemma digit_neq c d : isDigit c = true -> isDigit d = false -> Ascii.eqb c d = false.
Proof. intros Hc Hd. destruct (Ascii.eqb_spec c d) as [->|]; congruence. Qed.

(** The normalised time of a text the pattern accepts has two digits on
    each side of the colon. *)
Lemma formatTime_padded time :
  matchesTime time = true -> isPaddedTime (formatTime time) = true.
Proof.
  destruct time as [|a [|b [|c [|d [|e [|f time]]]]]]; try done; simpl.
  - rewrite !andb_true_iff. intros [[[Ha Hb] Hc] Hd].
    apply Ascii.eqb_eq in Hb. subst b. unfold formatTime. simpl.
    rewrite (digit_neq a ":"), (digit_neq c ":"), (digit_neq d ":") by done.
    cbv [nth padStart String.length Nat.sub repeatChar String.append isPaddedTime].
    by rewrite Ha, Hc, Hd.
  - rewrite !andb_true_iff. intros [[[[Ha Hb] Hc] Hd] He].
    apply Ascii.eqb_eq in Hc. subst c. unfold formatTime. simpl.
    rewrite (digit_neq a ":"), (digit_neq b ":"), (digit_neq d ":"),
      (digit_neq e ":") by done.
    cbv [nth padStart String.length Nat.sub repeatChar String.append isPaddedTime].
    by rewrite Ha, Hb, Hd, He.
Qed.

Lemma formatDate_cases dateInput :
  formatDate today dateInput = today \/
  matchesDate (formatDate today dateInput) = true.
Proof.
  destruct dateInput as [d|]; [|by left]. simpl.
  destruct (truthy d); [|by left]. simpl.
  destruct (matchesDate d) eqn:E; [by right|by left].
Qed.

Lemma row_imported i k line t : row i k line = Some t -> imported today t.
Proof.
  unfold Csv.row. destruct (negb _); [done|].
  destruct (_ !! 1%nat) as [time|]; [|done].
  destruct (truthy (nth 0 _ "")) eqn:Ht; [|done].
  destruct (truthy time); [|done]. simpl.
  destruct (matchesTime time) eqn:Hm; [|done].
  intros [= <-]. split; simpl; try done.
  - intros E. by rewrite E in Ht.
  - by apply formatTime_padded.
  - apply formatDate_cases.
Qed.

Lemma rows_imported i k lines : Forall (imported today) (rows i k lines).
Proof.
  revert i k. induction lines as [|line lines IH]; intros i k; simpl; [done|].
  destruct (row i k line) eqn:E; [|done].
  constructor; [by eapply row_imported|done].
Qed.

Lemma rows_length i k lines : (length (rows i k lines) <= length lines)%nat.
Proof.
  revert i k. induction lines as [|line lines IH]; intros i k; simpl; [done|].
  destruct (row i k line); simpl.
  - specialize (IH (S i) (S k)). lia.
  - specialize (IH (S i) k). lia.
Qed.

Lemma row_stamp i k line t :
  row i k line = Some t ->
  id t = randomUUID k /\ createdAt t = Some (dateNow k + Z.of_nat i).
Proof.
  unfold Csv.row. destruct (negb _); [done|].
  destruct (_ !! 1%nat) as [time|]; [|done].
  destruct (_ && _); [|done]. by intros [= <-].
Qed.

Lemma rows_lookup i k lines j t :
  rows i k lines !! j = Some t ->
  exists i', (i + j <= i')%nat /\ id t = randomUUID (k + j) /\
    createdAt t = Some (dateNow (k + j) + Z.of_nat i').
Proof.
  revert i k j. induction lines as [|line lines IH]; intros i k j; [done|].
  simpl. destruct (row i k line) as [t0|] eqn:E.
  - destruct j as [|j]; simpl.
    + intros [= ->]. destruct (row_stamp _ _ _ _ E) as [Hid Hst].
      exists i. rewrite !Nat.add_0_r. split; [lia|done].
    + intros (i' & Hi & Hid & Hst)%IH. exists i'.
      replace (k + S j)%nat with (S k + j)%nat by lia. split; [lia|done].
  - intros (i' & Hi & Hid & Hst)%IH. exists i'. split; [lia|done].
Qed.

Lemma rows_stamps i k lines a b ta tb :
  (a < b)%nat ->
  rows i k lines !! a = Some ta -> rows i k lines !! b = Some tb ->
  exists ia ib, (ia < ib)%nat /\
    createdAt ta = Some (dateNow (k + a) + Z.of_nat ia) /\
    createdAt tb = Some (dateNow (k + b) + Z.of_nat ib).
Proof.
  revert i k a b. induction lines as [|line lines IH]; intros i k a b Hab; [done|].
  simpl. destruct (row i k line) as [t0|] eqn:E; [|by apply IH].
  destruct b as [|b]; [lia|]. destruct a as [|a]; simpl.
  - intros [= ->] (ib & Hib & _ & Hst)%rows_lookup.
    destruct (row_stamp _ _ _ _ E) as [_ Hst0].
    exists i, ib. rewrite !Nat.add_0_r.
    replace (k + S b)%nat with (S k + b)%nat by lia. split; [lia|done].
  - intros Ha Hb.
    destruct (IH (S i) (S k) a b ltac:(lia) Ha Hb) as (ia & ib & H & Hsa & Hsb).
    exists ia, ib.
    replace (k + S a)%nat with (S k + a)%nat by lia.
    replace (k + S b)%nat with (S k + b)%nat by lia. done.
Qed.

(** A row of two fields, each as [trim] leaves it and free of commas. *)
Lemma row_two_fields i k name tt :
  name <> "" -> trim name = name -> includes "," name = false ->
  tt <> "" -> trim tt = tt -> includes "," tt = false ->
  matchesTime tt = true ->
  row i k (name +:+ "," +:+ tt) =
    Some {| id := randomUUID k; title := name; time := formatTime tt;
            date := today; priority := medium; completed := false;
            notified := None; createdAt := Some (dateNow k + Z.of_nat i) |}.
Proof.
  intros Hn Tn Cn Ht Tt Ct Mt. unfold Csv.row.
  rewrite trim_app by done.
  change ("," +:+ tt) with (String "," tt).
  rewrite split_app, (split_none _ tt) by done. simpl.
  rewrite Tn, Tt, Mt.
  destruct name; [done|]. by destruct tt.
Qed.

Lemma range_check (P : Z -> Z -> bool) (H M : nat) :
  forallb (fun h => forallb (P h) (Z.of_nat <$> seq 0 M))
    (Z.of_nat <$> seq 0 H) = true ->
  forall h m, 0 <= h < Z.of_nat H -> 0 <= m < Z.of_nat M -> P h m = true.
Proof.
  intros Hall h m Hh Hm.
  rewrite forallb_forall in Hall.
  assert (In h (Z.of_nat <$> seq 0 H)) as Ih.
  { apply in_map_iff. exists (Z.to_nat h). split; [lia|]. apply in_seq. lia. }
  specialize (Hall h Ih). rewrite forallb_forall in Hall. apply Hall.
  apply in_map_iff. exists (Z.to_nat m). split; [lia|]. apply in_seq. lia.
Qed.

(** The time of a valid clock reading, typed either way, is a field the
    import accepts and normalises to what the tick will compare with. *)
Lemma clockText_accepted padded now :
  validClock now ->
  clockText padded now <> "" /\ trim (clockText padded now) = clockText padded now /\
  includes "," (clockText padded now) = false /\
  matchesTime (clockText padded now) = true /\
  formatTime (clockText padded now) = currentTime now.
Proof.
  intros (_ & _ & _ & Hh & Hm).
  pose (P := fun h m : Z =>
    let now := mkLocalTime 0 0 0 h m 0 in
    forallb (fun padded =>
      let tt := clockText padded now in
      negb (tt =? "")%string && (trim tt =? tt)%string &&
      negb (includes "," tt) && matchesTime tt &&
      (formatTime tt =? currentTime now)%string) [true; false]).
  assert (P (getHours now) (getMinutes now) = true) as HP.
  { apply (range_check P 24 60); [by vm_compute|lia|lia]. }
  unfold P in HP. rewrite forallb_forall in HP.
  specialize (HP padded ltac:(destruct padded; simpl; tauto)).
  change (clockText padded (mkLocalTime 0 0 0 (getHours now) (getMinutes now) 0))
    with (clockText padded now) in HP.
  change (currentTime (mkLocalTime 0 0 0 (getHours now) (getMinutes now) 0))
    with (currentTime now) in HP.
  simpl in HP. rewrite !andb_true_iff, !negb_true_iff in HP.
  destruct HP as [[[[H1 H2] H3] H4] H5].
  apply String.eqb_neq in H1. apply String.eqb_eq in H2, H5. done.
Qed.

(** A two-digit hour and minute of which one is out of range make a field
    the import accepts and keeps, and no time of day. *)
Lemma wrongText_accepted written :
  0 <= getHours written <= 99 -> 0 <= getMinutes written <= 99 ->
  23 < getHours written \/ 59 < getMinutes written ->
  currentTime written <> "" /\ trim (currentTime written) = currentTime written /\
  includes "," (currentTime written) = false /\
  matchesTime (currentTime written) = true /\
  parseTime (formatTime (currentTime written)) = None.
Proof.
  intros Hh Hm Hout.
  pose (P := fun h m : Z =>
    let tt := currentTime (mkLocalTime 0 0 0 h m 0) in
    negb (tt =? "")%string && (trim tt =? tt)%string &&
    negb (includes "," tt) && matchesTime tt &&
    ((h <=? 23) && (m <=? 59) ||
     match parseTime (formatTime tt) with None => true | Some _ => false end)).
  assert (P (getHours written) (getMinutes written) = true) as HP.
  { apply (range_check P 100 100); [by vm_compute|lia|lia]. }
  unfold P in HP.
  change (currentTime (mkLocalTime 0 0 0 (getHours written) (getMinutes written) 0))
    with (currentTime written) in HP.
  simpl in HP. rewrite !andb_true_iff, !negb_true_iff in HP.
  destruct HP as [[[[H1 H2] H3] H4] H5].
  apply String.eqb_neq in H1. apply String.eqb_eq in H2.
  repeat split; try done.
  apply orb_true_iff in H5 as [H5|H5].
  - apply andb_true_iff in H5 as [?%Z.leb_le ?%Z.leb_le]. lia.
  - by destruct (parseTime _).
Qed.

(** X1. Whatever the file holds, the import keeps the tasks there were, in
    their order, and puts the new ones after them; there are at most as many
    new tasks as lines; and each is open, not yet notified, titled, with a
    time of two digits, a colon and two digits, a date that is today's or of
    the shape [YYYY-MM-DD], and a creation stamp. *)
Theorem import_appends_wellformed_tasks text prev :
  (handleImportCSV text prev).1 = prev ++ parse text /\
  (length (parse text) <= length (split "010" text))%nat /\
  Forall (imported today) (parse text).
Proof.
  split; [|split].
  - unfold Csv.handleImportCSV. destruct (parse text); simpl; [|done].
    by rewrite app_nil_r.
  - unfold Csv.parse. etransitivity; [apply rows_length|].
    rewrite length_drop. lia.
  - apply rows_imported.
Qed.

(** X2. Import composed with the tick: a line of the file that holds a
    title and the time of a clock reading, the hour typed with or without
    its leading zero, and that is not taken for the header (it is not the
    first line, or does not contain [title]) adds to the collection a task
    with that title which the tick finds due at that reading on the day of
    the import. *)
Theorem imported_row_is_due_at_its_time now padded name text before after prev :
  validClock now -> today = currentDate now ->
  name <> "" -> trim name = name -> includes "," name = false ->
  let line := name +:+ "," +:+ clockText padded now in
  split "010" text = before ++ line :: after ->
  before <> [] \/ includes "title" (toLowerCase line) = false ->
  exists t,
    t ∈ (handleImportCSV text prev).1 /\ t ∈ parse text /\
    title t = name /\ isDue now t = true.
Proof.
  intros Hv Hd Hn Tn Cn line Hsplit Hhead.
  destruct (clockText_accepted padded now Hv) as (H1 & H2 & H3 & H4 & H5).
  assert (forall i k, exists t,
            row i k line = Some t /\ title t = name /\ isDue now t = true)
    as Hrow.
  { intros i k. eexists. split; [by apply row_two_fields|]. split; [done|].
    by apply unnotified_isDue. }
  assert (forall l1 i k, exists t,
            t ∈ rows i k (l1 ++ line :: after) /\ title t = name /\
            isDue now t = true) as Hrows.
  { induction l1 as [|l l1 IH]; intros i k; simpl.
    - destruct (Hrow i k) as (t & -> & Ht). exists t. split; [by left|done].
    - destruct (row i k l) as [t0|].
      + destruct (IH (S i) (S k)) as (t & Hin & Ht). exists t.
        split; [by right|done].
      + apply IH. }
  assert (exists t, t ∈ parse text /\ title t = name /\ isDue now t = true)
    as (t & Hin & Ht).
  { unfold Csv.parse. rewrite Hsplit.
    destruct before as [|b before].
    - destruct Hhead as [|Hh]; [done|]. simpl. rewrite Hh.
      apply (Hrows [] 0%nat 0%nat).
    - simpl nth. destruct (includes "title" (toLowerCase b)).
      + apply (Hrows before 1%nat 0%nat).
      + apply (Hrows (b :: before) 0%nat 0%nat). }
  exists t. split; [|done]. unfold Csv.handleImportCSV.
  destruct (parse text) as [|t0 l]; [by apply elem_of_nil in Hin|].
  simpl. apply elem_of_app. by right.
Qed.

(** X3. The import checks the shape of a time, not its range: a row whose
    hour is above 23 or whose minute is above 59 is imported like any other,
    and the task it makes is due at no clock reading. *)
Theorem out_of_range_time_is_imported_never_due written name i k :
  0 <= getHours written <= 99 -> 0 <= getMinutes written <= 99 ->
  23 < getHours written \/ 59 < getMinutes written ->
  name <> "" -> trim name = name -> includes "," name = false ->
  exists t,
    row i k (name +:+ "," +:+ currentTime written) = Some t /\
    time t = currentTime written /\
    forall now, validClock now -> isDue now t = false.
Proof.
  intros Hh Hm Hout Hn Tn Cn.
  destruct (wrongText_accepted written Hh Hm Hout) as (H1 & H2 & H3 & H4 & H5).
  eexists. split; [by apply row_two_fields|].
  assert (formatTime (currentTime written) = currentTime written) as E.
  { unfold currentTime. rewrite !padStart_2 by lia. unfold formatTime. simpl.
    rewrite !digit_neq; try done.
    all: unfold digitChar, isDigit, codeUnit.
    all: rewrite N_ascii_embedding by
      (pose proof (Z.div_pos (getHours written) 10);
       pose proof (Z.div_pos (getMinutes written) 10);
       Z.to_euclidean_division_equations; lia).
    all: apply andb_true_iff; split; apply N.leb_le;
      Z.to_euclidean_division_equations; lia. }
  split; [done|].
  intros now Hv. apply malformed_not_due; [done|]. right. simpl. by rewrite E in H5 |- *.
Qed.

(** X4. A first line that contains [title], in any case, is taken for the
    header: what it holds is not imported, although the same line is a row
    like any other anywhere else in the file. *)
Theorem first_line_with_title_is_dropped line prev :
  includes (String "010" "") line = false ->
  includes "title" (toLowerCase line) = true ->
  handleImportCSV line prev =
    (prev, "No valid tasks found. Format: Title, Time (HH:mm), [Date (YYYY-MM-DD)], [Priority]") /\
  forall t, row 1 0 line = Some t ->
    handleImportCSV (String "010" line) prev =
      (prev ++ [t], "Imported 1 tasks successfully.").
Proof.
  intros Hnl Hti. split.
  - unfold Csv.handleImportCSV, Csv.parse. rewrite split_none by done.
    simpl. by rewrite Hti.
  - intros t Ht. unfold Csv.handleImportCSV, Csv.parse.
    change (String "010" line) with ("" +:+ String "010" line).
    rewrite split_app by done. rewrite split_none by done. simpl.
    by rewrite Ht.
Qed.

(** X5. The tasks of one import carry the identifiers in the order they were
    drawn and, as long as the clock does not run backwards during the
    import, creation stamps that grow strictly from row to row. *)
Theorem import_stamps_increase text a b ta tb :
  (forall j k, (j <= k)%nat -> dateNow j <= dateNow k) ->
  (a < b)%nat ->
  parse text !! a = Some ta -> parse text !! b = Some tb ->
  id ta = randomUUID a /\ id tb = randomUUID b /\
  exists ca cb, createdAt ta = Some ca /\ createdAt tb = Some cb /\ ca < cb.
Proof.
  intros Hmono Hab Ha Hb. unfold Csv.parse in *.
  destruct (rows_lookup _ _ _ _ _ Ha) as (_ & _ & Hia & _).
  destruct (rows_lookup _ _ _ _ _ Hb) as (_ & _ & Hib & _).
  destruct (rows_stamps _ _ _ _ _ _ _ Hab Ha Hb) as (ia & ib & Hlt & Hsa & Hsb).
  split; [done|]. split; [done|].
  eexists _, _. split; [done|]. split; [done|].
  specialize (Hmono (0 + a)%nat (0 + b)%nat ltac:(lia)). lia.
Qed.

End CsvFacts.

Lemma imported_row_is_due_at_its_time_witness :
  let text := "Title,Time" +:+ String "010" "" +:+ "Water plants,9:00" in
  exists t,
    t ∈ (Csv.handleImportCSV (fun _ => "7f3a") (fun _ => 1709629200000)
           (currentDate Scenario.at0900) text [Scenario.lunch]).1 /\
    t ∈ Csv.parse (fun _ => "7f3a") (fun _ => 1709629200000)
          (currentDate Scenario.at0900) text /\
    title t = "Water plants" /\ Scanner.isDue Scenario.at0900 t = true.
Proof.
  assert (validClock Scenario.at0900) as V0 by (vm_compute; intuition discriminate).
  apply (imported_row_is_due_at_its_time (fun _ => "7f3a") (fun _ => 1709629200000)
           (currentDate Scenario.at0900) Scenario.at0900 false "Water plants"
           ("Title,Time" +:+ String "010" "" +:+ "Water plants,9:00")
           ["Title,Time"] [] [Scenario.lunch] V0 eq_refl);
    [done|reflexivity|reflexivity|reflexivity|left; discriminate].
Defined.

Lemma out_of_range_time_is_imported_never_due_witness :
  exists t,
    Csv.row (fun _ => "7f3a") (fun _ => 1709629200000) "2024-03-05" 1 0
      "Water plants,25:99" = Some t /\
    time t = "25:99" /\
    forall now, validClock now -> Scanner.isDue now t = false.
Proof.
  apply (out_of_range_time_is_imported_never_due (fun _ => "7f3a")
           (fun _ => 1709629200000) "2024-03-05" (mkLocalTime 2024 2 5 25 99 0)
           "Water plants" 1%nat 0%nat);
    [simpl; lia|simpl; lia|left; simpl; lia|done|reflexivity|reflexivity].
Defined.

Lemma first_line_with_title_is_dropped_witness :
  (Csv.handleImportCSV (fun _ => "7f3a") (fun _ => 1709629200000) "2024-03-05"
     "Subtitle review,10:00" []).1 = [] /\
  length (Csv.handleImportCSV (fun _ => "7f3a") (fun _ => 1709629200000)
            "2024-03-05" (String "010" "Subtitle review,10:00") []).1 = 1%nat.
Proof.
  destruct (first_line_with_title_is_dropped (fun _ => "7f3a")
              (fun _ => 1709629200000) "2024-03-05" "Subtitle review,10:00" []
              eq_refl eq_refl) as [H1 H2].
  split; [by rewrite H1|].
  by rewrite (H2 _ eq_refl).
Defined.

Lemma import_stamps_increase_witness :
  exists ta tb ca cb,
    Csv.parse (fun k => numberToString (Z.of_nat k)) (fun _ => 1709629200000)
      "2024-03-05" Csv.template !! 0%nat = Some ta /\
    Csv.parse (fun k => numberToString (Z.of_nat k)) (fun _ => 1709629200000)
      "2024-03-05" Csv.template !! 2%nat = Some tb /\
    createdAt ta = Some ca /\ createdAt tb = Some cb /\ ca < cb.
Proof.
  eexists _, _.
  destruct (import_stamps_increase (fun k => numberToString (Z.of_nat k))
              (fun _ => 1709629200000) "2024-03-05" Csv.template 0%nat 2%nat
              _ _ ltac:(done) ltac:(lia) eq_refl eq_refl)
    as (_ & _ & ca & cb & Ha & Hb & Hlt).
  exists ca, cb. done.
Defined.

(** * More of the alert player *)

Ltac player :=
  unfold task, async, playback, playNotification, playBell, speakText,
    playCustom, playCustomResumed, playBuffer, fallback, playBellSound,
    getContext, clearCustomCache, runTimer, runEndHandler, startNode,
    stopNode, clearTimer, setTimer, cancel, speak, call, await, throw,
    tryCatch, gets, mbind, js_bind, mret, js_ret, modify;
  simpl.

Section PlayerFacts.

Variable env : Platform.

(** Starting the sound calls no closure and registers none. *)
Lemma playback_frame settings taskTitle w :
  let w1 := task (async (playback env settings taskTitle)) w in
  called (window w1) = called (window w) /\
  onPlaybackEnd (this w1) = onPlaybackEnd (this w).
Proof.
  destruct w as [[ctx buf src st li cb] [tm nt so ns ut aw na ca un]].
  destruct settings as [th ac sm data name vol dur loop voice].
  player.
  destruct (0 <? dur); simpl.
  all: destruct sm; [| |destruct data as [[|c d]|]]; simpl.
  all: destruct loop, (speechSynthesis env), ctx as [c0|],
         (AudioContext env) as [c1|], buf as [b|]; simpl; done.
Qed.

Lemma playCustomResumed_frame decoded volume loop w :
  let w1 := task (async (playCustomResumed env decoded volume loop)) w in
  called (window w1) = called (window w) /\
  onPlaybackEnd (this w1) = onPlaybackEnd (this w).
Proof.
  destruct w as [[ctx buf src st li cb] [tm nt so ns ut aw na ca un]].
  player.
  destruct decoded, ctx as [c0|], (AudioContext env) as [c1|]; simpl; done.
Qed.

Lemma playNotification_frame settings taskTitle onEnd w :
  let w1 := step env w (PlayNotification settings taskTitle onEnd) in
  called (window w1) = called (window w) ++ Closures.registered w /\
  onPlaybackEnd (this w1) = onEnd.
Proof.
  simpl. rewrite playNotification_unfold. simpl.
  assert (called (window (stopped env w)) =
          called (window w) ++ Closures.registered w) as Hc.
  { unfold Closures.registered. simpl.
    destruct (onPlaybackEnd (this w)); [done|by rewrite app_nil_r]. }
  destruct (audioContext (this w)) as [[]|].
  2: by rewrite <- Hc.
  all: destruct (playback_frame settings taskTitle
                   (onThis (setOnPlaybackEnd onEnd) (stopped env w)))
         as [H1 H2]; simpl in H1, H2; by rewrite H1, H2, <- Hc.
Qed.

Lemma step_frame w e :
  called (window (step env w e)) =
    called (window w) ++
    (if Closures.reaches w e then Closures.registered w else []) /\
  (onPlaybackEnd (this (step env w e)) =
     match e with
     | PlayNotification _ _ onEnd => onEnd
     | UtteranceEnds => onPlaybackEnd (this w)
     | _ => if Closures.reaches w e then None else onPlaybackEnd (this w)
     end).
Proof.
  destruct e as [settings taskTitle onEnd| | |h| |i|k|k ok|state].
  - apply playNotification_frame.
  - simpl. unfold task. rewrite stop_stopped. simpl.
    unfold Closures.registered.
    destruct (onPlaybackEnd (this w)); [done|by rewrite app_nil_r].
  - simpl. by rewrite app_nil_r.
  - simpl. destruct (timers (window w) !! h) as [t|] eqn:Ht;
      [|by rewrite app_nil_r].
    destruct w as [[ctx buf src st li cb] [tm nt so ns ut aw na ca un]].
    destruct t as [kd dl [|g|tx g vo]]; simpl in *.
    + unfold task, mbind, js_bind. unfold Closures.registered. simpl.
      destruct kd; player; rewrite stop_stopped; simpl;
        destruct cb; simpl; rewrite ?app_nil_r; done.
    + destruct kd; player;
        destruct ctx as [c0|], (AudioContext env) as [c1|]; simpl;
        by rewrite app_nil_r.
    + destruct kd; player; destruct (speechSynthesis env); simpl;
        by rewrite app_nil_r.
  - simpl. destruct w as [[ctx buf src st li cb] [tm nt so ns ut aw na ca un]].
    simpl. destruct ut as [|u queue]; simpl; [by rewrite app_nil_r|].
    unfold Closures.registered. simpl.
    destruct (onend u) as [[tx g vo|]|]; player; [by rewrite app_nil_r| |by rewrite app_nil_r].
    destruct cb; simpl; by rewrite ?app_nil_r.
  - simpl. rewrite app_nil_r.
    destruct (sources (window w) !! i) as [s|]; [|done].
    by destruct (endsByItself s).
  - simpl. rewrite app_nil_r.
    destruct (awaiting (window w) !! k) as [[settings taskTitle|]|] eqn:Hk;
      try done.
    unfold task, mbind, js_bind. unfold modify at 1 2 3 4. simpl.
    match goal with
    | |- context [async (playback env settings taskTitle) ?w0] =>
        pose proof (playback_frame settings taskTitle w0) as [H1 H2];
        unfold task in H1, H2;
        destruct (async (playback env settings taskTitle) w0) as [[[]|err] w1] eqn:E
    end; simpl in *; by rewrite ?H1, ?H2.
  - simpl. rewrite app_nil_r.
    destruct (awaiting (window w) !! k) as [[|base64Data volume loop]|] eqn:Hk;
      try done.
    unfold task, mbind, js_bind. unfold modify at 1 2. simpl.
    match goal with
    | |- context [async ?m ?w0] =>
        pose proof (playCustomResumed_frame
                      (if ok then Some base64Data else None) volume loop w0)
          as [H1 H2];
        unfold task in H1, H2;
        destruct (async m w0) as [[[]|err] w1] eqn:E
    end; simpl in *; by rewrite ?H1, ?H2.
  - simpl. rewrite app_nil_r. by destruct (audioContext (this w)).
Qed.

Lemma playback_utterances settings taskTitle w u :
  u ∈ utterances (window (task (async (playback env settings taskTitle)) w)) ->
  u ∈ utterances (window w) \/
  (Closures.spokenOnce settings = true <-> onend u = Some NaturalEnd).
Proof.
  destruct w as [[ctx buf src st li cb] [tm nt so ns ut aw na ca un]].
  destruct settings as [th ac sm data name vol dur loop voice].
  unfold Closures.spokenOnce. player.
  destruct (0 <? dur); simpl.
  all: destruct sm; [| |destruct data as [[|c d]|]]; simpl.
  all: destruct loop, (speechSynthesis env), ctx as [c0|],
         (AudioContext env) as [c1|], buf as [b|]; simpl; auto.
  all: intros ->%list_elem_of_singleton; right; simpl; split; congruence.
Qed.

Lemma playback_awaiting settings taskTitle w k s t :
  awaiting (window (task (async (playback env settings taskTitle)) w)) !! k
    = Some (Resume s t) ->
  awaiting (window w) !! k = Some (Resume s t).
Proof.
  destruct w as [[ctx buf src st li cb] [tm nt so ns ut aw na ca un]].
  destruct settings as [th ac sm data name vol dur loop voice].
  player.
  destruct (0 <? dur); simpl.
  all: destruct sm; [| |destruct data as [[|c d]|]]; simpl.
  all: destruct loop, (speechSynthesis env), ctx as [c0|],
         (AudioContext env) as [c1|], buf as [b|]; simpl; auto.
  all: intros H; apply lookup_insert_Some in H as [[_ [=]]|[_ H]]; done.
Qed.

Lemma stopped_looping w : Closures.looping w -> Closures.looping (stopped env w).
Proof.
  intros [Hu Ha]. split; simpl; [|done].
  destruct (speechSynthesis env); [|done]. by intros u ?%elem_of_nil.
Qed.

Lemma step_looping w e :
  Closures.looping w -> Closures.startsSpokenOnce e = false ->
  Closures.looping (step env w e).
Proof.
  intros Hl He.
  destruct e as [settings taskTitle onEnd| | |h| |i|k|k ok|state]; simpl.
  - rewrite playNotification_unfold. simpl.
    pose proof (stopped_looping w Hl) as [Hu Ha].
    assert (Closures.looping
              (onThis (setOnPlaybackEnd onEnd) (stopped env w))) as Hl1
      by (split; simpl; done).
    destruct (audioContext (this w)) as [[]|].
    2: { split; simpl.
         - apply Hu.
         - intros k s t [[_ [= <- <-]]|[_ H]]%lookup_insert_Some; [done|].
           by eapply Ha. }
    all: split.
    all: try (intros u [H|H]%playback_utterances; [by apply Hl1|];
              simpl in He; intros E; apply H in E; congruence).
    all: intros k s t H%playback_awaiting; by eapply Hl1.
  - unfold task. rewrite stop_stopped. by apply stopped_looping.
  - done.
  - destruct (timers (window w) !! h) as [t|] eqn:Ht; [|done].
    destruct w as [[ctx buf src st li cb] [tm nt so ns ut aw na ca un]].
    destruct Hl as [Hu Ha]. simpl in *.
    destruct t as [kd dl [|g|tx g vo]]; simpl in *.
    + unfold task, mbind, js_bind.
      destruct kd; player; rewrite stop_stopped; simpl;
        (split; simpl; [|done]);
        destruct (speechSynthesis env); try done;
        by intros u ?%elem_of_nil.
    + destruct kd; player;
        destruct ctx as [c0|], (AudioContext env) as [c1|]; simpl;
        by split.
    + destruct kd; player; destruct (speechSynthesis env); simpl;
        (split; simpl; [|done]); try done;
        by intros u ->%list_elem_of_singleton.
  - destruct w as [[ctx buf src st li cb] [tm nt so ns ut aw na ca un]].
    destruct Hl as [Hu Ha]. simpl in *.
    destruct ut as [|u queue]; simpl; [by split|].
    assert (forall u', u' ∈ queue -> onend u' <> Some NaturalEnd) as Hq.
    { intros u' H. apply Hu. by right. }
    destruct (onend u) as [[tx g vo|]|]; player; [by split| |by split].
    destruct cb; simpl; by split.
  - destruct (sources (window w) !! i) as [s|]; [|done].
    destruct (endsByItself s); [|done]. by destruct Hl.
  - destruct (awaiting (window w) !! k) as [[settings taskTitle|]|] eqn:Hk;
      try done.
    destruct Hl as [Hu Ha].
    unfold task, mbind, js_bind. unfold modify at 1 2. simpl.
    match goal with
    | |- context [async (playback env settings taskTitle) ?w0] =>
        pose proof (fun u => playback_utterances settings taskTitle w0 u) as H1;
        pose proof (fun k s t => playback_awaiting settings taskTitle w0 k s t) as H2;
        unfold task in H1, H2;
        destruct (async (playback env settings taskTitle) w0) as [[[]|err] w1] eqn:E
    end; simpl in *.
    all: split; simpl.
    all: try (intros u [H|H]%H1; [by apply Hu|];
              intros E'; apply H in E'; by rewrite (Ha _ _ _ Hk) in E').
    all: intros k' s t H%H2; apply lookup_delete_Some in H as [_ H];
      by eapply Ha.
  - destruct (awaiting (window w) !! k) as [[|base64Data volume loop]|] eqn:Hk;
      try done.
    destruct w as [[ctx buf src st li cb] [tm nt so ns ut aw na ca un]].
    destruct Hl as [Hu Ha]. simpl in *. player.
    destruct ok, ctx as [c0|], (AudioContext env) as [c1|]; simpl.
    all: split; simpl; [done|].
    all: intros k' s t H; apply lookup_delete_Some in H as [_ H]; by eapply Ha.
  - destruct (audioContext (this w)); [|done]. by destruct Hl.
Qed.

End PlayerFacts.

Section PlayerExtras.

Variable env : Platform.

Lemma stopped_stopped w : stopped env (stopped env w) = stopped env w.
Proof.
  unfold stopped. simpl. by destruct (speechSynthesis env).
Qed.

(** X6. Every closure handed to [playNotification] is called exactly once,
    in the order in which they were handed over, and the last one may still
    be registered: as long as no alert is spoken once, the calls made so far
    followed by the registered closure are the calls and the registration
    there were at the start followed by the closures handed over since. *)
Theorem every_onEnd_is_called_once trace : forall w,
  Closures.looping w ->
  Forall (fun e => Closures.startsSpokenOnce e = false) trace ->
  called (window (run env w trace)) ++ Closures.registered (run env w trace) =
    called (window w) ++ Closures.registered w ++ Closures.handed trace.
Proof.
  induction trace as [|e trace IH]; intros w Hl Hall.
  { simpl. by rewrite app_nil_r. }
  apply Forall_cons in Hall as [He Hall]. simpl.
  rewrite IH by (done || by apply step_looping).
  destruct (step_frame env w e) as [Hc Hr]. rewrite Hc.
  assert (Closures.registered (step env w e) =
          match e with
          | PlayNotification _ _ (Some cb) => [cb]
          | PlayNotification _ _ None => []
          | _ => if Closures.reaches w e then [] else Closures.registered w
          end) as ->.
  { unfold Closures.registered at 1. rewrite Hr.
    destruct e as [? ? [cb|]| | |h| |i|k|k ok|state]; try done.
    all: try by destruct (Closures.reaches _ _).
    simpl. destruct Hl as [Hu _].
    destruct (utterances (window w)) as [|u queue]; [done|].
    specialize (Hu u ltac:(by left)).
    by destruct (onend u) as [[]|]. }
  rewrite <- !app_assoc. f_equal.
  destruct (Closures.reaches w e) eqn:R.
  all: destruct e as [? ? [cb|]| | |h| |i|k|k ok|state]; try done.
  all: simpl; by rewrite ?app_nil_r.
Qed.

(** X7. [stop()] may be called again and again: after the first call the
    others change nothing. *)
Theorem stop_is_idempotent w n :
  run env (step env w Stop) (replicate n Stop) = step env w Stop.
Proof.
  simpl. unfold task. rewrite stop_stopped.
  induction n as [|n IH]; [done|].
  simpl. unfold task. by rewrite stop_stopped, stopped_stopped.
Qed.

(** X8. The decoded sound is cached without its payload: once a sound is in
    the cache, a custom alert plays it, whatever payload the settings hold,
    and decodes nothing. *)
Theorem cached_sound_is_replayed w settings taskTitle onEnd buffer c data :
  soundMode settings = custom ->
  customSoundData settings = Some (String c data) ->
  customAudioBuffer (this w) = Some buffer ->
  audioContext (this w) = Some running ->
  let w1 := step env w (PlayNotification settings taskTitle onEnd) in
  currentSource (this w1) = Some (nextSource (window w)) /\
  sources (window w1) !! nextSource (window w) =
    Some {| node := BufferSource buffer (audioLoop settings);
            gain := volume settings; playing := true |} /\
  awaiting (window w1) = awaiting (window w) /\
  customAudioBuffer (this w1) = Some buffer.
Proof.
  intros Hm Hd Hb Hc. simpl. rewrite playNotification_unfold. rewrite Hc.
  destruct w as [[ctx buf src st li cb] [tm nt so ns ut aw na ca un]].
  destruct settings as [th ac sm data' name vol dur loop voice].
  simpl in *. subst. player.
  destruct (0 <? dur); simpl; by rewrite lookup_insert_eq.
Qed.

(** X9. A decoding that is under way when the cache is cleared fills it
    again when it settles: the sound of the earlier payload is back in the
    cache, and it is what the next custom alert plays, whatever payload the
    settings hold by then. *)
Theorem parked_decode_refills_cleared_cache w k old gain0 loop0
    settings taskTitle onEnd c data :
  awaiting (window w) !! k = Some (Decode old gain0 loop0) ->
  audioContext (this w) = Some running ->
  soundMode settings = custom ->
  customSoundData settings = Some (String c data) ->
  let w1 := run env w [ClearCustomCache; Decoded k true] in
  customAudioBuffer (this w1) = Some old /\
  let w2 := step env w1 (PlayNotification settings taskTitle onEnd) in
  sources (window w2) !! nextSource (window w1) =
    Some {| node := BufferSource old (audioLoop settings);
            gain := volume settings; playing := true |}.
Proof.
  intros Hk Hc Hm Hd.
  assert (customAudioBuffer (this (run env w [ClearCustomCache; Decoded k true]))
            = Some old /\
          audioContext (this (run env w [ClearCustomCache; Decoded k true]))
            = Some running) as [Hb Hc'].
  { destruct w as [[ctx buf src st li cb] [tm nt so ns ut aw na ca un]].
    simpl in *. rewrite Hk. subst ctx. by player. }
  split; [done|]. revert Hb Hc'.
  generalize (run env w [ClearCustomCache; Decoded k true]).
  intros [[ctx buf src st li cb] [tm nt so ns ut aw na ca un]] Hb Hc'.
  destruct settings as [th ac sm data' name vol dur loop voice].
  cbn zeta. cbn [step]. rewrite playNotification_unfold.
  simpl in *. subst. player.
  destruct (0 <? dur); simpl; by rewrite lookup_insert_eq.
Qed.

(** X10. Where the browser has no speech synthesis, a spoken alert makes no
    sound: it starts no node and speaks nothing. Yet the session is there:
    the closure is registered, and what is pending is the ceiling timer, if
    the settings have one, and nothing else. *)
Theorem speech_unsupported_alert_is_mute w settings taskTitle onEnd :
  speechSynthesis env = false -> soundMode settings = tts ->
  audioContext (this w) <> Some suspended -> orderly env w ->
  let w1 := step env w (PlayNotification settings taskTitle onEnd) in
  sources (window w1) = sources (window (stopped env w)) /\
  noBuffers w1 /\ utterances (window w1) = [] /\
  onPlaybackEnd (this w1) = onEnd /\
  timers (window w1) =
    (if 0 <? audioDuration settings
     then {[ nextTimer (window w) :=
               {| kind := Timeout; delay := audioDuration settings * 1000;
                  action := CallStop |} ]}
     else ∅).
Proof.
  intros Hs Hm Hc Ho. simpl. rewrite playNotification_unfold.
  destruct (stopped_silent env w Ho) as (Ht & Hu & Hnb).
  assert (utterances (window w) = []) as Hu0 by by apply (speech_supported _ _ Ho).
  destruct w as [[ctx buf src st li cb] [tm nt so ns ut aw na ca un]].
  destruct settings as [th ac sm data' name vol dur loop voice].
  unfold noBuffers in *. simpl in *. subst.
  assert (forget li (forget st tm) = ∅) as Ht' by done.
  destruct ctx as [[]|]; try done.
  all: player; rewrite Hs, ?Ht'; simpl.
  all: destruct (0 <? dur), loop; simpl; rewrite ?Hs, ?Ht'; simpl;
    repeat split; try done.
  all: try by rewrite insert_empty.
Qed.

End PlayerExtras.

(** * Rest, and what escapes the ceiling *)

Section Rest.

Variable env : Platform.

Lemma stopped_atRest w : atRest w -> atRest (stopped env w).
Proof.
  intros [(Ht & Hu & Hb) Ha]. split; [split; [|split]|done]; simpl.
  - rewrite Ht.
    destruct (stopTimeout (this w)), (loopInterval (this w)); simpl;
      by rewrite ?delete_empty.
  - rewrite Hu. by destruct (speechSynthesis env).
  - intros i s Hi Hp. simpl in Hi.
    apply lookup_silenced in Hi as [Hi _]; [|done]. by eapply Hb.
Qed.

(** What happens by itself, and [stop()], leave a player at rest at rest:
    only a start ends the rest. *)
Lemma step_atRest w e :
  isPlayNotification e = false -> atRest w -> atRest (step env w e).
Proof.
  intros He Hr. pose proof Hr as [(Ht & Hu & Hb) Ha].
  destruct e as [settings taskTitle onEnd| | |h| |i|k|k ok|state]; simpl.
  - done.
  - unfold task. rewrite stop_stopped. by apply stopped_atRest.
  - done.
  - by rewrite Ht, lookup_empty.
  - by rewrite Hu.
  - destruct (sources (window w) !! i) as [s|] eqn:Hs; [|done].
    destruct (endsByItself s); [|done].
    split; [split; [done|split; [done|]]|done].
    intros j s' Hj Hp. simpl in Hj.
    apply (lookup_silenced (Some i)) in Hj as [Hj _]; [|done]. by eapply Hb.
  - by rewrite Ha, lookup_empty.
  - by rewrite Ha, lookup_empty.
  - by destruct (audioContext (this w)).
Qed.

Lemma run_atRest trace : forall w,
  Forall (fun e => isPlayNotification e = false) trace ->
  atRest w -> atRest (run env w trace).
Proof.
  induction trace as [|e trace IH]; intros w Hf Hr; [done|].
  apply Forall_cons in Hf as [He Hf]. simpl. apply IH; [done|].
  by apply step_atRest.
Qed.




Lemma stopped_orphaned i w : orphaned i w -> orphaned i (stopped env w).
Proof.
  intros ((b & g & Hs) & Hc & Hn). split; [|done]. simpl.
  exists b, g. destruct (currentSource (this w)) as [c|]; simpl; [|done].
  rewrite lookup_alter_ne by congruence. done.
Qed.

Lemma playback_orphaned i settings taskTitle w :
  orphaned i w -> orphaned i (task (async (playback env settings taskTitle)) w).
Proof.
  destruct w as [[ctx buf src st li cb] [tm nt so ns ut aw na ca un]].
  destruct settings as [th ac sm data name vol dur loop voice].
  unfold orphaned. simpl. intros ((b & g & Hs) & Hc & Hn). player.
  destruct (0 <? dur); simpl.
  all: destruct sm; [| |destruct data as [[|c d]|]]; simpl.
  all: destruct loop, (speechSynthesis env), ctx as [c0|],
         (AudioContext env) as [c1|], buf as [b0|]; simpl.
  all: split; [|split]; try done; try lia; try (intros [= ?]; lia).
  all: exists b, g; rewrite ?lookup_insert_ne by lia; done.
Qed.

Lemma playCustomResumed_orphaned i decoded volume loop w :
  orphaned i w ->
  orphaned i (task (async (playCustomResumed env decoded volume loop)) w).
Proof.
  destruct w as [[ctx buf src st li cb] [tm nt so ns ut aw na ca un]].
  unfold orphaned. simpl. intros ((b & g & Hs) & Hc & Hn). player.
  destruct decoded, ctx as [c0|], (AudioContext env) as [c1|]; simpl.
  all: split; [|split]; try done; try lia; try (intros [= ?]; lia).
  all: exists b, g; rewrite ?lookup_insert_ne by lia; done.
Qed.

(** Nothing that can happen to the player stops an orphaned source. *)
Lemma step_orphaned i w e : orphaned i w -> orphaned i (step env w e).
Proof.
  intros Ho.
  destruct e as [settings taskTitle onEnd| | |h| |j|k|k ok|state]; simpl.
  - rewrite playNotification_unfold. simpl.
    pose proof (stopped_orphaned i w Ho) as Ho1.
    destruct (audioContext (this w)) as [[]|]; [|done|];
      by apply playback_orphaned.
  - unfold task. rewrite stop_stopped. by apply stopped_orphaned.
  - done.
  - destruct (timers (window w) !! h) as [t|] eqn:Ht; [|done].
    destruct t as [kd dl [|g0|tx g0 vo]]; simpl.
    + unfold task, mbind, js_bind.
      destruct kd; simpl; rewrite stop_stopped; simpl;
        by apply stopped_orphaned.
    + destruct w as [[ctx buf src st li cb] [tm nt so ns ut aw na ca un]].
      destruct Ho as ((b & g & Hs) & Hc & Hn). unfold orphaned. simpl in *.
      destruct kd; player;
        destruct ctx as [c0|], (AudioContext env) as [c1|]; simpl.
      all: split; [|split]; try done; try lia; try (intros [= ?]; lia).
      all: exists b, g; rewrite ?lookup_insert_ne by lia; done.
    + destruct w as [[ctx buf src st li cb] [tm nt so ns ut aw na ca un]].
      destruct kd; player; by destruct (speechSynthesis env).
  - destruct w as [[ctx buf src st li cb] [tm nt so ns ut aw na ca un]].
    simpl. destruct ut as [|u queue]; simpl; [done|].
    destruct (onend u) as [[tx g0 vo|]|]; player; [done| |done].
    by destruct cb.
  - destruct (sources (window w) !! j) as [s|] eqn:Hs; [|done].
    destruct (endsByItself s) eqn:He; [|done].
    destruct Ho as ((b & g & Hi) & Hc & Hn).
    split; [|done]. exists b, g. simpl.
    rewrite lookup_alter_ne; [done|].
    intros ->. rewrite Hi in Hs. by injection Hs as <-.
  - destruct (awaiting (window w) !! k) as [[settings taskTitle|]|] eqn:Hk;
      try done.
    unfold task at 1, mbind, js_bind. unfold modify at 1 2. simpl.
    by apply playback_orphaned.
  - destruct (awaiting (window w) !! k) as [[|base64Data volume loop]|] eqn:Hk;
      try done.
    unfold task at 1, mbind, js_bind. unfold modify at 1. simpl.
    by apply playCustomResumed_orphaned.
  - by destruct (audioContext (this w)).
Qed.

Lemma run_orphaned i trace : forall w,
  orphaned i w -> orphaned i (run env w trace).
Proof.
  induction trace as [|e trace IH]; intros w Ho; [done|].
  simpl. apply IH. by apply step_orphaned.
Qed.

End Rest.

(** C5, at the failing input. The comment at lines 209-210 says of the
    custom loop that it will be stopped by the stopTimeout. Two tasks are
    due in the same tick and the custom sound is not decoded yet: both
    starts park at the decoding, the second clears the ceiling of the
    first and arms its own, and both decodings start a looping source. When
    the one ceiling fires after [audioDuration] seconds it stops the source
    recorded last; the other one plays on with no timer pending, and nothing
    that can happen to the player afterwards, no [stop()] and no later
    start, stops it. Likewise a single start whose decoding settles only
    after the ceiling has fired starts its looping source with no ceiling
    pending. *)
Theorem custom_loop_outlives_ceiling :
  let w := run Scenario.desktop initial
             [PlayNotification Sounds.ownSound "Standup" (Some 1%nat);
              PlayNotification Sounds.ownSound "Lunch" (Some 2%nat);
              Decoded 0 true; Decoded 1 true] in
  let w' := step Scenario.desktop w (TimerFires 2) in
  let late := run Scenario.desktop initial
                [PlayNotification Sounds.ownSound "Standup" (Some 1%nat);
                 TimerFires 1; Decoded 0 true] in
  ((0 <? audioDuration Sounds.ownSound) = true /\
   audioLoop Sounds.ownSound = true /\
   timers (window w) !! 2%positive =
     Some {| kind := Timeout; delay := 30000; action := CallStop |} /\
   timers (window w') = ∅ /\ awaiting (window w') = ∅ /\
   stopTimeout (this w') = None /\
   size (playingBuffers w') = 1%nat /\
   forall trace, orphaned 0 (run Scenario.desktop w' trace)) /\
  (timers (window late) = ∅ /\ awaiting (window late) = ∅ /\
   stopTimeout (this late) = None /\
   sources (window late) !! 0%nat =
     Some {| node := BufferSource "data:audio/mpeg;base64,SUQzBAAAAAAA" true;
             gain := 8 # 10; playing := true |}).
Proof.
  cbn zeta. split.
  - do 7 (split; [by vm_compute|]).
    intros trace. apply run_orphaned.
    split; [|split]; [|by vm_compute|vm_compute; lia].
    by exists "data:audio/mpeg;base64,SUQzBAAAAAAA", (8 # 10).
  - by vm_compute.
Qed.

(** * The success sound *)

Section SuccessFacts.

Variable env : Platform.

Lemma playSuccessSound_throws volume w :
  audioContext (this w) = None -> AudioContext env = None ->
  Success.playSuccessSound env volume w =
    (Thrown (TypeError "AudioContext is not a constructor"), w).
Proof.
  intros Hc He. unfold Success.playSuccessSound. player. by rewrite Hc, He.
Qed.

(** What the success sound leaves behind: the world with the audio context
    there and three more oscillators. *)
Lemma playSuccessSound_returns volume w :
  is_Some (audioContext (this w)) \/ is_Some (AudioContext env) ->
  Success.playSuccessSound env volume w =
    (Returned tt,
     {| this := setAudioContext
                  (match audioContext (this w) with
                   | Some st => Some st
                   | None => AudioContext env
                   end) (this w);
        window :=
          setSources
            (<[S (S (nextSource (window w))) :=
                 mkSource Oscillator (volume * (2 # 10))%Q true]>
               (<[S (nextSource (window w)) :=
                    mkSource Oscillator (volume * (2 # 10))%Q true]>
                  (<[nextSource (window w) :=
                       mkSource Oscillator (volume * (2 # 10))%Q true]>
                     (sources (window w)))))
            (S (S (S (nextSource (window w))))) (window w) |}).
Proof.
  destruct w as [[ctx buf src st li cb] [tm nt so ns ut aw na ca un]].
  simpl. intros Hctx.
  assert (match ctx with Some _ => true | None =>
            match AudioContext env with Some _ => true | None => false end
          end = true) as Hc.
  { destruct Hctx as [Hs|Hs]; apply is_Some_alt in Hs.
    - by destruct ctx.
    - destruct ctx; [done|]. by destruct (AudioContext env). }
  unfold Success.playSuccessSound, Success.forEach, Success.notes, Success.note.
  player. destruct ctx; [done|]. by destruct (AudioContext env).
Qed.

(** X11. The sound that rewards a completed task is outside the alert
    session: where an audio context can be had, it returns having changed
    none of the fields that track the session, no timer, no utterance and
    no record of calls; a session that was orderly still is; and the three
    notes it started go on sounding through a following [stop()]. *)
Theorem success_sound_is_outside_the_session volume w :
  is_Some (audioContext (this w)) \/ is_Some (AudioContext env) ->
  (forall i, currentSource (this w) = Some i -> (i < nextSource (window w))%nat) ->
  exists w1,
    Success.playSuccessSound env volume w = (Returned tt, w1) /\
    this w1 = setAudioContext (audioContext (this w1)) (this w) /\
    timers (window w1) = timers (window w) /\
    utterances (window w1) = utterances (window w) /\
    awaiting (window w1) = awaiting (window w) /\
    called (window w1) = called (window w) /\
    (orderly env w -> orderly env w1) /\
    forall j, (j < 3)%nat ->
      sources (window (stopped env w1)) !! (nextSource (window w) + j)%nat =
        Some {| node := Oscillator; gain := (volume * (2 # 10))%Q;
                playing := true |}.
Proof.
  intros Hctx Hsrc. eexists. split; [by apply playSuccessSound_returns|].
  destruct w as [[ctx buf src st li cb] [tm nt so ns ut aw na ca un]].
  simpl in *. splits; try done.
  - intros [Ht Hk Hb Hs H1 Hsa Hla Haw].
    unfold noBuffers, noLoopTimers in *. simpl in *.
    assert (forall i s,
      <[S (S ns) := mkSource Oscillator (volume * (2 # 10))%Q true]>
        (<[S ns := mkSource Oscillator (volume * (2 # 10))%Q true]>
           (<[ns := mkSource Oscillator (volume * (2 # 10))%Q true]> so))
        !! i = Some s ->
      playing s = true -> isBuffer s = true -> so !! i = Some s) as Hold.
    { intros i s H Hp Hbuf. map_cases; simplify_eq/=; done. }
    constructor; unfold noBuffers, noLoopTimers; simpl; try done.
    + intros i s H Hp Hbuf. eapply Hb; eauto.
    + intros Hne. destruct (Hsa Hne) as (Hn & Hnb & Hawe).
      repeat split; try done.
      intros i s H Hp. destruct (isBuffer s) eqn:E; [|done].
      rewrite <- E. eapply Hnb; eauto.
    + intros h t Hh Hl. destruct (Hla h t Hh Hl) as (Hnb & Hawe).
      split; [|done].
      intros i s H Hp. destruct (isBuffer s) eqn:E; [|done].
      rewrite <- E. eapply Hnb; eauto.
    + intros k a Hka. destruct (Haw k a Hka) as (Hawe & Hnb & Hm).
      repeat split; try done.
      intros i s H Hp. destruct (isBuffer s) eqn:E; [|done].
      rewrite <- E. eapply Hnb; eauto.
  - intros j Hj.
    assert (forall i, src = Some i -> (i < ns)%nat) as Hlt by done.
    destruct src as [i|]; simpl.
    + specialize (Hlt i eq_refl).
      rewrite lookup_alter_ne by lia.
      destruct j as [|[|[|j]]]; [| | |lia].
      * rewrite Nat.add_0_r, !lookup_insert_ne by lia.
        by rewrite lookup_insert_eq.
      * replace (ns + 1)%nat with (S ns) by lia.
        rewrite lookup_insert_ne by lia. by rewrite lookup_insert_eq.
      * replace (ns + 2)%nat with (S (S ns)) by lia.
        by rewrite lookup_insert_eq.
    + destruct j as [|[|[|j]]]; [| | |lia].
      * rewrite Nat.add_0_r, !lookup_insert_ne by lia.
        by rewrite lookup_insert_eq.
      * replace (ns + 1)%nat with (S ns) by lia.
        rewrite lookup_insert_ne by lia. by rewrite lookup_insert_eq.
      * replace (ns + 2)%nat with (S (S ns)) by lia.
        by rewrite lookup_insert_eq.
Qed.

End SuccessFacts.

(** * The application *)

Section AppFacts.

Variable env : Platform.

Lemma async_returns (body : Js World unit) w :
  task (async body) w = (async body w).2 /\ (async body w).1 = Returned tt.
Proof.
  unfold task, async, tryCatch, modify.
  by destruct (body w) as [[[]|e] w'].
Qed.

Lemma playNotification_returns settings taskTitle onEnd w :
  playNotification env settings taskTitle onEnd w =
    (Returned tt, step env w (PlayNotification settings taskTitle onEnd)).
Proof.
  simpl. unfold playNotification.
  match goal with |- async ?b w = _ =>
    destruct (async_returns b w) as [H1 H2]; rewrite H1;
    by destruct (async b w) as [[[]|e] w'] end.
Qed.

(** The closures a step of the player calls reach the flags. *)
Lemma deliver_step e st :
  App.onPlayer env e st =
    foldl App.notify (App.setPlayer (step env (App.player st) e) st)
      (if Closures.reaches (App.player st) e
       then Closures.registered (App.player st) else []).
Proof.
  unfold App.onPlayer, App.deliver. simpl.
  destruct (step_frame env (App.player st) e) as [-> _].
  by rewrite drop_app_length.
Qed.

Lemma liftPlayer_stop st :
  App.liftPlayer (stop env) st =
    (Returned tt, App.onPlayer env Stop st).
Proof.
  unfold App.liftPlayer, App.onPlayer. simpl. unfold task.
  by rewrite stop_stopped.
Qed.

Lemma liftPlayer_playNotification settings taskTitle onEnd st :
  App.liftPlayer (playNotification env settings taskTitle onEnd) st =
    (Returned tt,
     App.onPlayer env (PlayNotification settings taskTitle onEnd) st).
Proof.
  unfold App.liftPlayer, App.onPlayer.
  by rewrite playNotification_returns.
Qed.

Lemma notify_frame st cbs :
  App.scan (foldl App.notify st cbs) = App.scan st /\
  App.settings (foldl App.notify st cbs) = App.settings st /\
  App.form (foldl App.notify st cbs) = App.form st /\
  App.taskToDelete (foldl App.notify st cbs) = App.taskToDelete st /\
  App.player (foldl App.notify st cbs) = App.player st.
Proof.
  revert st. induction cbs as [|cb cbs IH]; intros st; [done|].
  simpl. destruct (IH (App.notify st cb)) as (-> & -> & -> & -> & ->).
  unfold App.notify.
  destruct (Nat.eqb cb App.alarmEnded); [done|].
  by destruct (Nat.eqb cb App.previewEnded).
Qed.

(** Calling what is registered lowers every flag that is backed. *)
Lemma notify_registered st w' :
  App.backed st ->
  let st' := foldl App.notify (App.setPlayer w' st)
               (Closures.registered (App.player st)) in
  App.isAlarmRinging st' = false /\ App.isPreviewing st' = false.
Proof.
  intros [Ha Hp]. unfold Closures.registered.
  destruct (onPlaybackEnd (this (App.player st))) as [cb|]; simpl.
  - unfold App.notify.
    destruct (Nat.eqb_spec cb App.alarmEnded) as [->|Na]; simpl.
    { split; [done|]. destruct (App.isPreviewing st); [|done].
      by specialize (Hp eq_refl). }
    destruct (Nat.eqb_spec cb App.previewEnded) as [->|Np]; simpl.
    { split; [|done]. destruct (App.isAlarmRinging st); [|done].
      by specialize (Ha eq_refl). }
    split.
    + destruct (App.isAlarmRinging st); [|done].
      specialize (Ha eq_refl). congruence.
    + destruct (App.isPreviewing st); [|done].
      specialize (Hp eq_refl). congruence.
  - split.
    + destruct (App.isAlarmRinging st); [|done]. by specialize (Ha eq_refl).
    + destruct (App.isPreviewing st); [|done]. by specialize (Hp eq_refl).
Qed.

Lemma onPlayer_frame e st :
  App.scan (App.onPlayer env e st) = App.scan st /\
  App.settings (App.onPlayer env e st) = App.settings st /\
  App.form (App.onPlayer env e st) = App.form st /\
  App.taskToDelete (App.onPlayer env e st) = App.taskToDelete st /\
  App.player (App.onPlayer env e st) = step env (App.player st) e.
Proof.
  rewrite deliver_step.
  by destruct (notify_frame (App.setPlayer (step env (App.player st) e) st)
              (if Closures.reaches (App.player st) e
               then Closures.registered (App.player st) else []))
    as (-> & -> & -> & -> & ->).
Qed.

Lemma onPlayer_backed e st :
  App.backed st -> App.backed (App.onPlayer env e st).
Proof.
  intros Hb. unfold App.backed.
  destruct (onPlayer_frame e st) as (_ & _ & _ & _ & ->).
  rewrite deliver_step.
  destruct (step_frame env (App.player st) e) as [_ Hr].
  destruct (Closures.reaches (App.player st) e) eqn:R.
  - destruct (notify_registered st (step env (App.player st) e) Hb)
      as [-> ->]. done.
  - simpl. rewrite Hr.
    destruct e as [settings taskTitle onEnd| | |h| |i|k|k ok|state];
      try done; by rewrite ?R.
Qed.

(** What the callback does for one due task: the flag goes up, the alert
    starts and its closure is registered. *)
Lemma ring_flags settings taskTitle st :
  let st' := App.onPlayer env
               (PlayNotification settings taskTitle (Some App.alarmEnded))
               (App.setIsAlarmRinging true st) in
  onPlaybackEnd (this (App.player st')) = Some App.alarmEnded /\
  App.isAlarmRinging st' =
    negb (bool_decide (onPlaybackEnd (this (App.player st))
                       = Some App.alarmEnded)) /\
  (App.backed st -> App.isPreviewing st' = false).
Proof.
  simpl.
  destruct (onPlayer_frame
              (PlayNotification settings taskTitle (Some App.alarmEnded))
              (App.setIsAlarmRinging true st)) as (_ & _ & _ & _ & Hp).
  rewrite Hp.
  destruct (step_frame env (App.player (App.setIsAlarmRinging true st))
              (PlayNotification settings taskTitle (Some App.alarmEnded)))
    as [_ Hr].
  split; [done|]. clear Hp Hr.
  rewrite deliver_step. simpl. unfold Closures.registered.
  destruct (onPlaybackEnd (this (App.player st))) as [cb|] eqn:E; simpl.
  - unfold App.notify.
    destruct (Nat.eqb_spec cb App.alarmEnded) as [->|Na]; simpl.
    { split; [done|]. intros [_ Hb]. destruct (App.isPreviewing st); [|done].
      specialize (Hb eq_refl). rewrite E in Hb. done. }
    rewrite bool_decide_eq_false_2 by congruence.
    destruct (Nat.eqb_spec cb App.previewEnded) as [->|Np]; simpl; [done|].
    split; [done|]. intros [_ Hb]. destruct (App.isPreviewing st); [|done].
    specialize (Hb eq_refl). congruence.
  - split; [done|]. intros [_ Hb]. destruct (App.isPreviewing st); [|done].
    specialize (Hb eq_refl). congruence.
Qed.

Lemma arrayMap_log settings now l : forall k fr,
  Scanner.performed
    (Scanner.arrayMap (Scanner.visit env settings now) k l fr).2 =
  Scanner.performed fr ++ App.dueLog (Notification env) settings now k l.
Proof.
  induction l as [|t l IH]; intros k fr; simpl.
  { by rewrite app_nil_r. }
  unfold mbind, js_bind.
  destruct (Scanner.isDue now t) eqn:Hd.
  - destruct (Notification env) as [p|] eqn:Hn.
    + rewrite (visit_marks env settings now t k fr p Hd Hn).
      match goal with |- context [Scanner.arrayMap ?f ?i l ?fr'] =>
        specialize (IH i fr');
        destruct (Scanner.arrayMap f i l fr') as [[l'|e] fr''] end;
        simpl in *; rewrite IH; by rewrite <- !app_assoc.
    + rewrite (visit_throws env settings now t k fr Hd Hn). simpl.
      by rewrite ?app_nil_r.
  - rewrite (visit_skips env settings now t k fr Hd).
    specialize (IH (S k) fr).
    by destruct (Scanner.arrayMap _ (S k) l fr) as [[l'|e] fr''].
Qed.

Lemma updater_log settings now fresh arr :
  (Scanner.updater env settings now fresh arr).2 =
    App.dueLog (Notification env) settings now 0 (Scanner.elems arr).
Proof.
  unfold Scanner.updater.
  pose proof (arrayMap_log settings now (Scanner.elems arr) 0%nat
                {| Scanner.hasChanges := false; Scanner.performed := [] |}) as H.
  by destruct (Scanner.arrayMap _ 0%nat (Scanner.elems arr) _) as [[l'|e] fr''].
Qed.

(** Without the [Notification] global the pass over the array returns only
    when no task is due. *)
Lemma arrayMap_outcome settings now l : forall k fr,
  Notification env = None ->
  match (Scanner.arrayMap (Scanner.visit env settings now) k l fr).1 with
  | Returned _ => existsb (Scanner.isDue now) l = false
  | Thrown _ => True
  end.
Proof.
  induction l as [|t l IH]; intros k fr Hn; simpl; [done|].
  unfold mbind, js_bind.
  destruct (Scanner.isDue now t) eqn:Hd.
  - by rewrite (visit_throws env settings now t k fr Hd Hn).
  - rewrite (visit_skips env settings now t k fr Hd).
    specialize (IH (S k) fr Hn).
    by destruct (Scanner.arrayMap _ (S k) l fr) as [[l'|e] fr''].
Qed.

Lemma tick_log settings now sc :
  drop (length (Scanner.history sc))
    (Scanner.history (Scanner.tick env settings now sc)) =
  if Scanner.crashed sc then []
  else
    let once := App.dueLog (Notification env) settings now 0
                  (Scanner.elems (Scanner.tasks sc)) in
    match Notification env with
    | Some _ => once
    | None => concat (replicate Scanner.attempts once)
    end.
Proof.
  unfold Scanner.tick. destruct (Scanner.crashed sc).
  { by rewrite drop_all. }
  pose proof (updater_log settings now (Scanner.nextRef sc) (Scanner.tasks sc)) as H.
  pose proof (updater_returns env settings now (Scanner.nextRef sc)
                (Scanner.tasks sc)) as Hret.
  pose proof (updater_idle env settings now (Scanner.nextRef sc)
                (Scanner.tasks sc)) as Hidle.
  pose proof (arrayMap_outcome settings now
                (Scanner.elems (Scanner.tasks sc)) 0%nat
                {| Scanner.hasChanges := false; Scanner.performed := [] |})
    as Hout.
  cbn zeta. destruct (Notification env) as [p|] eqn:Hn.
  - destruct (Hret p eq_refl) as [arr Harr].
    destruct (Scanner.updater _ _ _ _ _) as [[arr0|e] log]; simpl in *;
      [|done]. by rewrite drop_app_length, H.
  - specialize (Hout eq_refl).
    destruct (Scanner.updater _ _ _ _ _) as [[arr0|e] log] eqn:E; simpl in *.
    + assert (existsb (Scanner.isDue now) (Scanner.elems (Scanner.tasks sc))
              = false) as Hnone.
      { unfold Scanner.updater in E.
        destruct (Scanner.arrayMap _ 0%nat _ _) as [[l'|e] fr'']; [done|].
        simpl in E. discriminate E. }
      specialize (Hidle Hnone). injection Hidle as _ ->.
      by rewrite drop_app_length, <- H.
    + by rewrite drop_app_length, H.
Qed.

Lemma interpret_dueLog p settings now l : forall k st,
  foldl (App.interpret env) st (App.dueLog p settings now k l) =
    foldl (App.ring env settings) st (App.reached p now l).
Proof.
  induction l as [|t l IH]; intros k st; simpl.
  { by destruct p. }
  unfold App.reached in *. rewrite filter_cons.
  destruct (Scanner.isDue now t) eqn:Hd.
  - rewrite decide_True by done.
    destruct p as [p|]; simpl.
    + rewrite foldl_app. destruct (Scanner.isGranted p); simpl; apply IH.
    + done.
  - rewrite decide_False by congruence. apply IH.
Qed.

(** The tick, as far as the flags and the player go. *)
Lemma tick_rings now st :
  let st' := App.tick env now st in
  App.scan st' = Scanner.tick env (App.settings st) now (App.scan st) /\
  exists st0,
    App.isAlarmRinging st0 = App.isAlarmRinging st /\
    App.isPreviewing st0 = App.isPreviewing st /\
    App.player st0 = App.player st /\
    st' = foldl (App.ring env (App.settings st)) st0
            (if Scanner.crashed (App.scan st) then []
             else App.started (Notification env) now (App.tasks st)).
Proof.
  simpl. unfold App.tick. rewrite tick_log.
  assert (forall l st1,
    App.scan (foldl (App.ring env (App.settings st)) st1 l) = App.scan st1) as Hs.
  { induction l as [|t l IH]; intros st1; [done|]. simpl. rewrite IH.
    unfold App.ring. by destruct (onPlayer_frame
      (PlayNotification (App.settings st) (title t) (Some App.alarmEnded))
      (App.setIsAlarmRinging true st1)) as (-> & _). }
  destruct (Scanner.crashed (App.scan st)) eqn:Hc.
  - simpl. split; [done|].
    by exists (App.setScan (Scanner.tick env (App.settings st) now (App.scan st)) st).
  - assert (foldl (App.interpret env)
              (App.setScan
                 (Scanner.tick env (App.settings st) now (App.scan st)) st)
              (let once := App.dueLog (Notification env) (App.settings st)
                             now 0 (Scanner.elems (Scanner.tasks (App.scan st)))
               in match Notification env with
                  | Some _ => once
                  | None => concat (replicate Scanner.attempts once)
                  end) =
            foldl (App.ring env (App.settings st))
              (App.setScan
                 (Scanner.tick env (App.settings st) now (App.scan st)) st)
              (App.started (Notification env) now (App.tasks st))) as ->.
    { cbn zeta. unfold App.started, Scanner.attempts.
      destruct (Notification env); simpl;
        rewrite ?app_nil_r, ?foldl_app, ?interpret_dueLog; done. }
    split; [by rewrite Hs|].
    by exists (App.setScan (Scanner.tick env (App.settings st) now (App.scan st)) st).
Qed.

Lemma rings_flags settings l : forall st,
  l <> [] ->
  let st' := foldl (App.ring env settings) st l in
  onPlaybackEnd (this (App.player st')) = Some App.alarmEnded /\
  App.isAlarmRinging st' =
    match l with
    | [_] => negb (bool_decide (onPlaybackEnd (this (App.player st))
                                = Some App.alarmEnded))
    | _ => false
    end.
Proof.
  induction l as [|t l IH]; intros st Hne; [done|]. simpl.
  destruct (ring_flags settings (title t) st) as (Hr & Hf & _).
  destruct l as [|t' l]; [done|].
  destruct (IH (App.ring env settings st t) ltac:(done)) as [H1 H2].
  split; [done|]. rewrite H2.
  destruct l; [|done].
  unfold App.ring. rewrite Hr. by rewrite bool_decide_eq_true_2.
Qed.

Lemma rings_backed settings l : forall st,
  App.backed st -> App.backed (foldl (App.ring env settings) st l).
Proof.
  induction l as [|t l IH]; intros st Hb; [done|]. simpl. apply IH.
  destruct (ring_flags settings (title t) st) as (Hr & Hf & Hp).
  split; [done|]. unfold App.ring. by rewrite Hp.
Qed.

End AppFacts.

Section AppInvariant.

Variable env : Platform.

#[local] Abbreviation keeps := (App.preserves App.backed).

Lemma preserves_ret {A} P (a : A) : App.preserves P (mret a).
Proof. by intros st. Qed.

Lemma preserves_gets {A} P (f : App.State -> A) : App.preserves P (gets f).
Proof. by intros st. Qed.

Lemma preserves_bind {A B} P (m : Js App.State A) (k : A -> Js App.State B) :
  App.preserves P m -> (forall a, App.preserves P (k a)) ->
  App.preserves P (m ≫= k).
Proof.
  intros Hm Hk st Hb. unfold mbind, js_bind.
  specialize (Hm st Hb). destruct (m st) as [[a|e] st']; [|done].
  by apply Hk.
Qed.

Lemma preserves_modify P (f : App.State -> App.State) :
  (forall st, P st -> P (f st)) -> App.preserves P (modify f).
Proof. intros Hf st Hb. by apply Hf. Qed.

Lemma preserves_arrayMap {A B} P (f : A -> Js App.State B) l :
  (forall a, App.preserves P (f a)) -> App.preserves P (App.arrayMap f l).
Proof.
  intros Hf. induction l as [|a l IH]; simpl; [apply preserves_ret|].
  apply preserves_bind; [done|]. intros b.
  apply preserves_bind; [done|]. intros l'. apply preserves_ret.
Qed.

Lemma keeps_stop : keeps (App.liftPlayer (stop env)).
Proof. intros st Hb. rewrite liftPlayer_stop. by apply onPlayer_backed. Qed.

Lemma lower_alarm_backed st :
  App.backed st -> App.backed (App.setIsAlarmRinging false st).
Proof. intros [Ha Hp]. by split. Qed.

Lemma lower_preview_backed st :
  App.backed st -> App.backed (App.setIsPreviewing false st).
Proof. intros [Ha Hp]. by split. Qed.

Lemma keeps_stopAlarm : keeps (App.stopAlarm env).
Proof.
  apply preserves_bind; [apply keeps_stop|]. intros _.
  apply preserves_modify, lower_alarm_backed.
Qed.

(** A method of the player that calls no closure and registers none. *)
Lemma keeps_quiet {A} (m : Js World A) :
  (forall w, called (window (m w).2) = called (window w) /\
             onPlaybackEnd (this (m w).2) = onPlaybackEnd (this w)) ->
  keeps (App.liftPlayer m).
Proof.
  intros Hm st [Ha Hp]. unfold App.liftPlayer, App.deliver. simpl.
  destruct (Hm (App.player st)) as [Hc Hr]. rewrite Hc, drop_all. simpl.
  split; simpl; rewrite Hr; done.
Qed.

Lemma playSuccessSound_quiet volume w :
  called (window (Success.playSuccessSound env volume w).2) = called (window w) /\
  onPlaybackEnd (this (Success.playSuccessSound env volume w).2)
    = onPlaybackEnd (this w).
Proof.
  destruct w as [[ctx buf src st li cb] [tm nt so ns ut aw na ca un]].
  unfold Success.playSuccessSound, Success.forEach, Success.notes, Success.note.
  player. by destruct ctx, (AudioContext env).
Qed.

Lemma keeps_toggle volume id' t : keeps (App.toggle env volume id' t).
Proof.
  unfold App.toggle. destruct (id t =? id')%string; [|apply preserves_ret].
  apply preserves_bind; [|intros; apply preserves_ret].
  destruct (negb (completed t)); [|apply preserves_ret].
  apply keeps_quiet, playSuccessSound_quiet.
Qed.

Lemma setTasks_backed l st : App.backed st -> App.backed (App.setTasks l st).
Proof. by intros [Ha Hp]. Qed.

Lemma keeps_toggleTask id' : keeps (App.toggleTask env id').
Proof.
  unfold App.toggleTask.
  apply preserves_bind; [apply preserves_gets|]. intros ringing.
  apply preserves_bind; [destruct ringing; [apply keeps_stopAlarm|apply preserves_ret]|].
  intros _. apply preserves_bind; [apply preserves_gets|]. intros current.
  apply preserves_bind; [apply preserves_gets|]. intros volume.
  apply preserves_bind; [apply preserves_arrayMap, keeps_toggle|]. intros updated.
  apply preserves_modify. intros st. apply setTasks_backed.
Qed.

Lemma keeps_initiateDeleteTask id' : keeps (App.initiateDeleteTask env id').
Proof.
  unfold App.initiateDeleteTask.
  apply preserves_bind; [apply preserves_gets|]. intros ringing.
  apply preserves_bind; [destruct ringing; [apply keeps_stopAlarm|apply preserves_ret]|].
  intros _. apply preserves_modify. by intros st [Ha Hp].
Qed.

(** Starting the preview: the flag goes up, the alert starts and its
    closure is registered. *)
Lemma preview_flags settings st :
  App.backed st ->
  let st' := App.onPlayer env
               (PlayNotification settings "Test Notification"
                  (Some App.previewEnded))
               (App.setIsPreviewing true st) in
  onPlaybackEnd (this (App.player st')) = Some App.previewEnded /\
  App.isAlarmRinging st' = false /\
  App.isPreviewing st' =
    negb (bool_decide (onPlaybackEnd (this (App.player st))
                       = Some App.previewEnded)).
Proof.
  intros [Ha Hp]. simpl.
  destruct (onPlayer_frame env
              (PlayNotification settings "Test Notification"
                 (Some App.previewEnded))
              (App.setIsPreviewing true st)) as (_ & _ & _ & _ & Hpl).
  rewrite Hpl.
  destruct (step_frame env (App.player (App.setIsPreviewing true st))
              (PlayNotification settings "Test Notification"
                 (Some App.previewEnded)))
    as [_ Hr].
  split; [done|]. clear Hpl Hr.
  rewrite deliver_step. simpl. unfold Closures.registered.
  destruct (onPlaybackEnd (this (App.player st))) as [cb|] eqn:E; simpl.
  - unfold App.notify.
    destruct (Nat.eqb_spec cb App.alarmEnded) as [->|Na]; simpl; [done|].
    destruct (Nat.eqb_spec cb App.previewEnded) as [->|Np]; simpl.
    { split; [|done]. destruct (App.isAlarmRinging st); [|done].
      by specialize (Ha eq_refl). }
    rewrite bool_decide_eq_false_2 by congruence.
    split; [|done]. destruct (App.isAlarmRinging st); [|done].
    specialize (Ha eq_refl). congruence.
  - split; [|done]. destruct (App.isAlarmRinging st); [|done].
    by specialize (Ha eq_refl).
Qed.

Lemma keeps_togglePreview : keeps (App.togglePreview env).
Proof.
  intros st Hb. unfold App.togglePreview.
  unfold mbind at 1, js_bind at 1, gets at 1.
  destruct (App.isPreviewing st) eqn:Hpv.
  - apply (preserves_bind App.backed (App.liftPlayer (stop env))); [apply keeps_stop| |done].
    intros _. apply preserves_modify, lower_preview_backed.
  - unfold mbind, js_bind, modify, gets. rewrite liftPlayer_playNotification.
    simpl.
    destruct (preview_flags (App.settings st) st Hb) as (H1 & H2 & H3).
    split; [by rewrite H2|done].
Qed.

Lemma keeps_handleClose : keeps (App.handleClose env).
Proof.
  unfold App.handleClose.
  apply preserves_bind; [apply preserves_gets|]. intros [|]; [|apply preserves_ret].
  apply preserves_bind; [apply keeps_stop|]. intros _.
  apply preserves_modify, lower_preview_backed.
Qed.

Lemma keeps_handleFileChange size base64String name :
  keeps (App.handleFileChange size base64String name).
Proof.
  unfold App.handleFileChange.
  destruct (3 * 1024 * 1024 <? size); [apply preserves_ret|].
  apply preserves_bind; [by apply keeps_quiet|]. intros _.
  apply preserves_modify. by intros st [Ha Hp].
Qed.

Lemma handle_backed m st : keeps m -> App.backed st -> App.backed (App.handle m st).
Proof.
  intros Hm Hb. unfold App.handle. specialize (Hm st Hb).
  destruct (m st) as [[[]|e] st']; [done|].
  by destruct Hm.
Qed.

Lemma tick_backed now st : App.backed st -> App.backed (App.tick env now st).
Proof.
  intros [Ha Hp].
  destruct (tick_rings env now st) as (_ & st0 & H1 & H2 & H3 & ->).
  apply rings_backed. split; rewrite ?H1, ?H2, H3; done.
Qed.

Lemma step_backed st e : App.backed st -> App.backed (App.step env st e).
Proof.
  intros Hb. destruct e; simpl.
  - by apply tick_backed.
  - by destruct Hb.
  - unfold App.submitNewTask. destruct (_ || _); [done|]. by destruct Hb.
  - apply handle_backed; [apply keeps_stopAlarm|done].
  - apply handle_backed; [apply keeps_toggleTask|done].
  - apply handle_backed; [apply keeps_initiateDeleteTask|done].
  - by destruct Hb.
  - unfold App.confirmDeleteTask.
    destruct (App.taskToDelete st) as [[|c rest]|]; (done || by destruct Hb).
  - by destruct Hb.
  - unfold App.importCSV. destruct (0 <? _)%nat; [|done]. by destruct Hb.
  - by destruct Hb.
  - apply handle_backed; [apply keeps_togglePreview|done].
  - apply handle_backed; [apply keeps_handleClose|done].
  - apply handle_backed; [apply keeps_handleFileChange|done].
  - by apply onPlayer_backed.
Qed.

(** X12. Whatever happens to the application from its first render on, a
    flag that is up has its closure registered with the player: the alarm
    indicator is never shown, and the preview button never reads as
    playing, without the player holding the closure that will lower the
    flag when the sound is stopped. In particular the two flags are never
    up together. *)
Theorem flags_are_backed stored saved now trace :
  let st := App.run env (App.initial stored saved now) trace in
  App.backed st /\
  ~ (App.isAlarmRinging st = true /\ App.isPreviewing st = true).
Proof.
  simpl.
  assert (App.backed (App.run env (App.initial stored saved now) trace)) as Hb.
  { unfold App.run. generalize (App.initial stored saved now),
      (conj (fun H => False_ind _ (diff_false_true H))
            (fun H => False_ind _ (diff_false_true H))
         : App.backed (App.initial stored saved now)).
    induction trace as [|e trace IH]; intros st Hst; [done|].
    simpl. apply IH. by apply step_backed. }
  split; [done|]. intros [Ha Hp]. destruct Hb as [Hba Hbp].
  specialize (Hba Ha). specialize (Hbp Hp). rewrite Hba in Hbp. done.
Qed.

(** X13. A tick that finds tasks due leaves the closure of the alarm
    registered with the player, and the alarm flag up exactly when one task
    was due and that closure was not registered before. When two tasks are
    due at once, or an alarm is still registered when the next task falls
    due, starting the later alert calls the closure of the earlier one, and
    the flag is down while the later alert sounds. *)
Theorem alarm_flag_after_tick now st p :
  Scanner.crashed (App.scan st) = false -> Notification env = Some p ->
  let due := filter (fun t => Scanner.isDue now t = true) (App.tasks st) in
  let st' := App.step env st (App.Tick now) in
  match due with
  | [] =>
      App.isAlarmRinging st' = App.isAlarmRinging st /\
      App.player st' = App.player st /\ App.tasks st' = App.tasks st
  | _ :: rest =>
      onPlaybackEnd (this (App.player st')) = Some App.alarmEnded /\
      (App.isAlarmRinging st' = true <->
       rest = [] /\
       onPlaybackEnd (this (App.player st)) <> Some App.alarmEnded)
  end.
Proof.
  intros Hc Hn. simpl.
  destruct (tick_rings env now st) as (Hs & st0 & H1 & H2 & H3 & Hst).
  rewrite Hc, Hn in Hst. simpl in Hst.
  destruct (filter _ (App.tasks st)) as [|t rest] eqn:Hdue.
  - rewrite Hst in Hs |- *. simpl in Hs |- *. split; [done|]. split; [done|].
    unfold App.tasks at 1. rewrite Hs. unfold Scanner.tick. rewrite Hc.
    rewrite updater_idle; [done|].
    apply not_true_is_false. intros Hex.
    apply (existsb_isDue_lookup now) in Hex as (j & t & Hj & Hd).
    assert (t ∈ filter (fun t => Scanner.isDue now t = true) (App.tasks st)) as Hin.
    { apply list_elem_of_filter. split; [done|]. by eapply list_elem_of_lookup_2. }
    rewrite Hdue in Hin. by apply elem_of_nil in Hin.
  - destruct (rings_flags env (App.settings st) (t :: rest) st0 ltac:(done))
      as [Hr Hf].
    rewrite Hst. split; [done|]. rewrite Hf, H3.
    destruct rest as [|t' rest]; [|split; [done|by intros [? _]]].
    rewrite negb_true_iff, bool_decide_eq_false. tauto.
Qed.

End AppInvariant.

Section HandlerFacts.

Variable env : Platform.

Lemma setPlayer_player st : App.setPlayer (App.player st) st = st.
Proof. by destruct st. Qed.

Lemma stopAlarm_returns st :
  App.stopAlarm env st =
    (Returned tt, App.setIsAlarmRinging false (App.onPlayer env Stop st)).
Proof.
  unfold App.stopAlarm, mbind, js_bind. by rewrite liftPlayer_stop.
Qed.

Lemma quieted_frame st :
  App.isAlarmRinging (App.quieted env st) = false /\
  App.scan (App.quieted env st) = App.scan st /\
  App.settings (App.quieted env st) = App.settings st /\
  App.form (App.quieted env st) = App.form st /\
  App.taskToDelete (App.quieted env st) = App.taskToDelete st /\
  App.player (App.quieted env st) =
    (if App.isAlarmRinging st then stopped env (App.player st)
     else App.player st).
Proof.
  unfold App.quieted. destruct (App.isAlarmRinging st) eqn:E; [|done].
  destruct (onPlayer_frame env Stop st) as (H1 & H2 & H3 & H4 & H5).
  simpl. rewrite H1, H2, H3, H4, H5. simpl. unfold task.
  by rewrite stop_stopped.
Qed.

Lemma liftPlayer_success_returns volume st :
  App.audible env (App.player st) ->
  exists w1,
    App.liftPlayer (Success.playSuccessSound env volume) st =
      (Returned tt, App.setPlayer w1 st) /\
    App.audible env w1.
Proof.
  intros Ha. unfold App.liftPlayer, App.deliver.
  pose proof (playSuccessSound_quiet env volume (App.player st)) as [Hc _].
  rewrite (playSuccessSound_returns env volume (App.player st) Ha) in Hc |- *.
  simpl in *. rewrite drop_all. simpl. eexists. split; [done|].
  left. simpl. destruct Ha as [[c ->]|[c ->]]; [done|].
  by destruct (audioContext (this (App.player st))).
Qed.

Lemma liftPlayer_success_throws volume st :
  audioContext (this (App.player st)) = None -> AudioContext env = None ->
  App.liftPlayer (Success.playSuccessSound env volume) st =
    (Thrown (TypeError "AudioContext is not a constructor"), st).
Proof.
  intros Hc He. unfold App.liftPlayer, App.deliver.
  rewrite (playSuccessSound_throws env volume _ Hc He). simpl.
  by rewrite drop_all, setPlayer_player.
Qed.

(** With an audio context to be had, the callback of [toggleTask] flips
    every task of the given id and touches nothing but the player. *)
Lemma arrayMap_toggle_audible volume id' l : forall st,
  App.audible env (App.player st) ->
  exists w1,
    App.arrayMap (App.toggle env volume id') l st =
      (Returned (map (App.flipped id') l), App.setPlayer w1 st) /\
    App.audible env w1.
Proof.
  induction l as [|t l IH]; intros st Ha; simpl.
  { exists (App.player st). by rewrite setPlayer_player. }
  unfold mbind, js_bind. unfold App.toggle at 1. unfold App.flipped at 1.
  unfold mbind, js_bind.
  destruct (id t =? id')%string.
  - destruct (completed t) eqn:Hc; cbn [negb].
    + unfold mret at 1 2, js_ret at 1 2.
      destruct (IH st Ha) as (w1 & -> & Ha1). by exists w1.
    + destruct (liftPlayer_success_returns volume st Ha) as (w0 & -> & Ha0).
      unfold mret at 1, js_ret at 1.
      destruct (IH (App.setPlayer w0 st) Ha0) as (w1 & -> & Ha1).
      by exists w1.
  - unfold mret at 1, js_ret at 1.
    destruct (IH st Ha) as (w1 & -> & Ha1). by exists w1.
Qed.

(** Without one, it throws at the first task to be completed and has
    changed nothing by then. *)
Lemma arrayMap_toggle_mute volume id' l st :
  audioContext (this (App.player st)) = None -> AudioContext env = None ->
  App.arrayMap (App.toggle env volume id') l st =
    if existsb (fun t => (id t =? id')%string && negb (completed t)) l
    then (Thrown (TypeError "AudioContext is not a constructor"), st)
    else (Returned (map (App.flipped id') l), st).
Proof.
  intros Hc He. induction l as [|t l IH]; simpl; [done|].
  unfold mbind, js_bind. unfold App.toggle at 1. unfold App.flipped at 1.
  unfold mbind, js_bind.
  destruct (id t =? id')%string; cbn [andb].
  - destruct (completed t); cbn [negb orb].
    + unfold mret at 1 2, js_ret at 1 2.
      rewrite IH. by destruct (existsb _ l).
    + by rewrite liftPlayer_success_throws.
  - unfold mret at 1, js_ret at 1.
    rewrite IH. by destruct (existsb _ l).
Qed.

Lemma toggleTask_unfold id' st :
  App.toggleTask env id' st =
    let st1 := App.quieted env st in
    match App.arrayMap (App.toggle env (volume (App.settings st1)) id')
            (App.tasks st1) st1 with
    | (Returned updated, st2) => (Returned tt, App.setTasks updated st2)
    | (Thrown e, st2) => (Thrown e, st2)
    end.
Proof.
  unfold App.toggleTask, App.quieted, mbind, js_bind, gets, modify. simpl.
  destruct (App.isAlarmRinging st); [rewrite stopAlarm_returns|]; simpl;
    by destruct (App.arrayMap _ _ _) as [[updated|e] st2].
Qed.

Lemma flipped_flipped id' t : App.flipped id' (App.flipped id' t) = t.
Proof.
  unfold App.flipped. destruct (id t =? id')%string eqn:E; simpl.
  - rewrite E, negb_involutive. by destruct t.
  - by rewrite E.
Qed.

(** X14. Where an audio context can be had, [toggleTask] flips the
    completion of every task of the given id and of no other, leaves each
    task at its place with its title, time, date and notified mark, and
    leaves the alarm flag down; toggling the same id again gives back the
    collection there was. *)
Theorem toggle_flips_completion id' st :
  App.audible env (App.player st) ->
  let st' := App.step env st (App.ToggleTask id') in
  App.tasks st' = map (App.flipped id') (App.tasks st) /\
  App.isAlarmRinging st' = false /\
  (forall j t, App.tasks st !! j = Some t ->
     exists t', App.tasks st' !! j = Some t' /\
       id t' = id t /\ title t' = title t /\ time t' = time t /\
       date t' = date t /\ notified t' = notified t /\
       completed t' =
         (if (id t =? id')%string then negb (completed t) else completed t)) /\
  App.tasks (App.step env st' (App.ToggleTask id')) = App.tasks st.
Proof.
  intros Ha.
  assert (forall st0, App.audible env (App.player st0) ->
    exists w1,
      App.step env st0 (App.ToggleTask id') =
        App.setTasks (map (App.flipped id') (App.tasks st0))
          (App.setPlayer w1 (App.quieted env st0)) /\
      App.audible env w1) as Hstep.
  { intros st0 Ha0. simpl. unfold App.handle. rewrite toggleTask_unfold. simpl.
    destruct (quieted_frame st0) as (Hf & Hs & Hse & _ & _ & Hp).
    assert (App.audible env (App.player (App.quieted env st0))) as Ha1.
    { rewrite Hp. destruct (App.isAlarmRinging st0); [|done].
      destruct Ha0 as [H|H]; [by left|by right]. }
    destruct (arrayMap_toggle_audible (volume (App.settings (App.quieted env st0)))
                id' (App.tasks (App.quieted env st0)) _ Ha1) as (w1 & -> & Ha2).
    exists w1. split; [|done]. unfold App.tasks. by rewrite Hs. }
  destruct (Hstep st Ha) as (w1 & Hst & Ha1). simpl. simpl in Hst.
  rewrite Hst.
  destruct (quieted_frame st) as (Hf & Hs & _).
  split; [done|]. split; [done|]. split.
  - intros j t Hj. exists (App.flipped id' t). split.
    + unfold App.tasks at 1. simpl. rewrite list_lookup_fmap.
      by rewrite Hj.
    + unfold App.flipped. by destruct (id t =? id')%string.
  - match goal with |- App.tasks (App.handle _ ?s) = _ =>
      destruct (Hstep s ltac:(done)) as (w2 & Hst2 & _) end.
    simpl in Hst2. rewrite Hst2. unfold App.tasks at 1 2. simpl.
    generalize (App.tasks st). intros l.
    induction l as [|a l IHl]; simpl; [done|].
    by rewrite flipped_flipped, IHl.
Qed.

(** X15. Where no audio context can be had, no task can be completed:
    toggling an id that an open task carries throws, the collection stays
    the array it was and the error is reported, the alarm having been
    stopped before. Reopening completed tasks works as everywhere. *)
Theorem toggle_without_audio_completes_nothing id' st :
  AudioContext env = None -> audioContext (this (App.player st)) = None ->
  let st' := App.step env st (App.ToggleTask id') in
  App.isAlarmRinging st' = false /\
  if existsb (fun t => (id t =? id')%string && negb (completed t))
       (App.tasks st)
  then App.scan st' = App.scan st /\
       unhandled (window (App.player st')) =
         unhandled (window (App.player (App.quieted env st))) ++
         [TypeError "AudioContext is not a constructor"]
  else App.tasks st' = map (App.flipped id') (App.tasks st).
Proof.
  intros He Hc. simpl. unfold App.handle. rewrite toggleTask_unfold. simpl.
  destruct (quieted_frame st) as (Hf & Hs & Hse & _ & _ & Hp).
  assert (audioContext (this (App.player (App.quieted env st))) = None) as Hc1.
  { rewrite Hp. by destruct (App.isAlarmRinging st). }
  rewrite (arrayMap_toggle_mute _ _ _ _ Hc1 He).
  assert (App.tasks (App.quieted env st) = App.tasks st) as Ht
    by (unfold App.tasks; by rewrite Hs).
  rewrite !Ht.
  destruct (existsb _ (App.tasks st)); simpl; [|done].
  split; [done|]. split; [done|]. done.
Qed.

End HandlerFacts.

Section InPlace.

Variable env : Platform.

Lemma liftPlayer_scan {A} (m : Js World A) c :
  App.preserves (fun s => App.scan s = c) (App.liftPlayer m).
Proof.
  intros st Hs. unfold App.liftPlayer, App.deliver. simpl.
  by destruct (notify_frame (App.setPlayer (m (App.player st)).2 st)
              (drop (length (called (window (App.player st))))
                 (called (window (m (App.player st)).2)))) as (-> & _).
Qed.

Lemma stopAlarm_scan c : App.preserves (fun s => App.scan s = c) (App.stopAlarm env).
Proof.
  apply preserves_bind; [apply liftPlayer_scan|]. intros _.
  by apply preserves_modify.
Qed.

Lemma handle_scan m st :
  App.preserves (fun s => App.scan s = App.scan st) m ->
  App.scan (App.handle m st) = App.scan st.
Proof.
  intros Hm. unfold App.handle. specialize (Hm st eq_refl).
  by destruct (m st) as [[[]|e] st'].
Qed.

Lemma toggle_scan volume id' t c :
  App.preserves (fun s => App.scan s = c) (App.toggle env volume id' t).
Proof.
  unfold App.toggle. destruct (id t =? id')%string; [|apply preserves_ret].
  apply preserves_bind; [|intros; apply preserves_ret].
  destruct (negb (completed t)); [apply liftPlayer_scan|apply preserves_ret].
Qed.

Lemma arrayMap_toggle_result volume id' l : forall st updated st2,
  App.arrayMap (App.toggle env volume id') l st = (Returned updated, st2) ->
  updated = map (App.flipped id') l.
Proof.
  induction l as [|t l IH]; intros st updated st2; simpl.
  { by intros [= <- _]. }
  unfold mbind, js_bind.
  destruct (App.toggle env volume id' t st) as [[t'|e] st1] eqn:Ht; [|done].
  destruct (App.arrayMap _ l st1) as [[l'|e] st3] eqn:Hl; [|done].
  intros [= <- _]. rewrite (IH _ _ _ Hl). f_equal.
  revert Ht. unfold App.toggle, App.flipped, mbind, js_bind.
  destruct (id t =? id')%string; [|by intros [= <- _]].
  destruct (negb (completed t)).
  - destruct (App.liftPlayer _ st) as [[[]|e] st4]; [|done]. by intros [= <- _].
  - by intros [= <- _].
Qed.

(** An event that leaves the tasks in place leaves a notified task
    notified. *)
Lemma step_in_place st e j t :
  App.inPlace e = true ->
  App.tasks st !! j = Some t -> notified t = Some true ->
  exists t', App.tasks (App.step env st e) !! j = Some t' /\
    notified t' = Some true /\ id t' = id t.
Proof.
  intros He Hj Hn.
  assert (forall st', App.scan st' = App.scan st ->
            exists t', App.tasks st' !! j = Some t' /\
              notified t' = Some true /\ id t' = id t) as Hsame.
  { intros st' Hs. exists t. unfold App.tasks. rewrite Hs. done. }
  destruct e; try done; simpl.
  - destruct (tick_rings env now st) as (Hs & _). simpl in Hs.
    unfold App.tasks at 1. rewrite Hs.
    destruct (Scanner.crashed (App.scan st)) eqn:Hc.
    { rewrite tick_crashed by done. by exists t. }
    pose proof (tick_at env (App.settings st) now (App.scan st) j Hc) as H.
    simpl in H. unfold App.tasks in Hj. rewrite Hj in H.
    rewrite (isDue_not_notified now t Hn) in H. destruct H as [_ H].
    by exists t.
  - by apply Hsame.
  - apply Hsame, handle_scan, stopAlarm_scan.
  - unfold App.handle. rewrite toggleTask_unfold. simpl.
    destruct (quieted_frame env st) as (_ & Hs & _).
    pose proof (preserves_arrayMap (fun s => App.scan s = App.scan st)
                  (App.toggle env (volume (App.settings (App.quieted env st))) id')
                  (App.tasks (App.quieted env st))
                  (fun a => toggle_scan _ id' a _) _ Hs) as Hsc.
    destruct (App.arrayMap _ _ _) as [[updated|err] st2] eqn:Hm; simpl in *.
    + apply arrayMap_toggle_result in Hm. subst updated.
      exists (App.flipped id' t). unfold App.tasks at 1. simpl.
      rewrite list_lookup_fmap. unfold App.tasks at 1. rewrite Hs.
      fold (App.tasks st). rewrite Hj. simpl.
      unfold App.flipped. by destruct (id t =? id')%string.
    + by apply Hsame.
  - apply Hsame, handle_scan. unfold App.initiateDeleteTask.
    apply preserves_bind; [apply preserves_gets|]. intros ringing.
    apply preserves_bind;
      [destruct ringing; [apply stopAlarm_scan|apply preserves_ret]|].
    intros _. by apply preserves_modify.
  - by apply Hsame.
  - by apply Hsame.
  - apply Hsame, handle_scan. unfold App.togglePreview.
    apply preserves_bind; [apply preserves_gets|]. intros [|].
    + apply preserves_bind; [apply liftPlayer_scan|]. intros _.
      by apply preserves_modify.
    + apply preserves_bind; [by apply preserves_modify|]. intros _.
      apply preserves_bind; [apply preserves_gets|]. intros current.
      apply liftPlayer_scan.
  - apply Hsame, handle_scan. unfold App.handleClose.
    apply preserves_bind; [apply preserves_gets|]. intros [|];
      [|apply preserves_ret].
    apply preserves_bind; [apply liftPlayer_scan|]. intros _.
    by apply preserves_modify.
  - apply Hsame, handle_scan. unfold App.handleFileChange.
    destruct (3 * 1024 * 1024 <? size); [apply preserves_ret|].
    apply preserves_bind; [apply liftPlayer_scan|]. intros _.
    by apply preserves_modify.
  - apply Hsame. by destruct (onPlayer_frame env e st) as (-> & _).
Qed.

(** X16. A task that has rung does not ring again, however often it is
    completed and reopened: through ticks, toggles, the stop button,
    previews, changes of settings, uploads and whatever happens to the
    player, a task with the notified mark keeps its place, its id and the
    mark, and no tick finds it due. *)
Theorem notified_task_stays_notified trace : forall st j t,
  Forall (fun e => App.inPlace e = true) trace ->
  App.tasks st !! j = Some t -> notified t = Some true ->
  exists t', App.tasks (App.run env st trace) !! j = Some t' /\
    notified t' = Some true /\ id t' = id t /\
    forall now, Scanner.isDue now t' = false.
Proof.
  induction trace as [|e trace IH]; intros st j t Hall Hj Hn.
  { exists t. repeat split; try done.
    intros now. by apply isDue_not_notified. }
  apply Forall_cons in Hall as [He Hall]. simpl.
  destruct (step_in_place st e j t He Hj Hn) as (t1 & Hj1 & Hn1 & Hid1).
  destruct (IH _ j t1 Hall Hj1 Hn1) as (t' & H1 & H2 & H3 & H4).
  exists t'. repeat split; try done. congruence.
Qed.

(** X17. Deleting: confirming after [initiateDeleteTask] removes every task
    that carries the id and no other, keeps the order of the rest, closes
    the dialog and leaves the alarm flag down; confirming once more changes
    nothing. With the empty id nothing is deleted: it stays in
    [taskToDelete], where it counts as none. *)
Theorem delete_removes_the_id id' st :
  let st2 := App.run env st [App.InitiateDeleteTask id'; App.ConfirmDeleteTask] in
  App.tasks st2 =
    (if Text.truthy id'
     then filter (fun t => id t <> id') (App.tasks st)
     else App.tasks st) /\
  App.taskToDelete st2 = (if Text.truthy id' then None else Some id') /\
  App.isAlarmRinging st2 = false /\
  App.step env st2 App.ConfirmDeleteTask = st2.
Proof.
  simpl.
  assert (App.handle (App.initiateDeleteTask env id') st =
          App.setTaskToDelete (Some id') (App.quieted env st)) as ->.
  { unfold App.handle, App.initiateDeleteTask, App.quieted, mbind, js_bind,
      gets, modify. simpl.
    destruct (App.isAlarmRinging st); [rewrite stopAlarm_returns|]; done. }
  destruct (quieted_frame env st) as (Hf & Hs & _).
  assert (App.tasks (App.quieted env st) = App.tasks st) as Ht
    by (unfold App.tasks; by rewrite Hs).
  revert Hf Ht. generalize (App.quieted env st). clear Hs.
  intros [sc se fo td ar pv pl] Hf Ht.
  unfold App.confirmDeleteTask, App.tasks in *. simpl in *. subst ar.
  destruct id' as [|c rest]; simpl; by rewrite ?Ht.
Qed.

(** X18. Reordering loses nothing: given the open tasks in a new order, the
    collection afterwards is a rearrangement of the one before, with the
    open tasks first in the order given and the completed ones after them
    in the order they had. *)
Theorem reorder_keeps_every_task newOrder st :
  newOrder ≡ₚ filter (fun t => completed t = false) (App.tasks st) ->
  let st' := App.step env st (App.HandleReorder newOrder) in
  App.tasks st' ≡ₚ App.tasks st /\
  filter (fun t => completed t = false) (App.tasks st') = newOrder /\
  filter (fun t => completed t = true) (App.tasks st') =
    filter (fun t => completed t = true) (App.tasks st).
Proof.
  intros Hperm. simpl.
  change (App.tasks (App.handleReorder newOrder st)) with
    (newOrder ++ filter (fun t => completed t = true) (App.tasks st)).
  assert (Forall (fun t => completed t = false) newOrder) as Hopen.
  { rewrite Hperm. apply Forall_forall. by intros t [? _]%list_elem_of_filter. }
  assert (forall l, Forall (fun t => completed t = false) l ->
            filter (fun t => completed t = false) l = l /\
            filter (fun t => completed t = true) l = []) as Hl.
  { induction l as [|a l IHl]; intros Hf; [done|].
    apply Forall_cons in Hf as [Ha Hf]. destruct (IHl Hf) as [H1 H2].
    rewrite !filter_cons, H1, H2, decide_True, decide_False by congruence.
    done. }
  assert (forall l : list Task,
            filter (fun t => completed t = false)
              (filter (fun t => completed t = true) l) = [] /\
            filter (fun t => completed t = true)
              (filter (fun t => completed t = true) l) =
              filter (fun t => completed t = true) l /\
            l ≡ₚ filter (fun t => completed t = false) l ++
                 filter (fun t => completed t = true) l) as Hc.
  { induction l as [|a l (H1 & H2 & H3)]; [done|].
    rewrite !filter_cons. destruct (completed a) eqn:E.
    - rewrite decide_True, decide_False by congruence.
      rewrite !filter_cons, decide_False, decide_True, H1, H2 by congruence.
      split; [done|]. split; [done|].
      rewrite <- Permutation_middle. by constructor.
    - rewrite decide_False, decide_True by congruence.
      split; [done|]. split; [done|]. simpl. by constructor. }
  destruct (Hl newOrder Hopen) as [H1 H2].
  destruct (Hc (App.tasks st)) as (H3 & H4 & H5).
  rewrite !filter_app, H1, H2, H3, H4, app_nil_r. simpl.
  split; [|done]. rewrite Hperm. by symmetry.
Qed.

End InPlace.

Section Compositions.

Variable env : Platform.

(** X19. Submitting twice adds once: a submission that is accepted empties
    the form, and one that is turned away changes nothing, so the
    submission that follows either of them changes nothing. *)
Theorem double_submit_adds_once st uuid now stamp uuid' now' stamp' :
  let st1 := App.step env st (App.SubmitNewTask uuid now stamp) in
  App.step env st1 (App.SubmitNewTask uuid' now' stamp') = st1 /\
  (length (App.tasks st1) <= S (length (App.tasks st)))%nat.
Proof.
  simpl. unfold App.submitNewTask.
  destruct (negb (Text.truthy (Text.trim (App.newTaskTitle (App.form st)))) ||
            negb (Text.truthy (App.newTaskTime (App.form st))) ||
            negb (Text.truthy (App.newTaskDate (App.form st)))) eqn:E.
  - rewrite E. split; [done|lia].
  - simpl. split; [done|]. unfold App.tasks. simpl. rewrite length_app. simpl. lia.
Qed.

(** X20. Submission composed with the tick: a form that holds a title that
    is not blank and the date and time of a clock reading gives, at the end
    of the collection, an open task with the title as typed, and the tick
    at that reading starts its alert once and marks it notified. *)
Theorem submitted_task_rings_at_its_time st uuid now0 stamp now p :
  Scanner.crashed (App.scan st) = false -> Notification env = Some p ->
  Text.trim (App.newTaskTitle (App.form st)) <> "" ->
  App.newTaskTime (App.form st) = currentTime now ->
  App.newTaskDate (App.form st) = currentDate now ->
  let i := length (App.tasks st) in
  let st1 := App.step env st (App.SubmitNewTask uuid now0 stamp) in
  let st2 := App.step env st1 (App.Tick now) in
  App.tasks st1 =
    App.tasks st ++
    [{| id := uuid; title := App.newTaskTitle (App.form st);
        time := currentTime now; date := currentDate now;
        priority := App.newTaskPriority (App.form st);
        completed := false; notified := None; createdAt := Some stamp |}] /\
  App.newTaskDate (App.form st1) = App.getTodayDate now0 /\
  Scanner.alerts i (Scanner.history (App.scan st2)) =
    S (Scanner.alerts i (Scanner.history (App.scan st))) /\
  exists t, App.tasks st2 !! i = Some t /\
    title t = App.newTaskTitle (App.form st) /\ notified t = Some true /\
    completed t = autoComplete (App.settings st).
Proof.
  intros Hc Hn Ht Htime Hdate. simpl.
  assert (App.submitNewTask uuid now0 stamp st =
    App.setForm {| App.newTaskTitle := ""; App.newTaskTime := "";
                   App.newTaskDate := App.getTodayDate now0;
                   App.newTaskPriority := medium |}
      (App.setTasks
         (App.tasks st ++
          [{| id := uuid; title := App.newTaskTitle (App.form st);
              time := currentTime now; date := currentDate now;
              priority := App.newTaskPriority (App.form st);
              completed := false; notified := None;
              createdAt := Some stamp |}]) st)) as ->.
  { unfold App.submitNewTask. rewrite Htime, Hdate.
    destruct (Text.trim (App.newTaskTitle (App.form st))); [done|].
    assert (currentTime now <> "") as H1.
    { unfold currentTime. intros E. apply (f_equal String.length) in E.
      rewrite !append_length in E. simpl in E. lia. }
    assert (currentDate now <> "") as H2.
    { unfold currentDate. intros E. apply (f_equal String.length) in E.
      rewrite !append_length in E. simpl in E. lia. }
    destruct (currentTime now); [done|]. by destruct (currentDate now). }
  split; [done|]. split; [done|].
  set (t := {| id := uuid; title := App.newTaskTitle (App.form st);
               time := currentTime now; date := currentDate now;
               priority := App.newTaskPriority (App.form st);
               completed := false; notified := None;
               createdAt := Some stamp |}).
  match goal with |- context [App.tick env now ?s] => set (st1 := s) end.
  destruct (tick_rings env now st1) as (Hs & _). simpl in Hs.
  assert (Scanner.elems (Scanner.tasks (App.scan st1)) !! length (App.tasks st)
          = Some t) as Hi.
  { simpl. fold (App.tasks st).
    by rewrite lookup_app_r, Nat.sub_diag by lia. }
  assert (Scanner.isDue now t = true) as Hd by by apply unnotified_isDue.
  pose proof (tick_at env (App.settings st1) now (App.scan st1)
                (length (App.tasks st)) Hc) as H.
  simpl in H. fold (App.tasks st) in H. simpl in Hi. fold (App.tasks st) in Hi.
  rewrite Hi, Hd in H.
  destruct H as [(_ & Ha & He)|(_ & Hnone & _)]; [|congruence].
  split; [rewrite Hs; exact Ha|].
  exists (Scanner.markNotified (App.settings st) t).
  split; [unfold App.tasks; rewrite Hs; exact He|].
  simpl. by destruct (autoComplete (App.settings st)).
Qed.

(** A decoding that succeeds puts the sound in the cache and plays it. *)
Lemma decoded_plays w k base64Data gain0 loop0 :
  awaiting (window w) !! k = Some (Decode base64Data gain0 loop0) ->
  let w' := step env w (Decoded k true) in
  customAudioBuffer (this w') = Some base64Data /\
  currentSource (this w') = Some (nextSource (window w)) /\
  sources (window w') !! nextSource (window w) =
    Some {| node := BufferSource base64Data loop0; gain := gain0;
            playing := true |}.
Proof.
  intros Hk. simpl. rewrite Hk.
  destruct w as [[ctx buf src st li cb] [tm nt so ns ut aw na ca un]].
  player. by rewrite lookup_insert_eq.
Qed.

(** With nothing in the cache, a custom alert parks at the decoding of the
    payload of the settings. *)
Lemma custom_parks w settings taskTitle onEnd c data :
  audioContext (this w) = Some running ->
  customAudioBuffer (this w) = None ->
  soundMode settings = custom ->
  customSoundData settings = Some (String c data) ->
  let w' := step env w (PlayNotification settings taskTitle onEnd) in
  awaiting (window w') !! nextAwait (window w) =
    Some (Decode (String c data) (volume settings) (audioLoop settings)) /\
  nextSource (window w') = nextSource (window w).
Proof.
  intros Hc Hb Hm Hd. simpl. rewrite playNotification_unfold. rewrite Hc.
  destruct w as [[ctx buf src st li cb] [tm nt so ns ut aw na ca un]].
  destruct settings as [th ac sm data' name vol dur loop voice].
  simpl in *. subst. player.
  destruct (0 <? dur); simpl; by rewrite lookup_insert_eq.
Qed.

(** Clearing the cache and starting a custom alert decodes the payload of
    the settings, and that is what plays when the decoding succeeds. *)
Lemma cleared_cache_decodes w settings taskTitle onEnd c data :
  audioContext (this w) = Some running ->
  soundMode settings = custom ->
  customSoundData settings = Some (String c data) ->
  let k := nextAwait (window w) in
  let w2 := run env w [ClearCustomCache;
                       PlayNotification settings taskTitle onEnd;
                       Decoded k true] in
  customAudioBuffer (this w2) = Some (String c data) /\
  currentSource (this w2) = Some (nextSource (window w)) /\
  sources (window w2) !! nextSource (window w) =
    Some {| node := BufferSource (String c data) (audioLoop settings);
            gain := volume settings; playing := true |}.
Proof.
  intros Hc Hm Hd. unfold run. cbn [foldl].
  change (step env w ClearCustomCache)
    with (onThis (setCustomAudioBuffer None) w).
  destruct (custom_parks (onThis (setCustomAudioBuffer None) w) settings
              taskTitle onEnd c data Hc eq_refl Hm Hd) as [Hk Hns].
  change (nextAwait (window (onThis (setCustomAudioBuffer None) w)))
    with (nextAwait (window w)) in Hk.
  change (nextSource (window (onThis (setCustomAudioBuffer None) w)))
    with (nextSource (window w)) in Hns.
  destruct (decoded_plays _ _ _ _ _ Hk) as (H1 & H2 & H3).
  rewrite Hns in H2, H3. done.
Qed.

Lemma preview_flag settings st :
  App.isPreviewing
    (App.onPlayer env
       (PlayNotification settings "Test Notification" (Some App.previewEnded))
       (App.setIsPreviewing true st)) =
  negb (bool_decide (onPlaybackEnd (this (App.player st))
                     = Some App.previewEnded)).
Proof.
  rewrite deliver_step. simpl. unfold Closures.registered.
  destruct (onPlaybackEnd (this (App.player st))) as [cb|] eqn:E; simpl;
    [|done].
  unfold App.notify.
  destruct (Nat.eqb_spec cb App.alarmEnded) as [->|Na]; simpl; [done|].
  destruct (Nat.eqb_spec cb App.previewEnded) as [->|Np]; simpl; [done|].
  by rewrite bool_decide_eq_false_2 by congruence.
Qed.

Lemma togglePreview_starts st :
  App.isPreviewing st = false ->
  App.handle (App.togglePreview env) st =
    App.onPlayer env
      (PlayNotification (App.settings st) "Test Notification"
         (Some App.previewEnded))
      (App.setIsPreviewing true st).
Proof.
  intros Hpv.
  unfold App.handle, App.togglePreview, mbind, js_bind, gets, modify.
  rewrite Hpv. by rewrite liftPlayer_playNotification.
Qed.

Lemma handleFileChange_accepts st size base64String name :
  (3 * 1024 * 1024 <? size) = false ->
  App.handle (App.handleFileChange size base64String name) st =
    App.setSettings
      {| theme := theme (App.settings st);
         autoComplete := autoComplete (App.settings st);
         soundMode := soundMode (App.settings st);
         customSoundData := Some base64String;
         customSoundName := Some name;
         volume := volume (App.settings st);
         audioDuration := audioDuration (App.settings st);
         audioLoop := audioLoop (App.settings st);
         voiceURI := voiceURI (App.settings st) |}
      (App.setPlayer (onThis (setCustomAudioBuffer None) (App.player st)) st).
Proof.
  intros Hsize. unfold App.handle, App.handleFileChange. rewrite Hsize.
  unfold mbind, js_bind, App.liftPlayer, App.deliver, modify. simpl.
  by rewrite drop_all.
Qed.

(** X21. Choosing a sound file: a file above 3 MB changes nothing; any
    other replaces the payload in the settings and empties the cache, so
    that the preview that follows decodes the new payload and plays it,
    whatever sound was cached before. *)
Theorem uploaded_sound_is_what_plays st size c data name :
  soundMode (App.settings st) = custom ->
  App.isPreviewing st = false ->
  audioContext (this (App.player st)) = Some running ->
  let st1 := App.step env st (App.HandleFileChange size (String c data) name) in
  if 3 * 1024 * 1024 <? size then st1 = st
  else
    customSoundData (App.settings st1) = Some (String c data) /\
    customSoundName (App.settings st1) = Some name /\
    customAudioBuffer (this (App.player st1)) = None /\
    let st3 := App.run env st1
                 [App.TogglePreview;
                  App.Browser (Decoded (nextAwait (window (App.player st))) true)] in
    App.isPreviewing st3 =
      negb (bool_decide (onPlaybackEnd (this (App.player st))
                         = Some App.previewEnded)) /\
    sources (window (App.player st3)) !! nextSource (window (App.player st)) =
      Some {| node := BufferSource (String c data)
                        (audioLoop (App.settings st));
              gain := volume (App.settings st); playing := true |}.
Proof.
  intros Hm Hpv Hc. cbn zeta. unfold App.run. cbn [foldl App.step].
  destruct (3 * 1024 * 1024 <? size) eqn:Hsize.
  { unfold App.handle, App.handleFileChange. by rewrite Hsize. }
  rewrite handleFileChange_accepts by done.
  split; [done|]. split; [done|]. split; [done|].
  match goal with |- context [App.handle (App.togglePreview env) ?s] =>
    set (st1 := s) end.
  rewrite (togglePreview_starts st1 Hpv).
  match goal with |- context [App.onPlayer env (Decoded ?k true) ?s] =>
    set (st2 := s) end.
  assert (App.isPreviewing st2 =
          negb (bool_decide (onPlaybackEnd (this (App.player st))
                             = Some App.previewEnded))) as Hflag
    by apply (preview_flag (App.settings st1) st1).
  destruct (onPlayer_frame env
              (PlayNotification (App.settings st1) "Test Notification"
                 (Some App.previewEnded))
              (App.setIsPreviewing true st1)) as (_ & _ & _ & _ & Hp).
  fold st2 in Hp.
  destruct (onPlayer_frame env
              (Decoded (nextAwait (window (App.player st))) true) st2)
    as (_ & _ & _ & _ & Hp3).
  split.
  - rewrite deliver_step. simpl Closures.reaches. cbn [foldl]. exact Hflag.
  - rewrite Hp3, Hp.
    pose proof (cleared_cache_decodes (App.player st) (App.settings st1)
                  "Test Notification" (Some App.previewEnded) c data Hc Hm
                  eq_refl) as (_ & _ & H).
    exact H.
Qed.

End Compositions.

Section Ceiling.

Variable env : Platform.

(** While the player is at rest and no closure is registered, what happens
    by itself and [stop()] change neither that nor the flags nor the
    tasks. *)
Lemma rest_persists trace : forall st,
  Forall (fun e => isPlayNotification e = false) trace ->
  atRest (App.player st) -> onPlaybackEnd (this (App.player st)) = None ->
  let st' := App.run env st (App.Browser <$> trace) in
  atRest (App.player st') /\ onPlaybackEnd (this (App.player st')) = None /\
  App.isAlarmRinging st' = App.isAlarmRinging st /\
  App.isPreviewing st' = App.isPreviewing st /\
  App.scan st' = App.scan st.
Proof.
  induction trace as [|e trace IH]; intros st Hf Hr Hreg; [done|].
  apply Forall_cons in Hf as [He Hf]. cbn zeta. simpl.
  assert (App.onPlayer env e st = App.setPlayer (step env (App.player st) e) st)
    as Hstep.
  { rewrite deliver_step. unfold Closures.registered. rewrite Hreg.
    by destruct (Closures.reaches (App.player st) e). }
  rewrite Hstep.
  destruct (IH (App.setPlayer (step env (App.player st) e) st) Hf)
    as (H1 & H2 & H3 & H4 & H5).
  - simpl. by apply step_atRest.
  - simpl. destruct (step_frame env (App.player st) e) as [_ Hr2].
    rewrite Hr2, Hreg.
    destruct e; try done; by destruct (Closures.reaches _ _).
  - done.
Qed.


End Ceiling.

(** * The theorems at work *)

Lemma every_onEnd_is_called_once_witness :
  let trace := [PlayNotification DEFAULT_SETTINGS "Standup" (Some 7%nat);
                PlayNotification Sounds.ownSound "Lunch" (Some 8%nat);
                Decoded 0 true;
                PlayNotification Sounds.speakRepeatedly "Review" (Some 9%nat);
                UtteranceEnds; Stop; Stop] in
  called (window (run Scenario.desktop initial trace)) ++
  Closures.registered (run Scenario.desktop initial trace) =
    [7%nat; 8%nat; 9%nat].
Proof.
  apply (every_onEnd_is_called_once Scenario.desktop
           [PlayNotification DEFAULT_SETTINGS "Standup" (Some 7%nat);
            PlayNotification Sounds.ownSound "Lunch" (Some 8%nat);
            Decoded 0 true;
            PlayNotification Sounds.speakRepeatedly "Review" (Some 9%nat);
            UtteranceEnds; Stop; Stop] initial).
  - split.
    + intros u H. by apply elem_of_nil in H.
    + intros k settings taskTitle H. simpl in H.
      by rewrite lookup_empty in H.
  - repeat constructor.
Defined.

Lemma cached_sound_is_replayed_witness :
  let w := run Scenario.desktop initial
             [PlayNotification Sounds.ownSound "Standup" None;
              Decoded 0 true] in
  let w1 := step Scenario.desktop w
              (PlayNotification Cases.otherSound "Lunch" None) in
  sources (window w1) !! 1%nat =
    Some {| node := BufferSource "data:audio/mpeg;base64,SUQzBAAAAAAA" true;
            gain := 8 # 10; playing := true |}.
Proof.
  destruct (cached_sound_is_replayed Scenario.desktop
              (run Scenario.desktop initial
                 [PlayNotification Sounds.ownSound "Standup" None;
                  Decoded 0 true])
              Cases.otherSound "Lunch" None
              "data:audio/mpeg;base64,SUQzBAAAAAAA" "d"
              "ata:audio/mpeg;base64,//uQxAAAAAAA"
              eq_refl eq_refl eq_refl eq_refl) as (_ & H & _).
  exact H.
Defined.

Lemma parked_decode_refills_cleared_cache_witness :
  let w := step Scenario.desktop initial
             (PlayNotification Sounds.ownSound "Standup" None) in
  let w1 := run Scenario.desktop w [ClearCustomCache; Decoded 0 true] in
  customAudioBuffer (this w1) = Some "data:audio/mpeg;base64,SUQzBAAAAAAA" /\
  sources
    (window (step Scenario.desktop w1
               (PlayNotification Cases.otherSound "Lunch" None))) !! 1%nat =
    Some {| node := BufferSource "data:audio/mpeg;base64,SUQzBAAAAAAA" true;
            gain := 8 # 10; playing := true |}.
Proof.
  apply (parked_decode_refills_cleared_cache Scenario.desktop
           (step Scenario.desktop initial
              (PlayNotification Sounds.ownSound "Standup" None))
           0%nat "data:audio/mpeg;base64,SUQzBAAAAAAA" (8 # 10) true
           Cases.otherSound "Lunch" None "d"
           "ata:audio/mpeg;base64,//uQxAAAAAAA"
           eq_refl eq_refl eq_refl eq_refl).
Defined.

Lemma speech_unsupported_alert_is_mute_witness :
  let w1 := step Cases.noSpeech initial
              (PlayNotification Sounds.speakOnce "Standup" (Some 7%nat)) in
  sources (window w1) = ∅ /\ utterances (window w1) = [] /\
  onPlaybackEnd (this w1) = Some 7%nat /\
  timers (window w1) =
    {[ 1%positive := {| kind := Timeout; delay := 30000; action := CallStop |} ]}.
Proof.
  destruct (speech_unsupported_alert_is_mute Cases.noSpeech initial
              Sounds.speakOnce "Standup" (Some 7%nat) eq_refl eq_refl
              ltac:(discriminate) (initial_orderly Cases.noSpeech))
    as (H1 & _ & H2 & H3 & H4).
  split; [exact H1|]. split; [exact H2|]. split; [exact H3|exact H4].
Defined.

Lemma success_sound_is_outside_the_session_witness :
  exists w1,
    Success.playSuccessSound Scenario.desktop (8 # 10) Cases.warmed
      = (Returned tt, w1) /\
    timers (window w1) = timers (window Cases.warmed) /\
    sources (window (stopped Scenario.desktop w1)) !! 3%nat =
      Some {| node := Oscillator; gain := ((8 # 10) * (2 # 10))%Q;
              playing := true |}.
Proof.
  destruct (success_sound_is_outside_the_session Scenario.desktop (8 # 10)
              Cases.warmed)
    as (w1 & H1 & _ & H2 & _ & _ & _ & _ & H3).
  - left. by eexists.
  - intros i H. discriminate H.
  - exists w1. split; [exact H1|]. split; [exact H2|].
    apply (H3 2%nat). lia.
Defined.

Lemma alarm_flag_after_tick_witness :
  let st := App.initial [Scenario.standup; Cases.review; Scenario.lunch]
              DEFAULT_SETTINGS Scenario.at0859 in
  let st' := App.step Scenario.desktop st (App.Tick Scenario.at0900) in
  onPlaybackEnd (this (App.player st')) = Some App.alarmEnded /\
  App.isAlarmRinging st' = false.
Proof.
  pose proof (alarm_flag_after_tick Scenario.desktop Scenario.at0900
                (App.initial [Scenario.standup; Cases.review; Scenario.lunch]
                   DEFAULT_SETTINGS Scenario.at0859)
                granted eq_refl eq_refl) as H.
  cbn zeta in H.
  change (filter _ _) with [Scenario.standup; Cases.review] in H.
  destruct H as [H1 H2]. split; [exact H1|].
  destruct (App.isAlarmRinging _); [|reflexivity].
  destruct H2 as [H2 _]. destruct (H2 eq_refl) as [H3 _]. discriminate H3.
Defined.

Lemma toggle_flips_completion_witness :
  let st := App.initial [Scenario.standup; Scenario.lunch] DEFAULT_SETTINGS
              Scenario.at0859 in
  let st' := App.step Scenario.desktop st (App.ToggleTask "7f1c") in
  App.tasks st' =
    map (App.flipped "7f1c") [Scenario.standup; Scenario.lunch] /\
  App.tasks (App.step Scenario.desktop st' (App.ToggleTask "7f1c")) =
    [Scenario.standup; Scenario.lunch].
Proof.
  destruct (toggle_flips_completion Scenario.desktop "7f1c"
              (App.initial [Scenario.standup; Scenario.lunch]
                 DEFAULT_SETTINGS Scenario.at0859))
    as (H1 & _ & _ & H2).
  - right. by eexists.
  - split; [exact H1|exact H2].
Defined.

Lemma toggle_without_audio_completes_nothing_witness :
  let st := App.initial [Scenario.standup; Scenario.lunch] DEFAULT_SETTINGS
              Scenario.at0859 in
  let st' := App.step Cases.noAudio st (App.ToggleTask "7f1c") in
  App.scan st' = App.scan st /\
  unhandled (window (App.player st')) =
    [TypeError "AudioContext is not a constructor"].
Proof.
  destruct (toggle_without_audio_completes_nothing Cases.noAudio "7f1c"
              (App.initial [Scenario.standup; Scenario.lunch]
                 DEFAULT_SETTINGS Scenario.at0859) eq_refl eq_refl)
    as (_ & H).
  exact H.
Defined.

Lemma notified_task_stays_notified_witness :
  exists t',
    App.tasks
      (App.run Scenario.desktop
         (App.initial [Cases.rung; Scenario.standup] DEFAULT_SETTINGS
            Scenario.at0859)
         [App.ToggleTask "d115"; App.Tick Scenario.at0900;
          App.ToggleTask "d115"; App.StopAlarm; App.Tick Scenario.at0900'])
      !! 0%nat = Some t' /\
    notified t' = Some true /\ id t' = "d115" /\
    forall now, Scanner.isDue now t' = false.
Proof.
  apply (notified_task_stays_notified Scenario.desktop
           [App.ToggleTask "d115"; App.Tick Scenario.at0900;
            App.ToggleTask "d115"; App.StopAlarm; App.Tick Scenario.at0900']
           (App.initial [Cases.rung; Scenario.standup] DEFAULT_SETTINGS
              Scenario.at0859)
           0%nat Cases.rung).
  - repeat constructor.
  - reflexivity.
  - reflexivity.
Defined.

Lemma reorder_keeps_every_task_witness :
  let st := App.initial [Scenario.standup; Cases.rung; Scenario.lunch]
              DEFAULT_SETTINGS Scenario.at0859 in
  App.tasks (App.step Scenario.desktop st
               (App.HandleReorder [Scenario.lunch; Scenario.standup]))
    ≡ₚ [Scenario.standup; Cases.rung; Scenario.lunch].
Proof.
  destruct (reorder_keeps_every_task Scenario.desktop
              [Scenario.lunch; Scenario.standup]
              (App.initial [Scenario.standup; Cases.rung; Scenario.lunch]
                 DEFAULT_SETTINGS Scenario.at0859)) as (H & _).
  - change (filter _ _) with [Scenario.standup; Scenario.lunch].
    apply perm_swap.
  - exact H.
Defined.

Lemma submitted_task_rings_at_its_time_witness :
  let st := App.setForm Cases.typed
              (App.initial [Scenario.lunch] DEFAULT_SETTINGS Scenario.at0859) in
  let st2 := App.run Scenario.desktop st
               [App.SubmitNewTask "51aa" Scenario.at0859 1709629140000;
                App.Tick Scenario.at0900] in
  Scanner.alerts 1 (Scanner.history (App.scan st2)) = 1%nat /\
  exists t, App.tasks st2 !! 1%nat = Some t /\
    title t = " Call the bank" /\ notified t = Some true /\
    completed t = false.
Proof.
  destruct (submitted_task_rings_at_its_time Scenario.desktop
              (App.setForm Cases.typed
                 (App.initial [Scenario.lunch] DEFAULT_SETTINGS
                    Scenario.at0859))
              "51aa" Scenario.at0859 1709629140000 Scenario.at0900 granted
              eq_refl eq_refl ltac:(discriminate) eq_refl eq_refl)
    as (_ & _ & H1 & H2).
  split; [exact H1|exact H2].
Defined.

Lemma uploaded_sound_is_what_plays_witness :
  let st := App.setPlayer Cases.warmed
              (App.initial [] Sounds.ownSound Scenario.at0859) in
  let st1 := App.step Scenario.desktop st
               (App.HandleFileChange 48213
                  "data:audio/mpeg;base64,//uQxAAAAAAA" "chime.mp3") in
  let st3 := App.run Scenario.desktop st1
               [App.TogglePreview; App.Browser (Decoded 0 true)] in
  App.isPreviewing st3 = true /\
  sources (window (App.player st3)) !! 1%nat =
    Some {| node := BufferSource "data:audio/mpeg;base64,//uQxAAAAAAA" true;
            gain := 8 # 10; playing := true |}.
Proof.
  destruct (uploaded_sound_is_what_plays Scenario.desktop
              (App.setPlayer Cases.warmed
                 (App.initial [] Sounds.ownSound Scenario.at0859))
              48213 "d" "ata:audio/mpeg;base64,//uQxAAAAAAA" "chime.mp3"
              eq_refl eq_refl eq_refl) as (_ & _ & _ & H1 & H2).
  split; [exact H1|exact H2].
Defined.


(** * Stopping, failing, sorting *)

Section MoreCompositions.

Variable env : Platform.

(** X23. The stop button ends the session: pressed while the flags are
    backed, the player holds one session and no start is parked at an
    [await], it leaves both flags down, no closure registered and the
    player at rest (no timer, no utterance, no buffer source playing, no
    start parked), does not touch the tasks, and pressing it again changes
    nothing. Whatever happens to the player afterwards short of another
    start, it stays at rest with both flags down. *)
Theorem stop_alarm_ends_the_session st later :
  App.backed st -> orderly env (App.player st) ->
  awaiting (window (App.player st)) = ∅ ->
  Forall (fun e => isPlayNotification e = false) later ->
  let st' := App.step env st App.StopAlarm in
  let st'' := App.run env st' (App.Browser <$> later) in
  App.isAlarmRinging st' = false /\ App.isPreviewing st' = false /\
  onPlaybackEnd (this (App.player st')) = None /\
  atRest (App.player st') /\ App.scan st' = App.scan st /\
  App.step env st' App.StopAlarm = st' /\
  App.isAlarmRinging st'' = false /\ App.isPreviewing st'' = false /\
  onPlaybackEnd (this (App.player st'')) = None /\
  atRest (App.player st'').
Proof.
  intros Hb Ho Haw Hlater. cbn zeta. cbn [App.step]. unfold App.handle.
  rewrite stopAlarm_returns.
  destruct (onPlayer_frame env Stop st) as (Hs & _ & _ & _ & Hp).
  assert (step env (App.player st) Stop = stopped env (App.player st)) as Hst.
  { simpl. unfold task. by rewrite stop_stopped. }
  rewrite Hst in Hp.
  pose proof (deliver_step env Stop st) as Hd. simpl Closures.reaches in Hd.
  cbv iota in Hd.
  destruct (notify_registered st (step env (App.player st) Stop) Hb)
    as [Hfa Hfp].
  rewrite <- Hd in Hfa, Hfp.
  set (st1 := App.setIsAlarmRinging false (App.onPlayer env Stop st)).
  assert (App.player st1 = stopped env (App.player st)) as Hp1 by done.
  assert (atRest (App.player st1)) as Hrest.
  { rewrite Hp1. split; [by apply stopped_silent|done]. }
  assert (onPlaybackEnd (this (App.player st1)) = None) as Hreg
    by (by rewrite Hp1).
  destruct (rest_persists env later st1 Hlater Hrest Hreg)
    as (Hrest2 & Hreg2 & Hf2 & Hv2 & _).
  cbn zeta in Hrest2, Hreg2, Hf2, Hv2.
  split; [done|]. split; [done|]. split; [done|]. split; [done|].
  split; [done|]. split.
  { rewrite stopAlarm_returns.
    assert (App.onPlayer env Stop st1 = st1) as ->.
    { rewrite deliver_step. simpl step. unfold task. rewrite stop_stopped.
      rewrite Hp, stopped_stopped. unfold Closures.registered.
      rewrite Hreg. simpl. rewrite <- Hp1. apply setPlayer_player. }
    unfold st1. by destruct (App.onPlayer env Stop st). }
  split; [by rewrite Hf2|]. split; [by rewrite Hv2|]. done.
Qed.




End MoreCompositions.

Section SortFacts.

Import Sorting.

Lemma place_perm compareFn x l : place compareFn x l ≡ₚ x :: l.
Proof.
  induction l as [|y l IH]; simpl; [done|].
  destruct (0 <? compareFn x y); [|done].
  rewrite IH. apply perm_swap.
Qed.

Lemma sort_perm compareFn l : sort compareFn l ≡ₚ l.
Proof.
  induction l as [|x l IH]; simpl; [done|].
  rewrite place_perm. by constructor.
Qed.

(** Placing an element that is older than all of a list puts it last. *)
Lemma place_oldest x l :
  Forall (fun y => createdOrZero x < createdOrZero y) l ->
  place byCreation x l = l ++ [x].
Proof.
  induction l as [|y l IH]; intros Hall; [done|].
  apply Forall_cons in Hall as [Hy Hall]. simpl. unfold byCreation at 1.
  destruct (Z.ltb_spec 0 (createdOrZero y - createdOrZero x)); [|lia].
  by rewrite IH.
Qed.

Lemma place_sorted x l :
  newestFirst l -> newestFirst (place byCreation x l).
Proof.
  induction l as [|y l IH]; intros Hs; simpl.
  { by repeat constructor. }
  destruct Hs as [Hy Hs]. unfold byCreation at 1.
  destruct (Z.ltb_spec 0 (createdOrZero y - createdOrZero x)).
  - split; [|by apply IH].
    rewrite place_perm. constructor; [lia|done].
  - split; [|by split].
    constructor; [lia|].
    eapply Forall_impl; [exact Hy|]. simpl. intros z Hz. lia.
Qed.

(** X25. Sorting by creation loses no task and shows the newest first: the
    result is a rearrangement of the list, and no task in it is followed,
    anywhere further down, by one with a later creation stamp; a task
    without a stamp counts as created at 0. *)
Theorem creation_sort_is_newest_first taskList :
  sortedByCreation taskList ≡ₚ taskList /\
  newestFirst (sortedByCreation taskList).
Proof.
  split; [apply sort_perm|].
  unfold sortedByCreation.
  induction taskList as [|x l IH]; simpl; [done|].
  by apply place_sorted.
Qed.

End SortFacts.

Section ImportOrder.

Import Sorting.

Variable randomUUID : nat -> string.
Variable dateNow : nat -> Z.
Variable today : string.

Lemma rows_sorted_reverse i k lines :
  (forall j k, (j <= k)%nat -> dateNow j <= dateNow k) ->
  sortedByCreation (Csv.rows randomUUID dateNow today i k lines) =
    reverse (Csv.rows randomUUID dateNow today i k lines).
Proof.
  intros Hmono. revert i k.
  induction lines as [|line lines IH]; intros i k; [done|].
  simpl. destruct (Csv.row randomUUID dateNow today i k line) as [t|] eqn:E;
    [|apply IH].
  unfold sortedByCreation in *. simpl. rewrite IH, reverse_cons.
  apply place_oldest. apply Forall_forall. intros y Hy.
  rewrite elem_of_reverse in Hy. apply list_elem_of_lookup in Hy as [j Hj].
  destruct (rows_lookup randomUUID dateNow today _ _ _ _ _ Hj)
    as (i' & Hi & _ & Hst).
  destruct (row_stamp randomUUID dateNow today _ _ _ _ E) as [_ Hst0].
  unfold createdOrZero. rewrite Hst, Hst0.
  specialize (Hmono k (S k + j)%nat ltac:(lia)). lia.
Qed.

(** X26. Import composed with the sort by creation: as long as the clock
    does not run backwards during the import, the tasks of a file appear
    under that sort in the reverse of the order of their rows, the last row
    first. *)
Theorem creation_sort_reverses_import text :
  (forall j k, (j <= k)%nat -> dateNow j <= dateNow k) ->
  sortedByCreation (Csv.parse randomUUID dateNow today text) =
    reverse (Csv.parse randomUUID dateNow today text).
Proof. intros Hmono. unfold Csv.parse. by apply rows_sorted_reverse. Qed.

End ImportOrder.

Lemma stop_alarm_ends_the_session_witness :
  let st := App.step Scenario.desktop
              (App.initial [Scenario.standup; Scenario.lunch] DEFAULT_SETTINGS
                 Scenario.at0859)
              (App.Tick Scenario.at0900) in
  let st' := App.step Scenario.desktop st App.StopAlarm in
  let st'' := App.run Scenario.desktop st'
                (App.Browser <$> [TimerFires 1; TimerFires 2; SourceEnds 0]) in
  App.isAlarmRinging st = true /\ App.isAlarmRinging st' = false /\
  atRest (App.player st') /\
  App.isAlarmRinging st'' = false /\ atRest (App.player st'').
Proof.
  destruct (stop_alarm_ends_the_session Scenario.desktop
              (App.step Scenario.desktop
                 (App.initial [Scenario.standup; Scenario.lunch]
                    DEFAULT_SETTINGS Scenario.at0859)
                 (App.Tick Scenario.at0900))
              [TimerFires 1; TimerFires 2; SourceEnds 0])
    as (H1 & _ & _ & H2 & _ & _ & H3 & _ & _ & H4).
  - split; intros H; [reflexivity|discriminate H].
  - apply (step_orderly Scenario.desktop initial
             (PlayNotification DEFAULT_SETTINGS "Standup" (Some App.alarmEnded))
             (initial_orderly Scenario.desktop)). reflexivity.
  - reflexivity.
  - repeat constructor.
  - split; [reflexivity|]. split; [exact H1|]. split; [exact H2|].
    split; [exact H3|exact H4].
Defined.


Lemma creation_sort_reverses_import_witness :
  Sorting.sortedByCreation
    (Csv.parse (fun k => numberToString (Z.of_nat k))
       (fun _ => 1709629200000) "2024-03-05" Csv.template) =
  reverse
    (Csv.parse (fun k => numberToString (Z.of_nat k))
       (fun _ => 1709629200000) "2024-03-05" Csv.template).
Proof.
  apply (creation_sort_reverses_import (fun k => numberToString (Z.of_nat k))
           (fun _ => 1709629200000) "2024-03-05" Csv.template).
  intros j k H. apply Z.le_refl.
Defined.
